(** * keepalived: BFD child process handling and library utilities

    A shallow embedding of
      - [lib/utils.c] / [lib/utils.h]: [in_csum] (both conditionally compiled
        variants), [memcmp_constant_time], [strcpy_safe_impl], [open_pipe],
        [set_tmp_dir], [make_tmp_filename], [log_stopping],
        [set_process_name];
      - [keepalived/bfd/bfd_daemon.c]: [stop_bfd], [open_bfd_pipes],
        [start_bfd], the signal handlers, [bfd_signal_init],
        [reload_bfd_thread] and [start_bfd_child];
      - further functions of [lib/utils.c] / [lib/utils.h]:
        [csum_incremental_update16], [csum_incremental_update32],
        [string_equal], [integer_to_string], [inaddr_equal],
        [inet_inaddrcmp], [sockstorage_equal], [inet_sockaddrcmp],
        [get_open_fds], [format_mac_buf], [make_file_name], [set_std_fd];
        and [bfd_validate_config] of [bfd_daemon.c].

    Conventions.  C objects are lists of bytes, a [size_t] is a [Z] with its
    64-bit wrap-around written out where the code subtracts, a [uint32_t]
    accumulator is a [Z] reduced modulo [2^32] after every addition.  A read
    or write outside an object has no meaning in C: the embedded functions
    return [None] there.  The daemon is a record of its global variables
    together with the descriptor table of the process; its functions run in
    a state monad with two more outcomes, [exit(status)] and the fault of
    a NULL dereference.  The functions of files that are not at hand are
    helpers: what they answer, open, close and log is an input.  The loop
    of the scheduler is a transition function on the daemon and the
    handler in flight. *)

From Stdlib Require Import ZArith NArith List Lia Strings.Byte String Ascii.
From stdpp Require Import gmap strings list fin_maps.

Local Open Scope Z_scope.

(* ===================================================================== *)
(** * lib/utils.c, lib/utils.h                                            *)
(* ===================================================================== *)

Module Utils.

(** ** Bytes and C objects *)

(** The value of an [unsigned char]. *)
Definition byte_val (b : byte) : Z := Z.of_N (Byte.to_N b).

(** Conversion of an [int] to [unsigned char]. *)
Definition to_uchar (z : Z) : Z := Z.land z 255.

(** Conversion to [uint16_t] and [uint32_t]. *)
Definition to_uint16 (z : Z) : Z := z mod 2 ^ 16.
Definition to_uint32 (z : Z) : Z := z mod 2 ^ 32.

(** Conversion to [size_t] (64 bits). *)
Definition SIZE_MAX : Z := 2 ^ 64 - 1.
Definition to_size_t (z : Z) : Z := z mod 2 ^ 64.

(** ** memcmp_constant_time

    [ret] is an [unsigned char] starting at 0; for [i] from 0 below [n] the
    loop reads one byte through each of the pointers [a] and [b], advances
    both, and ors the exclusive or of the two bytes into [ret]; [ret] is
    returned as an [int].  The pointers [a] and [b] are the remaining parts
    of the two objects. *)
Fixpoint memcmp_constant_time_loop (n : nat) (a b : list byte) (ret : Z)
  : option Z :=
  match n with
  | O => Some ret
  | S n' =>
      match a, b with
      | x :: a', y :: b' =>
          memcmp_constant_time_loop n' a' b'
            (to_uchar (Z.lor ret (Z.lxor (byte_val x) (byte_val y))))
      | _, _ => None
      end
  end.

Definition memcmp_constant_time (s1 s2 : list byte) (n : nat) : option Z :=
  memcmp_constant_time_loop n s1 s2 0.

(** ** C strings and the string library *)

(** [strlen s]: the number of bytes before the first NUL of the object that
    [s] points into; [None] when the object holds no NUL. *)
Fixpoint strlen (s : list byte) : option nat :=
  match s with
  | [] => None
  | c :: s' => if Byte.eqb c x00 then Some 0%nat else S <$> strlen s'
  end.

(** The string an object holds: its bytes before the first NUL. *)
Fixpoint c_string (s : list byte) : list byte :=
  match s with
  | [] => []
  | c :: s' => if Byte.eqb c x00 then [] else c :: c_string s'
  end.

(** [memcpy(dst, src, n)]: the first [n] bytes of [dst] become those of
    [src]; both objects must hold [n] bytes. *)
Definition memcpy (dst src : list byte) (n : Z) : option (list byte) :=
  if decide (0 <= n <= Z.of_nat (length src) /\ n <= Z.of_nat (length dst))
  then Some (take (Z.to_nat n) src ++ drop (Z.to_nat n) dst)
  else None.

(** [buf[i] = c]. *)
Definition store (buf : list byte) (i : Z) (c : byte) : option (list byte) :=
  if decide (0 <= i < Z.of_nat (length buf))
  then Some (<[Z.to_nat i := c]> buf)
  else None.

(** [strcpy(dst + off, src)]: copies the string at [src] with its NUL. *)
Definition strcpy (dst : list byte) (off : Z) (src : list byte)
  : option (list byte) :=
  n ← strlen src;
  tail ← memcpy (drop (Z.to_nat off) dst) src (Z.of_nat n + 1);
  if decide (0 <= off <= Z.of_nat (length dst))
  then Some (take (Z.to_nat off) dst ++ tail)
  else None.

(** ** strcpy_safe_impl (utils.h)

    [str_len = strlen(src)]; [memcpy] of [str_len + 1] bytes when
    [str_len < len] and of [len - 1] bytes otherwise; then
    [dst[len - 1]] is set to NUL.  [len - 1] is a [size_t] subtraction. *)
Definition strcpy_safe_impl (dst src : list byte) (len : Z)
  : option (list byte) :=
  str_len ← Z.of_nat <$> strlen src;
  dst1 ← memcpy dst src
           (if str_len <? len then to_size_t (str_len + 1)
            else to_size_t (len - 1));
  store dst1 (to_size_t (len - 1)) x00.

(** ** set_tmp_dir, make_tmp_filename *)

(** A C string constant or heap string as the object that holds it. *)
Definition c_str (s : string) : list byte := list_byte_of_string s ++ [x00].

(** [s[i]] for a string: the terminating NUL at its end. *)
Definition char_at (s : string) (i : nat) : ascii :=
  match String.get i s with
  | Some c => c
  | None => "000"%char
  end.

(** The environment of the process, and [getenv]. *)
Definition getenv (env : gmap string string) (name : string) : option string :=
  env !! name.

(** [MALLOC(n)] of memory.h: [n] zeroed bytes. *)
Definition MALLOC (n : Z) : list byte := replicate (Z.to_nat n) x00.

Section TmpDir.
(** The default directory compiled in by configure. *)
Variable KA_TMP_DIR : string.

(** [set_tmp_dir] assigns the global [tmp_dir]; the new value is returned.
    [tmp_dir] is [KA_TMP_DIR] when [getenv] returns NULL or the first
    character is not a slash. *)
Definition set_tmp_dir (env : gmap string string) : string :=
  match getenv env "TMPDIR" with
  | None => KA_TMP_DIR
  | Some tmp_dir =>
      if negb (Ascii.eqb (char_at tmp_dir 0) "/"%char) then KA_TMP_DIR
      else tmp_dir
  end.
End TmpDir.

(** [make_tmp_filename(file_name)], reading the global [tmp_dir]. *)
Definition make_tmp_filename (tmp_dir file_name : string)
  : option (list byte) :=
  tmp_dir_len ← Z.of_nat <$> strlen (c_str tmp_dir);
  fn_len ← Z.of_nat <$> strlen (c_str file_name);
  let path := MALLOC (tmp_dir_len + 1 + fn_len + 1) in
  path ← strcpy path 0 (c_str tmp_dir);
  path ← store path tmp_dir_len "/"%byte;
  path ← strcpy path (tmp_dir_len + 1) (c_str file_name);
  Some path.

(** ** in_csum *)

Section InCsum.
(** Byte order of the host. *)
Variable big_endian : bool.

(** The value of a [uint16_t] whose object representation is [b0 b1]. *)
Definition uint16_of_bytes (b0 b1 : byte) : Z :=
  if big_endian then byte_val b0 * 256 + byte_val b1
  else byte_val b0 + byte_val b1 * 256.

Definition uint16_of_object (w16 : list byte) : option Z :=
  match w16 with
  | [b0; b1] => Some (uint16_of_bytes b0 b1)
  | _ => None
  end.

(** [htons]: the argument is converted to [uint16_t]; the two bytes are
    swapped on a little-endian host. *)
Definition htons (x : Z) : Z :=
  let x := to_uint16 x in
  if big_endian then x
  else to_uint16 (Z.lor (Z.shiftl x 8) (Z.shiftr x 8)).

(** *** Variant compiled with USE_MEMCPY_FOR_ALIASING

    [b_addr] is a byte offset into the buffer at [addr]; every word is
    copied into the object [w16] with [memcpy]. *)
Fixpoint in_csum_memcpy_loop (mem : list byte) (nleft : nat) (b_addr : nat)
    (csum : Z) : option (nat * nat * Z) :=
  match nleft with
  | S (S nleft') =>
      w16 ← memcpy [x00; x00] (drop b_addr mem) 2 ≫= uint16_of_object;
      in_csum_memcpy_loop mem nleft' (b_addr + 2)%nat (to_uint32 (csum + w16))
  | _ => Some (nleft, b_addr, csum)
  end.

Definition in_csum_memcpy (mem : list byte) (len : nat) (csum : Z)
    (acc : bool) : option (Z * option Z) :=
  '(nleft, b_addr, csum) ← in_csum_memcpy_loop mem len 0 csum;
  csum ← (if decide (nleft = 1%nat)
          then b ← mem !! b_addr;
               Some (to_uint32 (csum + htons (Z.shiftl (byte_val b) 8)))
          else Some csum);
  let stored := if acc then Some csum else None in
  let csum := to_uint32 (Z.shiftr csum 16 + Z.land csum 0xffff) in
  let csum := to_uint32 (csum + Z.shiftr csum 16) in
  Some (to_uint16 (Z.land (to_uint32 (Z.lnot csum)) 0xffff), stored).

(** *** Variant reading through a [may_alias] pointer

    [w] counts [uint16_t] elements from [addr]; the odd byte is read
    through [w] cast to a byte pointer. *)
Definition deref_uint16 (mem : list byte) (w : nat) : option Z :=
  match mem !! (2 * w)%nat, mem !! (2 * w + 1)%nat with
  | Some b0, Some b1 => Some (uint16_of_bytes b0 b1)
  | _, _ => None
  end.

Fixpoint in_csum_alias_loop (mem : list byte) (nleft : nat) (w : nat)
    (sum : Z) : option (nat * nat * Z) :=
  match nleft with
  | S (S nleft') =>
      v ← deref_uint16 mem w;
      in_csum_alias_loop mem nleft' (S w) (to_uint32 (sum + v))
  | _ => Some (nleft, w, sum)
  end.

Definition in_csum_alias (mem : list byte) (len : nat) (csum : Z)
    (acc : bool) : option (Z * option Z) :=
  let sum := csum in
  '(nleft, w, sum) ← in_csum_alias_loop mem len 0 sum;
  sum ← (if decide (nleft = 1%nat)
         then b ← mem !! (2 * w)%nat;
              Some (to_uint32 (sum + htons (Z.shiftl (byte_val b) 8)))
         else Some sum);
  let stored := if acc then Some sum else None in
  let sum := to_uint32 (Z.shiftr sum 16 + Z.land sum 0xffff) in
  let sum := to_uint32 (sum + Z.shiftr sum 16) in
  let answer := to_uint16 (Z.land (to_uint32 (Z.lnot sum)) 0xffff) in
  Some (answer, stored).
End InCsum.

(** The state of the loop of the [may_alias] variant, its word index
    expressed as the byte offset of the [memcpy] variant. *)
Definition word_to_byte_offset (r : nat * nat * Z) : nat * nat * Z :=
  let '(nleft, w, sum) := r in (nleft, (2 * w)%nat, sum).

(** A string without an embedded NUL, as every C string is. *)
Definition nul_free (s : string) : Prop := x00 ∉ list_byte_of_string s.

End Utils.

(* ===================================================================== *)
(** * keepalived/bfd/bfd_daemon.c                                         *)
(* ===================================================================== *)

Module Bfd.

(** ** Constants *)

(** Signal numbers and open flags of Linux. *)
Definition SIGHUP : Z := 1.
Definition SIGINT : Z := 2.
Definition SIGUSR1 : Z := 10.
Definition SIGPIPE : Z := 13.
Definition SIGTERM : Z := 15.
Definition SIGCHLD : Z := 17.

Definition O_NONBLOCK : Z := 0x800.
Definition O_DIRECT : Z := 0x4000.
Definition O_CLOEXEC : Z := 0x80000.

Definition EXIT_SUCCESS : Z := 0.

(** Modelled from the spec: the exit codes of the daemon, whose enumeration
    is declared in a header that is not among the files at hand; the
    interface section
    gives 0 = clean, 2 = config-error, 1 = fatal. *)
Definition KEEPALIVED_EXIT_FATAL : Z := 1.
Definition KEEPALIVED_EXIT_CONFIG : Z := 2.

(** Options fixed when the program is built.  The code is taken with
    [_ONE_PROCESS_DEBUG_] undefined: the BFD daemon is a forked child; and
    without the instrumentation of [_MEM_CHECK_], [_WITH_PROFILING_] and
    [DO_STACKSIZE]. *)
Record build_config := {
  WITH_VRRP : bool;
  WITH_LVS : bool;
  WITH_TRACK_PROCESS : bool;
  THREAD_DUMP : bool;
  (** the signal number behind the macro of signals.h *)
  SIGTDUMP : Z
}.

(** ** Data *)

(** The fields of [data_t] that bfd_daemon.c reads. *)
Record data_t := {
  reload_check_config : bool;
  bfd_process_name : option string;
  instance_name : option string;
  network_namespace : option string
}.

(** The BFD configuration: the configured instances, by name. *)
Record bfd_data_t := { bfd : list string }.

(** What [get_config_status] reports. *)
Inductive config_status :=
| CONFIG_OK
| CONFIG_ERROR (code : nat).

Definition is_config_ok (s : config_status) : bool :=
  match s with
  | CONFIG_OK => true
  | CONFIG_ERROR _ => false
  end.

(** A [timeval_t]: [tv_sec] and [tv_usec]. *)
Definition timeval_t : Type := Z * Z.

(** An open file: one end of a pipe object, or any other file (log file,
    socket, pid file, epoll descriptor, ...). *)
Inductive pipe_end := READ_END | WRITE_END.

Inductive file :=
| PIPE (id : nat) (e : pipe_end)
| OTHER (what : string).

Record fd_entry := {
  fd_file : file;
  fd_nonblock : bool;
  fd_cloexec : bool
}.

(** Thread functions this file hands to the scheduler, and the entries of
    the event queue of a master. *)
Inductive thread_func :=
| BFD_DISPATCHER_INIT
| RELOAD_BFD_THREAD
| PRINT_BFD_THREAD
| BFD_RESPAWN_THREAD.

Inductive thread_t :=
| THREAD_EVENT (f : thread_func)
| THREAD_TERMINATE.

(** A thread added with [thread_add_child]: the function to call when the
    child [child_pid] has died.  The timeout this file passes is always
    [TIMER_NEVER]. *)
Record child_thread := {
  child_func : thread_func;
  child_pid : Z
}.

(** Signal handlers by name, and what is registered for a signal. *)
Inductive signal_handler :=
| SIGRELOAD_BFD
| SIGEND_BFD
| SIGDUMP_BFD
| THREAD_CHILD_HANDLER
| THREAD_DUMP_SIGNAL.

Inductive disposition :=
| SIG_HANDLER (h : signal_handler)
| SIG_IGNORE.

(** The two global pipe arrays, as lvalues. *)
Inductive pipe_var := BFD_VRRP_EVENT_PIPE | BFD_CHECKER_EVENT_PIPE.

(** ** The process *)

Record proc := mk_proc {
  (** descriptor table of the process *)
  fds : gmap nat fd_entry;
  (** RLIMIT_NOFILE *)
  nofile : nat;
  (** identity of the next pipe object the kernel creates *)
  next_pipe : nat;
  (** globals of bfd_daemon.c *)
  bfd_vrrp_event_pipe : Z * Z;
  bfd_checker_event_pipe : Z * Z;
  bfd_start_time : timeval_t;
  (** globals of bfd_data.c, global_data.c and main.c *)
  bfd_data : option bfd_data_t;
  old_bfd_data : option bfd_data_t;
  global_data : option data_t;
  old_global_data : option data_t;
  reload : bool;
  bfd_child : Z;
  (** the scheduler: the queue of ready events of the master (NULL when
      there is no master) and its threads that wait for a child *)
  master : option (list thread_t);
  child_threads : list child_thread;
  (** handlers registered in signals.c *)
  signals : gmap Z disposition;
  (** name of the process, as set with PR_SET_NAME *)
  comm : option string;
  (** lines written with log_message, oldest first *)
  log : list string
}.

Definition set_fds (v : gmap nat fd_entry) (p : proc) : proc :=
  {| fds := v; nofile := nofile p; next_pipe := next_pipe p;
     bfd_vrrp_event_pipe := bfd_vrrp_event_pipe p;
     bfd_checker_event_pipe := bfd_checker_event_pipe p;
     bfd_start_time := bfd_start_time p; bfd_data := bfd_data p;
     old_bfd_data := old_bfd_data p; global_data := global_data p;
     old_global_data := old_global_data p; reload := reload p;
     bfd_child := bfd_child p; master := master p;
     child_threads := child_threads p; signals := signals p; comm := comm p;
     log := log p |}.

Definition set_nofile (v : nat) (p : proc) : proc :=
  {| fds := fds p; nofile := v; next_pipe := next_pipe p;
     bfd_vrrp_event_pipe := bfd_vrrp_event_pipe p;
     bfd_checker_event_pipe := bfd_checker_event_pipe p;
     bfd_start_time := bfd_start_time p; bfd_data := bfd_data p;
     old_bfd_data := old_bfd_data p; global_data := global_data p;
     old_global_data := old_global_data p; reload := reload p;
     bfd_child := bfd_child p; master := master p;
     child_threads := child_threads p; signals := signals p; comm := comm p;
     log := log p |}.

Definition set_next_pipe (v : nat) (p : proc) : proc :=
  {| fds := fds p; nofile := nofile p; next_pipe := v;
     bfd_vrrp_event_pipe := bfd_vrrp_event_pipe p;
     bfd_checker_event_pipe := bfd_checker_event_pipe p;
     bfd_start_time := bfd_start_time p; bfd_data := bfd_data p;
     old_bfd_data := old_bfd_data p; global_data := global_data p;
     old_global_data := old_global_data p; reload := reload p;
     bfd_child := bfd_child p; master := master p;
     child_threads := child_threads p; signals := signals p; comm := comm p;
     log := log p |}.

Definition set_bfd_vrrp_event_pipe (v : Z * Z) (p : proc) : proc :=
  {| fds := fds p; nofile := nofile p; next_pipe := next_pipe p;
     bfd_vrrp_event_pipe := v;
     bfd_checker_event_pipe := bfd_checker_event_pipe p;
     bfd_start_time := bfd_start_time p; bfd_data := bfd_data p;
     old_bfd_data := old_bfd_data p; global_data := global_data p;
     old_global_data := old_global_data p; reload := reload p;
     bfd_child := bfd_child p; master := master p;
     child_threads := child_threads p; signals := signals p; comm := comm p;
     log := log p |}.

Definition set_bfd_checker_event_pipe (v : Z * Z) (p : proc) : proc :=
  {| fds := fds p; nofile := nofile p; next_pipe := next_pipe p;
     bfd_vrrp_event_pipe := bfd_vrrp_event_pipe p;
     bfd_checker_event_pipe := v; bfd_start_time := bfd_start_time p;
     bfd_data := bfd_data p; old_bfd_data := old_bfd_data p;
     global_data := global_data p; old_global_data := old_global_data p;
     reload := reload p; bfd_child := bfd_child p; master := master p;
     child_threads := child_threads p; signals := signals p; comm := comm p;
     log := log p |}.

Definition set_bfd_start_time (v : timeval_t) (p : proc) : proc :=
  {| fds := fds p; nofile := nofile p; next_pipe := next_pipe p;
     bfd_vrrp_event_pipe := bfd_vrrp_event_pipe p;
     bfd_checker_event_pipe := bfd_checker_event_pipe p;
     bfd_start_time := v; bfd_data := bfd_data p;
     old_bfd_data := old_bfd_data p; global_data := global_data p;
     old_global_data := old_global_data p; reload := reload p;
     bfd_child := bfd_child p; master := master p;
     child_threads := child_threads p; signals := signals p; comm := comm p;
     log := log p |}.

Definition set_bfd_data (v : option bfd_data_t) (p : proc) : proc :=
  {| fds := fds p; nofile := nofile p; next_pipe := next_pipe p;
     bfd_vrrp_event_pipe := bfd_vrrp_event_pipe p;
     bfd_checker_event_pipe := bfd_checker_event_pipe p;
     bfd_start_time := bfd_start_time p; bfd_data := v;
     old_bfd_data := old_bfd_data p; global_data := global_data p;
     old_global_data := old_global_data p; reload := reload p;
     bfd_child := bfd_child p; master := master p;
     child_threads := child_threads p; signals := signals p; comm := comm p;
     log := log p |}.

Definition set_old_bfd_data (v : option bfd_data_t) (p : proc) : proc :=
  {| fds := fds p; nofile := nofile p; next_pipe := next_pipe p;
     bfd_vrrp_event_pipe := bfd_vrrp_event_pipe p;
     bfd_checker_event_pipe := bfd_checker_event_pipe p;
     bfd_start_time := bfd_start_time p; bfd_data := bfd_data p;
     old_bfd_data := v; global_data := global_data p;
     old_global_data := old_global_data p; reload := reload p;
     bfd_child := bfd_child p; master := master p;
     child_threads := child_threads p; signals := signals p; comm := comm p;
     log := log p |}.

Definition set_global_data (v : option data_t) (p : proc) : proc :=
  {| fds := fds p; nofile := nofile p; next_pipe := next_pipe p;
     bfd_vrrp_event_pipe := bfd_vrrp_event_pipe p;
     bfd_checker_event_pipe := bfd_checker_event_pipe p;
     bfd_start_time := bfd_start_time p; bfd_data := bfd_data p;
     old_bfd_data := old_bfd_data p; global_data := v;
     old_global_data := old_global_data p; reload := reload p;
     bfd_child := bfd_child p; master := master p;
     child_threads := child_threads p; signals := signals p; comm := comm p;
     log := log p |}.

Definition set_old_global_data (v : option data_t) (p : proc) : proc :=
  {| fds := fds p; nofile := nofile p; next_pipe := next_pipe p;
     bfd_vrrp_event_pipe := bfd_vrrp_event_pipe p;
     bfd_checker_event_pipe := bfd_checker_event_pipe p;
     bfd_start_time := bfd_start_time p; bfd_data := bfd_data p;
     old_bfd_data := old_bfd_data p; global_data := global_data p;
     old_global_data := v; reload := reload p; bfd_child := bfd_child p;
     master := master p; child_threads := child_threads p;
     signals := signals p; comm := comm p; log := log p |}.

Definition set_reload (v : bool) (p : proc) : proc :=
  {| fds := fds p; nofile := nofile p; next_pipe := next_pipe p;
     bfd_vrrp_event_pipe := bfd_vrrp_event_pipe p;
     bfd_checker_event_pipe := bfd_checker_event_pipe p;
     bfd_start_time := bfd_start_time p; bfd_data := bfd_data p;
     old_bfd_data := old_bfd_data p; global_data := global_data p;
     old_global_data := old_global_data p; reload := v;
     bfd_child := bfd_child p; master := master p;
     child_threads := child_threads p; signals := signals p; comm := comm p;
     log := log p |}.

Definition set_bfd_child (v : Z) (p : proc) : proc :=
  {| fds := fds p; nofile := nofile p; next_pipe := next_pipe p;
     bfd_vrrp_event_pipe := bfd_vrrp_event_pipe p;
     bfd_checker_event_pipe := bfd_checker_event_pipe p;
     bfd_start_time := bfd_start_time p; bfd_data := bfd_data p;
     old_bfd_data := old_bfd_data p; global_data := global_data p;
     old_global_data := old_global_data p; reload := reload p;
     bfd_child := v; master := master p; child_threads := child_threads p;
     signals := signals p; comm := comm p; log := log p |}.

Definition set_master (v : option (list thread_t)) (p : proc) : proc :=
  {| fds := fds p; nofile := nofile p; next_pipe := next_pipe p;
     bfd_vrrp_event_pipe := bfd_vrrp_event_pipe p;
     bfd_checker_event_pipe := bfd_checker_event_pipe p;
     bfd_start_time := bfd_start_time p; bfd_data := bfd_data p;
     old_bfd_data := old_bfd_data p; global_data := global_data p;
     old_global_data := old_global_data p; reload := reload p;
     bfd_child := bfd_child p; master := v;
     child_threads := child_threads p; signals := signals p; comm := comm p;
     log := log p |}.

Definition set_child_threads (v : list child_thread) (p : proc) : proc :=
  {| fds := fds p; nofile := nofile p; next_pipe := next_pipe p;
     bfd_vrrp_event_pipe := bfd_vrrp_event_pipe p;
     bfd_checker_event_pipe := bfd_checker_event_pipe p;
     bfd_start_time := bfd_start_time p; bfd_data := bfd_data p;
     old_bfd_data := old_bfd_data p; global_data := global_data p;
     old_global_data := old_global_data p; reload := reload p;
     bfd_child := bfd_child p; master := master p; child_threads := v;
     signals := signals p; comm := comm p; log := log p |}.

Definition set_signals (v : gmap Z disposition) (p : proc) : proc :=
  {| fds := fds p; nofile := nofile p; next_pipe := next_pipe p;
     bfd_vrrp_event_pipe := bfd_vrrp_event_pipe p;
     bfd_checker_event_pipe := bfd_checker_event_pipe p;
     bfd_start_time := bfd_start_time p; bfd_data := bfd_data p;
     old_bfd_data := old_bfd_data p; global_data := global_data p;
     old_global_data := old_global_data p; reload := reload p;
     bfd_child := bfd_child p; master := master p;
     child_threads := child_threads p; signals := v; comm := comm p;
     log := log p |}.

Definition set_comm (v : option string) (p : proc) : proc :=
  {| fds := fds p; nofile := nofile p; next_pipe := next_pipe p;
     bfd_vrrp_event_pipe := bfd_vrrp_event_pipe p;
     bfd_checker_event_pipe := bfd_checker_event_pipe p;
     bfd_start_time := bfd_start_time p; bfd_data := bfd_data p;
     old_bfd_data := old_bfd_data p; global_data := global_data p;
     old_global_data := old_global_data p; reload := reload p;
     bfd_child := bfd_child p; master := master p;
     child_threads := child_threads p; signals := signals p; comm := v;
     log := log p |}.

Definition set_log (v : list string) (p : proc) : proc :=
  {| fds := fds p; nofile := nofile p; next_pipe := next_pipe p;
     bfd_vrrp_event_pipe := bfd_vrrp_event_pipe p;
     bfd_checker_event_pipe := bfd_checker_event_pipe p;
     bfd_start_time := bfd_start_time p; bfd_data := bfd_data p;
     old_bfd_data := old_bfd_data p; global_data := global_data p;
     old_global_data := old_global_data p; reload := reload p;
     bfd_child := bfd_child p; master := master p;
     child_threads := child_threads p; signals := signals p; comm := comm p;
     log := v |}.
Definition get_pipe (v : pipe_var) (p : proc) : Z * Z :=
  match v with
  | BFD_VRRP_EVENT_PIPE => bfd_vrrp_event_pipe p
  | BFD_CHECKER_EVENT_PIPE => bfd_checker_event_pipe p
  end.

Definition set_pipe (v : pipe_var) (a : Z * Z) (p : proc) : proc :=
  match v with
  | BFD_VRRP_EVENT_PIPE => set_bfd_vrrp_event_pipe a p
  | BFD_CHECKER_EVENT_PIPE => set_bfd_checker_event_pipe a p
  end.

(** ** Control: return, [exit(status)], or a fault (NULL dereference) *)

Inductive outcome (A : Type) :=
| Returns (a : A) (p : proc)
| Exits (status : Z) (p : proc)
| Faults (p : proc).
Arguments Returns {A} a p.
Arguments Exits {A} status p.
Arguments Faults {A} p.

Definition M (A : Type) : Type := proc -> outcome A.

Definition ret {A} (a : A) : M A := fun p => Returns a p.

Definition bind {A B} (m : M A) (k : A -> M B) : M B :=
  fun p =>
    match m p with
    | Returns a p' => k a p'
    | Exits status p' => Exits status p'
    | Faults p' => Faults p'
    end.

Definition exit {A} (status : Z) : M A := fun p => Exits status p.
Definition fault {A} : M A := fun p => Faults p.
Definition get {A} (f : proc -> A) : M A := fun p => Returns (f p) p.
Definition modify (f : proc -> proc) : M unit := fun p => Returns tt (f p).

(** stdpp's notations [x ← m; k] and [m ;; k] are used for [M]. *)
#[global] Instance M_ret : MRet M := @ret.
#[global] Instance M_bind : MBind M := fun A B k m => bind m k.

(** ** The world around the daemon

    The parser, the pid file, the scheduler and the other helpers are
    external collaborators, in files that are not at hand.  What they
    answer is an input of the model.  A helper acts on the modelled state
    through the descriptor table and the log: it may open files, close
    descriptors (whatever they refer to) and write log lines. *)

Inductive helper :=
| CLOSE_OTHER_PIDFILES
| CLOSE_TRACK_PROCESSES
| OPEN_SYSLOG
| OPEN_LOG_FILE
| SEPARATE_CONFIG_FILE
| PIDFILE_WRITE
| PIDFILE_RM
| THREAD_DESTROY_MASTER
| THREAD_MAKE_MASTER
| THREAD_ADD_BASE_THREADS
| BFD_DISPATCHER_RELEASE
| CLOSE_LOG_FILE
| CLOSELOG
| INIT_DATA
| BFD_COMPLETE_INIT
| NOTIFY_CONFIG_READ
| SET_PROCESS_PRIORITIES
| RESTORE_PRIORITY
| RESET_PRIORITY
| SET_PROCESS_CPU_AFFINITY
| SAVE_CONFIG (copy : bool)
| REINITIALISE_GLOBAL_VARS.

Inductive fd_op :=
| FD_OPEN (what : string)
| FD_CLOSE (fd : nat).

Record world := {
  (** [ignore_sigint] of main.c *)
  ignore_sigint : bool;
  (** [CONFIG_TEST_BIT], [DUMP_CONF_BIT], [LOG_DETAIL_BIT] and
      [NO_SYSLOG_BIT] of [debug] *)
  config_test : bool;
  dump_conf : bool;
  log_detail : bool;
  no_syslog : bool;
  (** [log_file_name] of logger.c; NULL also stands for a build without
      [ENABLE_LOG_TO_FILE] *)
  log_file_name : option string;
  (** the conversion specifications behind the macros [PRI_tv_sec] and
      [PRI_tv_usec], which are defined in a header that is not at hand *)
  PRI_tv_sec : string;
  PRI_tv_usec : string;
  (** [ru_utime] of [getrusage(RUSAGE_CHILDREN)] *)
  child_ru_utime : timeval_t;
  (** [time_now] of timer.c *)
  time_now : timeval_t;
  (** the lines [dump_bfd_data(NULL, bfd_data)] writes to the log *)
  dump_bfd_data : option bfd_data_t -> list string;
  (** the value [fork] returns *)
  fork_result : Z;
  (** whether [alloc_bfd_data] returns memory *)
  alloc_bfd_data_ok : bool;
  (** what reading [conf_file] yields, and the status the parser and
      [bfd_complete_init] leave behind *)
  conf_global : data_t;
  conf_bfd : bfd_data_t;
  conf_status : config_status;
  (** [init_global_data(data, prev, true)] of global_data.c *)
  init_global_data : data_t -> option data_t -> data_t;
  (** what [prctl(PR_SET_NAME, name)] returns *)
  prctl_set_name : string -> Z;
  (** whether [pidfile_write] succeeds *)
  pidfile_write_ok : bool;
  (** what [chdir("/")] returns *)
  chdir_root : Z;
  (** the descriptors a helper opens and closes, and the lines it logs *)
  helper_fds : helper -> list fd_op;
  helper_log : helper -> list string;
  (** [launch_thread_scheduler(master)]: runs the threads until the loop
      ends, or until one of them leaves the process *)
  launch_thread_scheduler : M unit;
  (** the steps of a thread whose function is not modelled here
      ([bfd_dispatcher_init] of bfd_scheduler.c; [bfd_respawn_thread],
      which runs in the parent on functions of other files) *)
  other_thread : thread_func -> list (M unit)
}.

(** ** Kernel: descriptors *)

(** The lowest descriptor that is not open. *)
Definition lowest_free (t : gmap nat fd_entry) : nat :=
  match list_find (fun fd => t !! fd = None) (seq 0 (S (size t))) with
  | Some (_, fd) => fd
  | None => S (size t)
  end.

(** [close(fd)]: 0, or -1 (EBADF) when [fd] is not an open descriptor. *)
Definition close (fd : Z) : M Z :=
  fun p =>
    if decide (0 <= fd /\ is_Some (fds p !! Z.to_nat fd))
    then Returns 0 (set_fds (delete (Z.to_nat fd) (fds p)) p)
    else Returns (-1) p.

(** [pipe2(pipe_arr, flags)]: -1 with EINVAL on an unknown flag and with
    EMFILE when two descriptors below the limit are not available;
    otherwise a new pipe object, its read end in [pipe_arr[0]] and its write
    end in [pipe_arr[1]], both with the status and descriptor flags asked
    for. *)
Definition pipe2 (pipe_arr : pipe_var) (flags : Z) : M Z :=
  fun p =>
    if decide (Z.land flags (Z.lnot (Z.lor O_CLOEXEC (Z.lor O_NONBLOCK O_DIRECT))) <> 0)
    then Returns (-1) p
    else
      let nonblock := negb (Z.land flags O_NONBLOCK =? 0) in
      let cloexec := negb (Z.land flags O_CLOEXEC =? 0) in
      let id := next_pipe p in
      let rfd := lowest_free (fds p) in
      let t1 := <[rfd := {| fd_file := PIPE id READ_END;
                            fd_nonblock := nonblock;
                            fd_cloexec := cloexec |}]> (fds p) in
      let wfd := lowest_free t1 in
      if decide (rfd < nofile p /\ wfd < nofile p)%nat
      then
        let t2 := <[wfd := {| fd_file := PIPE id WRITE_END;
                              fd_nonblock := nonblock;
                              fd_cloexec := cloexec |}]> t1 in
        Returns 0
          (set_pipe pipe_arr (Z.of_nat rfd, Z.of_nat wfd)
             (set_next_pipe (S id) (set_fds t2 p)))
      else Returns (-1) p.

(** What [write] does on a descriptor, given whether the pipe behind it is
    full. *)
Inductive write_result :=
| WRITE_DONE
| WRITE_EAGAIN
| WRITE_EBADF
| WRITE_BLOCKS.

Definition write (fd : Z) (pipe_full : bool) (p : proc) : write_result :=
  if decide (fd < 0) then WRITE_EBADF
  else
    match fds p !! Z.to_nat fd with
    | None => WRITE_EBADF
    | Some e =>
        match fd_file e with
        | PIPE _ READ_END => WRITE_EBADF
        | PIPE _ WRITE_END =>
            if pipe_full
            then (if fd_nonblock e then WRITE_EAGAIN else WRITE_BLOCKS)
            else WRITE_DONE
        | OTHER _ => WRITE_DONE
        end
    end.

(** A helper's action on a descriptor table, with the descriptor limit
    [limit]: a file is opened at the lowest free descriptor (not at all
    when the limit is reached), a descriptor is closed whatever it refers
    to. *)
Definition run_fd_op (limit : nat) (o : fd_op) (t : gmap nat fd_entry)
  : gmap nat fd_entry :=
  match o with
  | FD_OPEN what =>
      let fd := lowest_free t in
      if decide (fd < limit)%nat
      then <[fd := {| fd_file := OTHER what; fd_nonblock := false;
                      fd_cloexec := true |}]> t
      else t
  | FD_CLOSE fd => delete fd t
  end.

Definition run_fd_ops (limit : nat) (ops : list fd_op)
    (t : gmap nat fd_entry) : gmap nat fd_entry :=
  foldl (fun t o => run_fd_op limit o t) t ops.

(** ** lib/utils.c: open_pipe, close_std_fd *)

Definition open_pipe (pipe_arr : pipe_var) : M Z :=
  r ← pipe2 pipe_arr (Z.lor O_CLOEXEC O_NONBLOCK);
  if r =? -1 then mret (-1) else mret 0.

Definition close_std_fd : M unit :=
  close 0 ;; close 1 ;; close 2 ;; mret tt.

(** ** Logging, scheduler and signal registration

    [log_message] appends the format string to the log. *)
Definition log_message (fmt : string) : M unit :=
  modify (fun p => set_log (log p ++ [fmt]) p).

(** Modelled from the spec: scheduler.c is not among the files at hand.  Signals
    are converted to loop events and processed between handlers:
    [thread_add_event] and [thread_add_terminate_event] append an entry to
    the event queue of the master, which the loop takes up after the
    running thread has returned.  The master they are given is
    dereferenced. *)
Definition thread_add_event (f : thread_func) : M unit :=
  m ← get master;
  match m with
  | Some queue => modify (set_master (Some (queue ++ [THREAD_EVENT f])))
  | None => fault
  end.

Definition thread_add_terminate_event : M unit :=
  m ← get master;
  match m with
  | Some queue => modify (set_master (Some (queue ++ [THREAD_TERMINATE])))
  | None => fault
  end.

(** Modelled from the spec: [thread_add_child] of scheduler.c adds to the
    master, which it dereferences, a thread that waits for the child
    [pid]; it is no event of the queue. *)
Definition thread_add_child (f : thread_func) (pid : Z) : M unit :=
  m ← get master;
  match m with
  | Some _ =>
      modify (fun p =>
                set_child_threads
                  (child_threads p ++ [{| child_func := f; child_pid := pid |}])
                  p)
  | None => fault
  end.

(** Modelled from the spec: [thread_cleanup_master] of scheduler.c drops
    the events queued on the master, which it dereferences. *)
Definition thread_cleanup_master : M unit :=
  m ← get master;
  match m with
  | Some _ => modify (set_master (Some []))
  | None => fault
  end.

(** Modelled from the spec: signals.c is not among the files at hand.
    [signal_set] registers a handler for a signal, [signal_ignore] has the
    signal ignored; the registration of every other signal is kept. *)
Definition signal_set (sig : Z) (h : signal_handler) : M unit :=
  modify (fun p => set_signals (<[sig := SIG_HANDLER h]> (signals p)) p).

Definition signal_ignore (sig : Z) : M unit :=
  modify (fun p => set_signals (<[sig := SIG_IGNORE]> (signals p)) p).

Section Daemon.
Variable b : build_config.
Variable w : world.

(** A call of a helper. *)
Definition external (h : helper) : M unit :=
  modify (fun p =>
            set_log (log p ++ helper_log w h)
              (set_fds (run_fd_ops (nofile p) (helper_fds w h) (fds p)) p)).

(** ** lib/utils.c: log_stopping, set_process_name *)

Definition log_stopping : M unit :=
  if log_detail w
  then
    let child_usage := child_ru_utime w in
    if negb (fst child_usage =? 0) || negb (snd child_usage =? 0)
    then log_message
           ("Stopped - used (self/children) %" +:+ PRI_tv_sec w +:+ ".%6.6"
            +:+ PRI_tv_usec w +:+ "/%" +:+ PRI_tv_sec w +:+ ".%6.6"
            +:+ PRI_tv_usec w +:+ " user time," +:+ " %" +:+ PRI_tv_sec w
            +:+ ".%6.6" +:+ PRI_tv_usec w +:+ "/%" +:+ PRI_tv_sec w
            +:+ ".%6.6" +:+ PRI_tv_usec w +:+ " system time")
    else log_message
           ("Stopped - used %" +:+ PRI_tv_sec w +:+ ".%6.6"
            +:+ PRI_tv_usec w +:+ " user time, %" +:+ PRI_tv_sec w
            +:+ ".%6.6" +:+ PRI_tv_usec w +:+ " system time")
  else log_message "Stopped".

Definition set_process_name (name : option string) : M unit :=
  let name := default "keepalived" name in
  if negb (prctl_set_name w name =? 0)
  then log_message "Failed to set process name '%s'"
  else modify (set_comm (Some name)).

(** ** stop_bfd

    Nothing is done while the configuration is only tested.  Otherwise the
    pid file is removed, the data are freed (the pointers handed to
    [free_global_data] and [free_bfd_data] are cleared, the master is
    destroyed), the logs and the standard descriptors are closed and the
    process exits with [status]. *)
Definition stop_bfd (status : Z) : M unit :=
  if config_test w then mret tt
  else
    external PIDFILE_RM ;;
    modify (set_global_data None) ;;
    external BFD_DISPATCHER_RELEASE ;;
    modify (set_bfd_data None) ;;
    external THREAD_DESTROY_MASTER ;;
    modify (set_master None) ;;
    log_stopping ;;
    (if bool_decide (is_Some (log_file_name w)) then external CLOSE_LOG_FILE
     else mret tt) ;;
    external CLOSELOG ;;
    close_std_fd ;;
    exit status.

(** ** open_bfd_pipes *)
Definition open_bfd_pipes : M bool :=
  ok ← (if WITH_VRRP b
        then r ← open_pipe BFD_VRRP_EVENT_PIPE;
             if r =? -1
             then log_message "Unable to create BFD vrrp event pipe: %m" ;;
                  mret false
             else mret true
        else mret true);
  if negb (ok : bool) then mret false
  else
    ok ← (if WITH_LVS b
          then r ← open_pipe BFD_CHECKER_EVENT_PIPE;
               if r =? -1
               then log_message "Unable to create BFD checker event pipe: %m" ;;
                    mret false
               else mret true
          else mret true);
    if negb (ok : bool) then mret false else mret true.

(** ** start_bfd

    [global_data] is dereferenced where the code does so.  The seeding of
    the random generator and [alloc_bfd_buffer] do not act on the state
    modelled. *)
Definition deref_global_data : M data_t :=
  g ← get global_data;
  match g with
  | Some d => mret d
  | None => fault
  end.

(** [alloc_global_data]: a zeroed [data_t]. *)
Definition alloc_global_data : data_t :=
  {| reload_check_config := false; bfd_process_name := None;
     instance_name := None; network_namespace := None |}.

(** [init_data(conf_file, bfd_init_keywords, false)]: the BFD keywords
    fill [bfd_data]; the global keywords are active on a reload, when
    [global_data] has been allocated anew.  The parser is a helper: it
    opens and closes files and logs what it finds. *)
Definition init_data : M unit :=
  external INIT_DATA ;;
  modify (set_bfd_data (Some (conf_bfd w))) ;;
  rl ← get reload;
  if (rl : bool) then modify (set_global_data (Some (conf_global w)))
  else mret tt.

(** Whether the process name has to be set: at startup when one is
    configured, on a reload when it differs from the previous one. *)
Definition process_name_changed (g : data_t) (prev : option data_t) : bool :=
  match prev with
  | None => bool_decide (is_Some (bfd_process_name g))
  | Some pg =>
      match bfd_process_name g, bfd_process_name pg with
      | None, None => false
      | Some n, Some pn => negb (String.eqb n pn)
      | _, _ => true
      end
  end.

Definition start_bfd (prev_global_data : option data_t) : M unit :=
  rl ← get reload;
  (if (rl : bool) then modify (set_global_data (Some alloc_global_data))
   else mret tt) ;;
  if negb (alloc_bfd_data_ok w)
  then modify (set_bfd_data None) ;; stop_bfd KEEPALIVED_EXIT_FATAL
  else
    modify (set_bfd_data (Some {| bfd := [] |})) ;;
    init_data ;;
    (if (rl : bool)
     then g ← deref_global_data;
          modify (set_global_data (Some (init_global_data w g prev_global_data)))
     else mret tt) ;;
    g ← deref_global_data;
    (* update process name if necessary *)
    (if process_name_changed g prev_global_data
     then set_process_name (bfd_process_name g)
     else mret tt) ;;
    (* if we are just testing the configuration, then we terminate now *)
    if config_test w then mret tt
    else
      external BFD_COMPLETE_INIT ;;
      g ← deref_global_data;
      if reload_check_config g
         && negb (is_config_ok (conf_status w))
      then stop_bfd KEEPALIVED_EXIT_CONFIG
      else
        (* notify parent config has been read if appropriate *)
        (if negb (config_test w) then external NOTIFY_CONFIG_READ
         else mret tt) ;;
        (if dump_conf w
         then modify (fun p => set_log (log p ++ dump_bfd_data w (bfd_data p)) p)
         else mret tt) ;;
        thread_add_event BFD_DISPATCHER_INIT ;;
        (* set the process priority and non swappable if configured *)
        deref_global_data ;;
        (if (rl : bool) then external RESTORE_PRIORITY
         else external SET_PROCESS_PRIORITIES) ;;
        (* set the process cpu affinity if configured *)
        external SET_PROCESS_CPU_AFFINITY.

(** ** print_bfd_thread *)

(** Modelled from the spec: [bfd_print_data] of bfd_data.c is not among the
    files at hand; the interface section has SIGUSR1 dump the state to the
    log.  The lines are those [dump_bfd_data] writes for the live data. *)
Definition bfd_print_data : M unit :=
  modify (fun p => set_log (log p ++ dump_bfd_data w (bfd_data p)) p).

Definition print_bfd_thread : M unit := bfd_print_data.

(** ** Signal handlers *)

(** Reload handler. *)
Definition sigreload_bfd : M unit :=
  thread_add_event RELOAD_BFD_THREAD.

Definition sigdump_bfd : M unit :=
  log_message "Printing BFD data for process(%d) on signal" ;;
  thread_add_event PRINT_BFD_THREAD.

(** Terminate handler. *)
Definition sigend_bfd : M unit :=
  m ← get master;
  if bool_decide (is_Some (m : option (list thread_t)))
  then thread_add_terminate_event
  else mret tt.

(** BFD child signal handling. *)
Definition bfd_signal_init : M unit :=
  signal_set SIGHUP SIGRELOAD_BFD ;;
  (if ignore_sigint w then signal_ignore SIGINT
   else signal_set SIGINT SIGEND_BFD) ;;
  signal_set SIGTERM SIGEND_BFD ;;
  signal_set SIGUSR1 SIGDUMP_BFD ;;
  (if THREAD_DUMP b then signal_set (SIGTDUMP b) THREAD_DUMP_SIGNAL
   else mret tt) ;;
  signal_ignore SIGPIPE.

(** ** reload_bfd_thread *)
Definition reload_bfd_thread : M unit :=
  log_message "Reloading" ;;
  (* use standard scheduling while reloading *)
  external RESET_PRIORITY ;;
  external (SAVE_CONFIG false) ;;
  (* set the reloading flag *)
  modify (set_reload true) ;;
  (* destroy master thread *)
  external BFD_DISPATCHER_RELEASE ;;
  thread_cleanup_master ;;
  external THREAD_ADD_BASE_THREADS ;;
  modify (fun p => set_old_bfd_data (bfd_data p) p) ;;
  modify (set_bfd_data None) ;;
  modify (fun p => set_old_global_data (global_data p) p) ;;
  modify (set_global_data None) ;;
  external REINITIALISE_GLOBAL_VARS ;;
  (* reload the conf *)
  signal_set SIGCHLD THREAD_CHILD_HANDLER ;;
  old ← get old_global_data;
  start_bfd old ;;
  modify (set_old_bfd_data None) ;;
  modify (set_old_global_data None) ;;
  external (SAVE_CONFIG true) ;;
  modify (set_reload false) ;;
  log_message "Reload finished in %lu usec".

(** ** start_bfd_child

    [start_bfd_child_init] is the part of the child between [fork] and the
    start of the BFD daemon: descriptors inherited from the parent are
    closed, the logs are opened, the pid file is written, a new master is
    made and the signal handlers are set.  The parent is taken not to have
    changed since the fork (no SIGTERM is sent to the child itself).  The
    calls that only flush a stream, read or set a variable that is not
    modelled, or free memory ([flush_log_file], [getpid], [prctl] with
    PR_SET_PDEATHSIG, [initialise_debug_options], [make_syslog_ident],
    [free_parent_mallocs_startup], [set_child_finder_name],
    [systemd_unset_notify], [register_shutdown_function]) are left out. *)
Definition start_bfd_child_init : M unit :=
  external CLOSE_OTHER_PIDFILES ;;
  (* close the read end of the event notification pipes *)
  (if WITH_VRRP b
   then vp ← get bfd_vrrp_event_pipe;
        close (fst vp) ;;
        (if WITH_TRACK_PROCESS b then external CLOSE_TRACK_PROCESSES
         else mret tt)
   else mret tt) ;;
  (if WITH_LVS b
   then cp ← get bfd_checker_event_pipe;
        close (fst cp) ;; mret tt
   else mret tt) ;;
  (* the syslog ident: instance name and network namespace are read *)
  deref_global_data ;;
  (* opening local BFD syslog channel *)
  (if negb (no_syslog w) then external OPEN_SYSLOG else mret tt) ;;
  (if bool_decide (is_Some (log_file_name w))
   then deref_global_data ;; external OPEN_LOG_FILE
   else mret tt) ;;
  (* create an independent file descriptor for the shared config file *)
  external SEPARATE_CONFIG_FILE ;;
  (* child process part, write pidfile *)
  external PIDFILE_WRITE ;;
  if negb (pidfile_write_ok w)
  then log_message "BFD child process: cannot write pidfile" ;;
       exit 0
  else
    (* create the new master thread *)
    external THREAD_DESTROY_MASTER ;;
    external THREAD_MAKE_MASTER ;;
    modify (set_master (Some [])) ;;
    (* change to / dir *)
    (if chdir_root w <? 0
     then log_message "BFD child process: error chdir"
     else mret tt) ;;
    modify (set_reload false) ;;
    (* signal handling initialization *)
    bfd_signal_init.

Definition start_bfd_child : M Z :=
  let pid := fork_result w in
  if pid <? 0
  then log_message "BFD child process: fork error(%m)" ;; mret (-1)
  else if negb (pid =? 0)
  then
    modify (set_bfd_child pid) ;;
    modify (set_bfd_start_time (time_now w)) ;;
    log_message "Starting BFD child process, pid=%d" ;;
    (* start respawning thread *)
    thread_add_child BFD_RESPAWN_THREAD pid ;;
    mret 0
  else
    start_bfd_child_init ;;
    (* start BFD daemon *)
    start_bfd None ;;
    (* launch the scheduling I/O multiplexer *)
    launch_thread_scheduler w ;;
    (* finish BFD daemon process *)
    stop_bfd EXIT_SUCCESS ;;
    exit EXIT_SUCCESS.

(** The function behind a handler name; the other two handlers belong to
    the scheduler. *)
Definition signal_handler_func (h : signal_handler) : option (M unit) :=
  match h with
  | SIGRELOAD_BFD => Some sigreload_bfd
  | SIGEND_BFD => Some sigend_bfd
  | SIGDUMP_BFD => Some sigdump_bfd
  | THREAD_CHILD_HANDLER => None
  | THREAD_DUMP_SIGNAL => None
  end.

(** ** The loop of the scheduler

    Modelled from the spec: scheduler.c is not among the files at hand.  The
    daemon runs a single-threaded cooperative loop; all handlers run to
    completion; signals are converted to loop events and processed between
    handlers, in-flight handlers are not interrupted.

    A handler in flight is the list of the steps it has still to make.  The
    two thread functions of this file that run in the child are one step
    each.  A signal may arrive at any moment, also between two steps of
    the handler in flight: the function registered for it is then called.
    The loop makes the next step of the handler in flight; when there is
    none it takes up the first event of the queue, and it ends on the
    terminate event. *)
Definition thread_steps (f : thread_func) : list (M unit) :=
  match f with
  | RELOAD_BFD_THREAD => [reload_bfd_thread]
  | PRINT_BFD_THREAD => [print_bfd_thread]
  | BFD_DISPATCHER_INIT => other_thread w BFD_DISPATCHER_INIT
  | BFD_RESPAWN_THREAD => other_thread w BFD_RESPAWN_THREAD
  end.

Inductive loop :=
| RUNNING (p : proc) (in_flight : list (M unit))
| ENDED (p : proc)
| LEFT (o : outcome unit).

Definition run_in_loop (m : M unit) (p : proc) (in_flight : list (M unit))
  : loop :=
  match m p with
  | Returns _ p' => RUNNING p' in_flight
  | o => LEFT o
  end.

(** A signal for which nothing is registered here, or a handler of
    another file, keeps a disposition this model leaves open: the result is
    then undefined. *)
Definition signal_arrives (sig : Z) (l : loop) : option loop :=
  match l with
  | RUNNING p in_flight =>
      match signals p !! sig with
      | Some (SIG_HANDLER h) =>
          m ← signal_handler_func h; Some (run_in_loop m p in_flight)
      | Some SIG_IGNORE => Some l
      | None => None
      end
  | _ => Some l
  end.

Fixpoint signals_arrive (sigs : list Z) (l : loop) : option loop :=
  match sigs with
  | [] => Some l
  | sig :: sigs => l' ← signal_arrives sig l; signals_arrive sigs l'
  end.

Definition advance (l : loop) : loop :=
  match l with
  | RUNNING p (m :: in_flight) => run_in_loop m p in_flight
  | RUNNING p [] =>
      match master p with
      | Some (THREAD_EVENT f :: queue) =>
          RUNNING (set_master (Some queue) p) (thread_steps f)
      | Some (THREAD_TERMINATE :: queue) => ENDED (set_master (Some queue) p)
      | Some [] => l
      | None => LEFT (Faults p)
      end
  | _ => l
  end.

End Daemon.

(** ** Vocabulary of the properties *)

(** The globals and resources a thread of the daemon works on: everything
    but the event queue of the master and the log. *)
Definition daemon_state (p : proc) :=
  (bfd_data p, old_bfd_data p, global_data p, old_global_data p, reload p,
   (fds p, nofile p, next_pipe p),
   (bfd_vrrp_event_pipe p, bfd_checker_event_pipe p),
   signals p, comm p, (bfd_child p, bfd_start_time p, child_threads p)).

(** The live configuration of [before] is the one in effect after a
    thread has run with outcome [o]. *)
Definition live_configuration_persists (before : proc) (o : outcome unit)
  : Prop :=
  match o with
  | Returns _ after =>
      bfd_data after = bfd_data before
      /\ global_data after = global_data before
  | Exits _ _ => False
  | Faults _ => False
  end.

(** Whether the pipe behind an array is compiled in. *)
Definition pipe_enabled (b : build_config) (v : pipe_var) : bool :=
  match v with
  | BFD_VRRP_EVENT_PIPE => WITH_VRRP b
  | BFD_CHECKER_EVENT_PIPE => WITH_LVS b
  end.

(** The array [arr] holds the two ends of the pipe object [id], and no
    other descriptor of the process refers to the read end of [id]. *)
Definition event_pipe (p : proc) (arr : Z * Z) (id : nat) : Prop :=
  exists rfd wfd er ew,
    arr = (Z.of_nat rfd, Z.of_nat wfd)
    /\ fds p !! rfd = Some er /\ fd_file er = PIPE id READ_END
    /\ fds p !! wfd = Some ew /\ fd_file ew = PIPE id WRITE_END
    /\ (forall fd e, fds p !! fd = Some e ->
                     fd_file e = PIPE id READ_END -> fd = rfd).

(** No descriptor of the process refers to the read end of [id]. *)
Definition no_read_end (p : proc) (id : nat) : Prop :=
  forall fd e, fds p !! fd = Some e -> fd_file e <> PIPE id READ_END.

(** The write end of [id] is open at descriptor [fd]. *)
Definition holds_write_end (p : proc) (fd : Z) (id : nat) : Prop :=
  exists ew, 0 <= fd /\ fds p !! Z.to_nat fd = Some ew
             /\ fd_file ew = PIPE id WRITE_END.

(** The descriptors of a table that refer to pipe ends. *)
Definition is_pipe (e : fd_entry) : Prop :=
  match fd_file e with
  | PIPE _ _ => True
  | OTHER _ => False
  end.

#[global] Instance is_pipe_dec (e : fd_entry) : Decision (is_pipe e).
Proof. unfold is_pipe. destruct (fd_file e); apply _. Defined.

Definition pipe_fds (t : gmap nat fd_entry) : gmap nat fd_entry :=
  filter (fun kv => is_pipe kv.2) t.

Definition is_write_end (e : fd_entry) : bool :=
  match fd_file e with
  | PIPE _ WRITE_END => true
  | _ => false
  end.

(** The descriptors the helpers [hs] close in the world [w]. *)
Definition fd_closes (ops : list fd_op) : list nat :=
  omap (fun o => match o with
                 | FD_CLOSE fd => Some fd
                 | FD_OPEN _ => None
                 end) ops.

Definition helpers_close (w : world) (hs : list helper) : list nat :=
  hs ≫= (fun h => fd_closes (helper_fds w h)).

(** The helpers [start_bfd_child] calls in the child before it starts the
    BFD daemon, and those a reload calls. *)
Definition child_init_helpers : list helper :=
  [CLOSE_OTHER_PIDFILES; CLOSE_TRACK_PROCESSES; OPEN_SYSLOG; OPEN_LOG_FILE;
   SEPARATE_CONFIG_FILE; PIDFILE_WRITE; THREAD_DESTROY_MASTER;
   THREAD_MAKE_MASTER].

Definition reload_helpers : list helper :=
  [RESET_PRIORITY; SAVE_CONFIG false; BFD_DISPATCHER_RELEASE;
   THREAD_ADD_BASE_THREADS; REINITIALISE_GLOBAL_VARS; INIT_DATA;
   BFD_COMPLETE_INIT; NOTIFY_CONFIG_READ; RESTORE_PRIORITY;
   SET_PROCESS_CPU_AFFINITY; SAVE_CONFIG true].

(** None of the descriptors [closed] is in [p] the write end of a pipe;
    none of them is in [p] an end of a pipe. *)
Definition keeps_write_ends (closed : list nat) (p : proc) : Prop :=
  forall fd e, fd ∈ closed -> fds p !! fd = Some e -> is_write_end e = false.

Definition keeps_pipes (closed : list nat) (p : proc) : Prop :=
  forall fd e, fd ∈ closed -> fds p !! fd = Some e -> ~ is_pipe e.

(** From [p] to [p'] the actions [ops] have been run on the descriptor
    table; the descriptor limit, the two pipe arrays and [global_data] are
    as before. *)
Definition table_run (ops : list fd_op) (p p' : proc) : Prop :=
  fds p' = run_fd_ops (nofile p) ops (fds p)
  /\ nofile p' = nofile p
  /\ bfd_vrrp_event_pipe p' = bfd_vrrp_event_pipe p
  /\ bfd_checker_event_pipe p' = bfd_checker_event_pipe p
  /\ global_data p' = global_data p.

(** [m] run on [p] returns [a] in [p'], having acted as [table_run]
    says. *)
Definition acts {A} (m : M A) (p : proc) (a : A) (ops : list fd_op)
    (p' : proc) : Prop :=
  m p = Returns a p' /\ table_run ops p p'.

(** What [close(fd)] does to the descriptor table. *)
Definition close_ops (fd : Z) : list fd_op :=
  if decide (0 <= fd) then [FD_CLOSE (Z.to_nat fd)] else [].

(** The actions of [start_bfd_child_init] on the descriptor table of the
    child [p] that can write its pid file, in the order of the code. *)
Definition child_init_ops (b : build_config) (w : world) (p : proc)
  : list fd_op :=
  helper_fds w CLOSE_OTHER_PIDFILES
  ++ (if WITH_VRRP b
      then close_ops (fst (bfd_vrrp_event_pipe p))
           ++ (if WITH_TRACK_PROCESS b then helper_fds w CLOSE_TRACK_PROCESSES
               else [])
      else [])
  ++ (if WITH_LVS b then close_ops (fst (bfd_checker_event_pipe p)) else [])
  ++ (if negb (no_syslog w) then helper_fds w OPEN_SYSLOG else [])
  ++ (if bool_decide (is_Some (log_file_name w))
      then helper_fds w OPEN_LOG_FILE else [])
  ++ helper_fds w SEPARATE_CONFIG_FILE
  ++ helper_fds w PIDFILE_WRITE
  ++ helper_fds w THREAD_DESTROY_MASTER
  ++ helper_fds w THREAD_MAKE_MASTER.

(** The array [arr] holds a pipe both of whose ends are open with
    O_NONBLOCK and O_CLOEXEC; a write to it does not block, and fails with
    EAGAIN when the pipe is full. *)
Definition nonblocking_pipe (arr : pipe_var) (p : proc) : Prop :=
  exists rfd wfd er ew id,
    get_pipe arr p = (Z.of_nat rfd, Z.of_nat wfd)
    /\ fds p !! rfd = Some er /\ fds p !! wfd = Some ew
    /\ fd_file er = PIPE id READ_END /\ fd_file ew = PIPE id WRITE_END
    /\ fd_nonblock er = true /\ fd_cloexec er = true
    /\ fd_nonblock ew = true /\ fd_cloexec ew = true
    /\ (forall full, write (Z.of_nat wfd) full p <> WRITE_BLOCKS)
    /\ write (Z.of_nat wfd) true p = WRITE_EAGAIN.

(** Every pipe object behind a descriptor was created before the next
    one the kernel will create. *)
Definition pipe_ids_below (p : proc) : Prop :=
  forall fd e id pe,
    fds p !! fd = Some e -> fd_file e = PIPE id pe -> (id < next_pipe p)%nat.

(** What a successful [pipe2] on [arr] leaves: the descriptors there were
    are kept, the new ones belong to the new pipe object, the other array
    is untouched. *)
Definition pipe_added (arr : pipe_var) (p p' : proc) : Prop :=
  next_pipe p' = S (next_pipe p)
  /\ (forall fd e, fds p !! fd = Some e -> fds p' !! fd = Some e)
  /\ (forall fd e, fds p' !! fd = Some e ->
                   fds p !! fd = Some e
                   \/ exists pe, fd_file e = PIPE (next_pipe p) pe)
  /\ (forall arr', arr' <> arr -> get_pipe arr' p' = get_pipe arr' p).

(** In [p] the signal [sig] has a handler of this file, and that handler
    run on [p] appends [ev] to the event queue of the master and leaves
    the rest of the daemon as it is. *)
Definition signal_queues (p : proc) (sig : Z) (ev : thread_t) : Prop :=
  exists h m,
    signals p !! sig = Some (SIG_HANDLER h)
    /\ signal_handler_func h = Some m
    /\ forall q, master p = Some q ->
                 exists p', m p = Returns tt p'
                            /\ master p' = Some (q ++ [ev])
                            /\ daemon_state p' = daemon_state p.

(** The signals [bfd_signal_init] is documented to set up. *)
Definition bfd_signals : list Z := [SIGHUP; SIGINT; SIGTERM; SIGUSR1; SIGPIPE].

(** The registrations of [bfd_signal_init] are in place in [p]. *)
Definition bfd_handlers (w : world) (p : proc) : Prop :=
  signals p !! SIGHUP = Some (SIG_HANDLER SIGRELOAD_BFD)
  /\ signals p !! SIGINT
     = Some (if ignore_sigint w then SIG_IGNORE else SIG_HANDLER SIGEND_BFD)
  /\ signals p !! SIGTERM = Some (SIG_HANDLER SIGEND_BFD)
  /\ signals p !! SIGUSR1 = Some (SIG_HANDLER SIGDUMP_BFD)
  /\ signals p !! SIGPIPE = Some SIG_IGNORE.

(** The event a signal of [bfd_signals] stands for, and the line its
    handler logs. *)
Definition signal_event (w : world) (sig : Z) : list thread_t :=
  if sig =? SIGHUP then [THREAD_EVENT RELOAD_BFD_THREAD]
  else if sig =? SIGTERM then [THREAD_TERMINATE]
  else if sig =? SIGINT
  then (if ignore_sigint w then [] else [THREAD_TERMINATE])
  else if sig =? SIGUSR1 then [THREAD_EVENT PRINT_BFD_THREAD]
  else [].

Definition signal_log (sig : Z) : list string :=
  if sig =? SIGUSR1 then ["Printing BFD data for process(%d) on signal"]
  else [].

(** [bfd_signal_init] run on [p] returns, and has then changed the
    registration of no signal but the documented ones. *)
Definition only_documented_signals (b : build_config) (w : world) (p : proc)
  : Prop :=
  exists p',
    bfd_signal_init b w p = Returns tt p'
    /\ forall sig, sig ∉ bfd_signals -> signals p' !! sig = signals p !! sig.

(** A function does not come back to its caller from [p]. *)
Definition never_returns {A} (m : M A) (p : proc) : Prop :=
  forall a p', m p <> Returns a p'.

End Bfd.

(* ===================================================================== *)
(** * A concrete daemon                                                   *)
(* ===================================================================== *)

(** The parent before it opens the event pipes, and worlds in which the
    configuration read has an error. *)
Module Scenario.
Import Bfd.

Definition build : build_config :=
  {| WITH_VRRP := true; WITH_LVS := true; WITH_TRACK_PROCESS := false;
     THREAD_DUMP := false; SIGTDUMP := 34 |}.

(** A debug build, with the thread dump signal on a real-time signal. *)
Definition debug_build : build_config :=
  {| WITH_VRRP := true; WITH_LVS := true; WITH_TRACK_PROCESS := true;
     THREAD_DUMP := true; SIGTDUMP := 34 |}.

Definition tty : fd_entry :=
  {| fd_file := OTHER "tty"; fd_nonblock := false; fd_cloexec := false |}.

(** A descriptor of the master of the parent. *)
Definition of_master (what : string) : fd_entry :=
  {| fd_file := OTHER what; fd_nonblock := false; fd_cloexec := true |}.

Definition live_global : data_t :=
  {| reload_check_config := true; bfd_process_name := None;
     instance_name := None; network_namespace := None |}.

Definition live_bfd : bfd_data_t := {| bfd := ["peer1"] |}.

Definition parent : proc :=
  {| fds := <[0%nat := tty]> (<[1%nat := tty]> (<[2%nat := tty]>
              (<[3%nat := of_master "epoll"]>
                 (<[4%nat := of_master "timerfd"]>
                    (<[5%nat := of_master "signalfd"]> ∅)))));
     nofile := 1024; next_pipe := 0;
     bfd_vrrp_event_pipe := (-1, -1); bfd_checker_event_pipe := (-1, -1);
     bfd_start_time := (0, 0);
     bfd_data := Some live_bfd; old_bfd_data := None;
     global_data := Some live_global; old_global_data := None;
     reload := false; bfd_child := 0; master := Some [];
     child_threads := []; signals := ∅;
     comm := None; log := [] |}.

(** The parent once [open_bfd_pipes] has run. *)
Definition parent_with_pipes : proc :=
  match open_bfd_pipes build parent with
  | Returns _ p => p
  | Exits _ p => p
  | Faults p => p
  end.

(** [init_global_data] keeping the instance name and the namespace of the
    running daemon. *)
Definition keep_unchangeable (g : data_t) (prev : option data_t) : data_t :=
  match prev with
  | Some pg =>
      {| reload_check_config := reload_check_config g;
         bfd_process_name := bfd_process_name g;
         instance_name := instance_name pg;
         network_namespace := network_namespace pg |}
  | None => g
  end.

(** The helpers of a child that logs to a file.  The master of the parent
    is destroyed, with its three descriptors, and a new one is made; the
    parser reads the configuration through a descriptor of its own (11 in
    the child) and reports what it finds; the descriptors 6 and 8 are
    those the child has got for its syslog socket and its log file. *)
Definition helper_files (h : helper) : list fd_op :=
  match h with
  | OPEN_SYSLOG => [FD_OPEN "syslog"]
  | OPEN_LOG_FILE => [FD_OPEN "keepalived_bfd.log"]
  | PIDFILE_WRITE => [FD_OPEN "bfd.pid"]
  | THREAD_MAKE_MASTER => [FD_OPEN "epoll"; FD_OPEN "timerfd"; FD_OPEN "signalfd"]
  | THREAD_DESTROY_MASTER => [FD_CLOSE 3; FD_CLOSE 4; FD_CLOSE 5]
  | INIT_DATA => [FD_OPEN "keepalived.conf"; FD_CLOSE 11]
  | CLOSE_LOG_FILE => [FD_CLOSE 8]
  | CLOSELOG => [FD_CLOSE 6]
  | _ => []
  end.

Definition helper_lines (h : helper) : list string :=
  match h with
  | INIT_DATA => ["(keepalived.conf: Line 3) unknown keyword"]
  | _ => []
  end.

(** A child whose new configuration has an error; [check] is the
    [reload_check_config] of the configuration read, [pidfile] whether the
    pid file can be written. *)
Definition world_with (check pidfile : bool) : world :=
  {| ignore_sigint := false; config_test := false; dump_conf := false;
     log_detail := false; no_syslog := false;
     log_file_name := Some "/var/log/keepalived.log";
     PRI_tv_sec := "ld"; PRI_tv_usec := "ld";
     child_ru_utime := (0, 0); time_now := (1700000000, 0);
     dump_bfd_data :=
       fun d => match d with
                | Some d => "------< BFD Topology >------" :: bfd d
                | None => []
                end;
     fork_result := 0; alloc_bfd_data_ok := true;
     conf_global :=
       {| reload_check_config := check; bfd_process_name := None;
          instance_name := None; network_namespace := None |};
     conf_bfd := {| bfd := ["peer1"; "peer2"] |};
     conf_status := CONFIG_ERROR 1;
     init_global_data := keep_unchangeable;
     prctl_set_name := fun _ => 0;
     pidfile_write_ok := pidfile;
     chdir_root := 0;
     helper_fds := helper_files;
     helper_log := helper_lines;
     launch_thread_scheduler := fun p => Returns tt p;
     other_thread := fun _ => [] |}.

(** The child when [start_bfd_child] has set it up, before the BFD daemon
    is started; and that child in the middle of a handler that has two
    more steps to make. *)
Definition child : proc :=
  match start_bfd_child_init build (world_with false true)
          parent_with_pipes with
  | Returns _ p => p
  | Exits _ p => p
  | Faults p => p
  end.

Definition handler_step (line : string) : M unit := log_message line.

Definition busy_child : loop :=
  RUNNING (set_master (Some [THREAD_EVENT BFD_DISPATCHER_INIT]) child)
    [handler_step "packet decoded"; handler_step "session up"].

End Scenario.

(* ===================================================================== *)
(** * lib/utils.c, lib/utils.h: checksums, addresses, strings             *)
(* ===================================================================== *)

Module UtilsExt.
Import Utils.

(** ** csum_incremental_update16, csum_incremental_update32 (utils.h)

    [old_csum] is promoted to [int] before it is complemented; the
    accumulator [acc] is a [uint32_t]. *)
Definition csum_incremental_update16 (old_csum old_val new_val : Z) : Z :=
  if decide (old_val = new_val) then old_csum
  else
    let acc := to_uint32 (Z.land (Z.lnot old_csum) 0xffff
                          + Z.land (Z.lnot old_val) 0xffff) in
    let acc := to_uint32 (acc + new_val) in
    let acc := to_uint32 (Z.land acc 0xffff + Z.shiftr acc 16) in
    let acc := to_uint32 (acc + Z.shiftr acc 16) in
    to_uint16 (Z.land (to_uint32 (Z.lnot acc)) 0xffff).

Definition csum_incremental_update32 (old_csum old_val new_val : Z) : Z :=
  if decide (old_val = new_val) then old_csum
  else
    let acc := to_uint32 (Z.land (Z.lnot old_csum) 0xffff
                          + Z.land (to_uint32 (Z.lnot (Z.shiftr old_val 16)))
                              0xffff
                          + Z.land (to_uint32 (Z.lnot old_val)) 0xffff) in
    let acc := to_uint32 (acc + to_uint32 (Z.shiftr new_val 16
                                           + Z.land new_val 0xffff)) in
    let acc := to_uint32 (Z.land acc 0xffff + Z.shiftr acc 16) in
    let acc := to_uint32 (acc + Z.shiftr acc 16) in
    to_uint16 (Z.land (to_uint32 (Z.lnot acc)) 0xffff).

(** The byte whose value is [z] modulo 256. *)
Definition byte_of_Z (z : Z) : byte :=
  match Byte.of_N (Z.to_N (z mod 256)) with
  | Some b => b
  | None => x00
  end.

(** The object representation of a [uint16_t] and of a [uint32_t] on the
    host: what an assignment through a pointer to one leaves in memory. *)
Definition uint16_object (big_endian : bool) (v : Z) : list byte :=
  if big_endian then [byte_of_Z (v / 256); byte_of_Z v]
  else [byte_of_Z v; byte_of_Z (v / 256)].

Definition uint32_object (big_endian : bool) (v : Z) : list byte :=
  if big_endian
  then [byte_of_Z (v / 2 ^ 24); byte_of_Z (v / 2 ^ 16);
        byte_of_Z (v / 2 ^ 8); byte_of_Z v]
  else [byte_of_Z v; byte_of_Z (v / 2 ^ 8);
        byte_of_Z (v / 2 ^ 16); byte_of_Z (v / 2 ^ 24)].

(** The value of a [uint32_t] whose object representation is [b0 b1 b2 b3]. *)
Definition uint32_of_bytes (big_endian : bool) (b0 b1 b2 b3 : byte) : Z :=
  if big_endian
  then byte_val b0 * 2 ^ 24 + byte_val b1 * 2 ^ 16 + byte_val b2 * 2 ^ 8
       + byte_val b3
  else byte_val b0 + byte_val b1 * 2 ^ 8 + byte_val b2 * 2 ^ 16
       + byte_val b3 * 2 ^ 24.

(** [in_csum] as compiled: [USE_MEMCPY_FOR_ALIASING] selects the variant. *)
Definition in_csum (use_memcpy big_endian : bool) (mem : list byte)
    (len : nat) (csum : Z) (acc : bool) : option (Z * option Z) :=
  if use_memcpy then in_csum_memcpy big_endian mem len csum acc
  else in_csum_alias big_endian mem len csum acc.

(** The accumulator of [in_csum] after the words, and the odd last byte,
    of [l] were added to [sum]; and the fold of an accumulator to the
    16-bit answer.  Both are the expressions of [in_csum], named for the
    statements about it. *)
Fixpoint fold_words (big_endian : bool) (l : list byte) (sum : Z) : Z :=
  match l with
  | b0 :: b1 :: l' =>
      fold_words big_endian l'
        (to_uint32 (sum + uint16_of_bytes big_endian b0 b1))
  | [b] => to_uint32 (sum + htons big_endian (Z.shiftl (byte_val b) 8))
  | [] => sum
  end.

Definition csum_fold (sum : Z) : Z :=
  let sum := to_uint32 (Z.shiftr sum 16 + Z.land sum 0xffff) in
  let sum := to_uint32 (sum + Z.shiftr sum 16) in
  to_uint16 (Z.land (to_uint32 (Z.lnot sum)) 0xffff).

(** The sum of the 16-bit words of [l] as an integer, an odd last byte
    padded with a zero byte. *)
Fixpoint words_sum (big_endian : bool) (l : list byte) : Z :=
  match l with
  | b0 :: b1 :: l' => uint16_of_bytes big_endian b0 b1 + words_sum big_endian l'
  | [b] => uint16_of_bytes big_endian b x00
  | [] => 0
  end.

(** ** string_equal

    [strcmp] compares the two strings as unsigned bytes up to the first
    difference or the NUL they share; a pointer is [None] when NULL. *)
Fixpoint strcmp (s1 s2 : list byte) : option Z :=
  match s1, s2 with
  | c1 :: s1', c2 :: s2' =>
      if negb (Byte.eqb c1 c2) then Some (byte_val c1 - byte_val c2)
      else if Byte.eqb c1 x00 then Some 0
      else strcmp s1' s2'
  | _, _ => None
  end.

Definition string_equal (str1 str2 : option (list byte)) : option bool :=
  match str1, str2 with
  | None, None => Some true
  | Some s1, Some s2 => r ← strcmp s1 s2; Some (r =? 0)
  | _, _ => Some false
  end.

(** ** integer_to_string

    [s] is [size] converted to [int]; division and remainder of [int]
    truncate towards zero.  The first loop divides [i] by ten until it is
    zero, so a fuel of one more than the binary logarithm of the value
    lets it finish; the inner [None] is the early [return -1]. *)
Definition to_int (z : Z) : Z := (z + 2 ^ 31) mod 2 ^ 32 - 2 ^ 31.

Fixpoint integer_to_string_len (fuel : nat) (i len s : Z)
  : option (option Z) :=
  if i =? 0 then Some (Some len)
  else
    match fuel with
    | O => None
    | S fuel' =>
        let len := len + 1 in
        if len >? s then Some None
        else integer_to_string_len fuel' (Z.quot i 10) len s
    end.

Fixpoint integer_to_string_fill (n : nat) (i len t : Z) (str : list byte)
  : option (list byte) :=
  match n with
  | O => Some str
  | S n' =>
      str ← store str (len - (i + 1)) (byte_of_Z (Z.rem t 10 + 48));
      integer_to_string_fill n' (i + 1) len (Z.quot t 10) str
  end.

Definition integer_to_string (value : Z) (str : list byte) (size : Z)
  : option (Z * list byte) :=
  let s := to_int size in
  r ← integer_to_string_len (S (Z.to_nat (Z.log2 (Z.abs value)))) value 0 s;
  match r with
  | None => Some (-1, str)
  | Some len =>
      str ← integer_to_string_fill (Z.to_nat len) 0 len value str;
      Some (len, str)
  end.

(** The number a string of decimal digits denotes, and the digit
    characters. *)
Definition decimal_value (ds : list byte) : Z :=
  fold_left (fun a c => a * 10 + (byte_val c - 48)) ds 0.

Definition is_digit (c : byte) : Prop := 48 <= byte_val c <= 57.

(** The last [n] decimal digits of [t], most significant first: what the
    second loop of [integer_to_string] writes. *)
Fixpoint digits_of (n : nat) (t : Z) : list byte :=
  match n with
  | O => []
  | S n' => digits_of n' (Z.quot t 10) ++ [byte_of_Z (Z.rem t 10 + 48)]
  end.

(** ** Address comparison: __ip6_addr_equal, inaddr_equal (utils.h),
    inet_inaddrcmp

    An address is the object the pointer refers to; [s6_addr32[i]] and
    [s_addr] are [uint32_t] reads in the byte order of the host. *)
Definition AF_UNSPEC : Z := 0.
Definition AF_INET : Z := 2.
Definition AF_INET6 : Z := 10.

Definition uint32_at (big_endian : bool) (a : list byte) (i : nat)
  : option Z :=
  match a !! (4 * i)%nat, a !! (4 * i + 1)%nat,
        a !! (4 * i + 2)%nat, a !! (4 * i + 3)%nat with
  | Some b0, Some b1, Some b2, Some b3 =>
      Some (uint32_of_bytes big_endian b0 b1 b2 b3)
  | _, _, _, _ => None
  end.

Definition __ip6_addr_equal (big_endian : bool) (a1 a2 : list byte)
  : option Z :=
  x0 ← uint32_at big_endian a1 0; y0 ← uint32_at big_endian a2 0;
  x1 ← uint32_at big_endian a1 1; y1 ← uint32_at big_endian a2 1;
  x2 ← uint32_at big_endian a1 2; y2 ← uint32_at big_endian a2 2;
  x3 ← uint32_at big_endian a1 3; y3 ← uint32_at big_endian a2 3;
  Some (if Z.lor (Z.lor (Z.lor (Z.lxor x0 y0) (Z.lxor x1 y1))
                    (Z.lxor x2 y2)) (Z.lxor x3 y3) =? 0
        then 1 else 0).

(** [sa_family_t] is an [unsigned short]: the family a caller passes is
    converted to it. *)
Definition to_sa_family_t (family : Z) : Z := to_uint16 family.

Definition inaddr_equal (big_endian : bool) (family : Z)
    (addr1 addr2 : list byte) : option bool :=
  let family := to_sa_family_t family in
  if decide (family = AF_INET6)
  then r ← __ip6_addr_equal big_endian addr1 addr2; Some (negb (r =? 0))
  else if decide (family = AF_INET)
  then x ← uint32_at big_endian addr1 0; y ← uint32_at big_endian addr2 0;
       Some (x =? y)
  else Some false.

(** [ntohl]: the bytes of the argument are reversed on a little-endian
    host. *)
Definition ntohl (big_endian : bool) (x : Z) : Z :=
  if big_endian then x
  else (x mod 2 ^ 8) * 2 ^ 24 + (x / 2 ^ 8 mod 2 ^ 8) * 2 ^ 16
       + (x / 2 ^ 16 mod 2 ^ 8) * 2 ^ 8 + x / 2 ^ 24 mod 2 ^ 8.

(** The loop of [inet_inaddrcmp] over the four words of an IPv6 address,
    from word [i]; the result is [addr_diff] when the loop is left. *)
Fixpoint inet_inaddrcmp_loop (big_endian : bool) (n i : nat)
    (a b : list byte) (addr_diff : Z) : option Z :=
  match n with
  | O => Some addr_diff
  | S n' =>
      x ← uint32_at big_endian a i; y ← uint32_at big_endian b i;
      let addr_diff := ntohl big_endian x - ntohl big_endian y in
      if negb (addr_diff =? 0) then Some addr_diff
      else inet_inaddrcmp_loop big_endian n' (S i) a b addr_diff
  end.

Definition inet_inaddrcmp (big_endian : bool) (family : Z) (a b : list byte)
  : option Z :=
  addr_diff ←
    (if decide (family = AF_INET)
     then x ← uint32_at big_endian a 0; y ← uint32_at big_endian b 0;
          Some (Some (ntohl big_endian x - ntohl big_endian y))
     else if decide (family = AF_INET6)
     then Some <$> inet_inaddrcmp_loop big_endian 4 0 a b 0
     else Some None);
  match addr_diff with
  | None => Some (-2)
  | Some addr_diff =>
      if addr_diff >? 0 then Some 1
      else if addr_diff <? 0 then Some (-1)
      else Some 0
  end.

(** The bytes of an address read as one number, first byte most
    significant: the address in network order. *)
Definition network_value (l : list byte) : Z :=
  fold_left (fun a c => a * 256 + byte_val c) l 0.

(** The size of an address of a family: [sizeof(struct in_addr)] and
    [sizeof(struct in6_addr)]. *)
Definition addr_size (family : Z) : nat :=
  if decide (family = AF_INET) then 4 else 16.

(** ** sockstorage_equal (utils.h), inet_sockaddrcmp, inet_sockaddrport

    A [sockaddr_t] as the functions read it: the family, and the port and
    the address the storage holds when it is read as a [sockaddr_in] and as
    a [sockaddr_in6].  The ports are [uint16_t] values as stored. *)
Record sockaddr_t := {
  ss_family : Z;
  sin_port : Z;
  sin_addr : list byte;
  sin6_port : Z;
  sin6_addr : list byte
}.

Definition sockstorage_equal (big_endian : bool) (s1 s2 : sockaddr_t)
  : option bool :=
  if decide (ss_family s1 <> ss_family s2) then Some false
  else if decide (ss_family s1 = AF_INET6)
  then r ← __ip6_addr_equal big_endian (sin6_addr s1) (sin6_addr s2);
       if negb (r =? 0) && (sin6_port s1 =? sin6_port s2) then Some true
       else Some false
  else if decide (ss_family s1 = AF_INET)
  then x ← uint32_at big_endian (sin_addr s1) 0;
       y ← uint32_at big_endian (sin_addr s2) 0;
       if (x =? y) && (sin_port s1 =? sin_port s2) then Some true
       else Some false
  else if decide (ss_family s1 = AF_UNSPEC) then Some true
  else Some false.

Definition inet_sockaddrport (addr : sockaddr_t) : Z :=
  if decide (ss_family addr = AF_INET6) then sin6_port addr
  else sin_port addr.

Definition inet_sockaddrcmp (big_endian : bool) (a b : sockaddr_t)
  : option Z :=
  if decide (ss_family a <> ss_family b) then Some (-2)
  else if decide (ss_family a = AF_INET)
  then inet_inaddrcmp big_endian (ss_family a) (sin_addr a) (sin_addr b)
  else if decide (ss_family a = AF_INET6)
  then inet_inaddrcmp big_endian (ss_family a) (sin6_addr a) (sin6_addr b)
  else Some 0.

(** The storage holds an IPv4 address of 4 and an IPv6 address of 16
    bytes. *)
Definition sockaddr_sized (s : sockaddr_t) : Prop :=
  length (sin_addr s) = 4%nat /\ length (sin6_addr s) = 16%nat.

(** ** get_open_fds

    The names [readdir] yields for /proc/self/fd are an input, each the
    object [d_name]; so is the answer of [fstat].  [isdigit] and [strtoul]
    are those of the C library on a name that starts with a digit: the
    number its leading digits denote, [ULONG_MAX] when that is too large.
    [fds] is the array of 64-bit words the caller passes, [max_fd] an
    [unsigned]. *)
Definition isdigit (c : byte) : bool :=
  (48 <=? byte_val c) && (byte_val c <=? 57).

Definition ULONG_MAX : Z := 2 ^ 64 - 1.

Fixpoint strtoul_digits (s : list byte) (acc : Z) : Z :=
  match s with
  | c :: s' =>
      if isdigit c then strtoul_digits s' (acc * 10 + (byte_val c - 48))
      else acc
  | [] => acc
  end.

Definition strtoul (s : list byte) : Z :=
  Z.min (strtoul_digits s 0) ULONG_MAX.

Section GetOpenFds.
(** [fstat(fd_num, &stbuf) || S_ISDIR(stbuf.st_mode)] *)
Variable fstat_fails_or_dir : Z -> bool.

Fixpoint get_open_fds_loop (ents : list (list byte)) (fds : list Z)
    (max_fd : Z) : option (list Z * Z) :=
  match ents with
  | [] => Some (fds, max_fd)
  | d_name :: ents' =>
      c ← head d_name;
      if negb (isdigit c) then get_open_fds_loop ents' fds max_fd
      else
        let fd_num := strtoul d_name in
        if fstat_fails_or_dir fd_num then get_open_fds_loop ents' fds max_fd
        else
          word ← fds !! Z.to_nat (fd_num / 64);
          let fds := <[Z.to_nat (fd_num / 64) :=
                         Z.lor word (Z.shiftl 1 (fd_num mod 64))]> fds in
          get_open_fds_loop ents' fds
            (if fd_num >? max_fd then to_uint32 fd_num else max_fd)
  end.

Definition get_open_fds (ents : list (list byte)) (fds : list Z)
    (num_ent : nat) : option (list Z * Z) :=
  if decide (num_ent <= length fds)%nat
  then get_open_fds_loop ents (replicate num_ent 0 ++ drop num_ent fds) 0
  else None.

(** The descriptors the loop records: the numeric names that [fstat]
    accepts and that are not directories. *)
Definition recorded_fds (ents : list (list byte)) : list Z :=
  omap (fun d_name =>
          c ← head d_name;
          if isdigit c && negb (fstat_fails_or_dir (strtoul d_name))
          then Some (strtoul d_name) else None) ents.
End GetOpenFds.

(** ** format_mac_buf

    [snprintf(buf + op, size, ...)] for the text [out] the format
    produces: nothing is written when [size] is 0; otherwise the first
    [size - 1] characters of [out] at most, and a NUL after them; the
    length of [out] is returned. *)
Definition snprintf (buf : list byte) (op size : Z) (out : list byte)
  : option (list byte * Z) :=
  if size =? 0 then Some (buf, Z.of_nat (length out))
  else
    let n := Z.min (Z.of_nat (length out)) (size - 1) in
    if decide (0 <= op /\ op + n + 1 <= Z.of_nat (length buf))
    then Some (take (Z.to_nat op) buf ++ take (Z.to_nat n) out ++ [x00]
               ++ drop (Z.to_nat (op + n + 1)) buf,
               Z.of_nat (length out))
    else None.

(** The conversion [%.2x] of an [unsigned char]. *)
Definition hex_digit (d : Z) : byte :=
  byte_of_Z (if d <? 10 then 48 + d else 87 + d).

Definition hex2 (c : byte) : list byte :=
  [hex_digit (byte_val c / 16); hex_digit (byte_val c mod 16)].

(** The loop of [format_mac_buf]: [n] iterations are left, [op] and
    [buf_end] are offsets into the object [buf]. *)
Fixpoint format_mac_buf_loop (n : nat) (i : Z) (addr : list byte)
    (addr_len : Z) (buf : list byte) (op buf_end : Z) : option (list byte) :=
  match n with
  | O => Some buf
  | S n' =>
      c ← addr !! Z.to_nat i;
      '(buf, r) ← snprintf buf op (to_size_t (buf_end - op))
                    (hex2 c ++ (if i <? to_size_t (addr_len - 1)
                                then [":"%byte] else []));
      let op := op + r in
      if op >=? buf_end - 1 then Some buf
      else format_mac_buf_loop n' (i + 1) addr addr_len buf op buf_end
  end.

Definition format_mac_buf (op : list byte) (op_len : Z) (addr : list byte)
    (addr_len : Z) : option (list byte) :=
  if (addr_len =? 0) && negb (op_len =? 0) then store op 0 x00
  else format_mac_buf_loop (Z.to_nat addr_len) 0 addr addr_len op 0 op_len.

(** A hardware address as text: two hexadecimal digits a byte, colons
    between the bytes. *)
Fixpoint mac_string (addr : list byte) : list byte :=
  match addr with
  | [] => []
  | c :: addr' =>
      hex2 c ++ match addr' with
                | [] => []
                | _ :: _ => ":"%byte :: mac_string addr'
                end
  end.

(** ** make_file_name

    [strrchr(s, c)]: the offset of the last [c] in the string at [s], the
    terminating NUL counting as part of the string; the inner [None] is
    NULL. *)
Fixpoint strrchr_from (s : list byte) (c : byte) (off : nat)
    (last : option nat) : option (option nat) :=
  match s with
  | [] => None
  | x :: s' =>
      let last := if Byte.eqb x c then Some off else last in
      if Byte.eqb x x00 then Some last
      else strrchr_from s' c (S off) last
  end.

Definition strrchr (s : list byte) (c : byte) : option (option nat) :=
  strrchr_from s c 0 None.

(** [strcat(dst, src)] and [strncat(dst, src, n)]: the latter appends the
    bytes of [src] before its first NUL, [n] of them at most, and a NUL. *)
Definition strcat (dst src : list byte) : option (list byte) :=
  d ← strlen dst; strcpy dst (Z.of_nat d) src.

Definition strncat (dst src : list byte) (n : Z) : option (list byte) :=
  d ← strlen dst;
  copied ← match strlen (take (Z.to_nat n) src) with
           | Some m => Some (take m src)
           | None => if decide (n <= Z.of_nat (length src))
                     then Some (take (Z.to_nat n) src) else None
           end;
  if decide (d + length copied + 1 <= length dst)%nat
  then Some (take d dst ++ copied ++ [x00]
             ++ drop (d + length copied + 1) dst)
  else None.

(** [len += strlen(s) + 1] when [s] is not NULL. *)
Definition add_part_len (len : Z) (s : option (list byte)) : option Z :=
  match s with
  | Some s => n ← strlen s; Some (to_size_t (len + to_size_t (Z.of_nat n + 1)))
  | None => Some len
  end.

(** [strcat(file_name, "_"); strcat(file_name, s)] when [s] is not NULL. *)
Definition append_part (file_name : list byte) (s : option (list byte))
  : option (list byte) :=
  match s with
  | Some s => file_name ← strcat file_name (c_str "_"); strcat file_name s
  | None => Some file_name
  end.

(** [dir_end = strrchr(name, '/')] and
    [extn_start = strrchr(dir_end ? dir_end : name, '.')], the latter as an
    offset into [name]. *)
Definition extension_start (name : list byte) : option (option nat) :=
  match strrchr name "/"%byte with
  | None => None
  | Some (Some d) =>
      match strrchr (drop d name) "."%byte with
      | None => None
      | Some extn => Some (option_map (Nat.add d) extn)
      end
  | Some None => strrchr name "."%byte
  end.

(** [make_file_name], reading the global [tmp_dir]; the inner [None] is
    the NULL returned for a NULL [name]. *)
Definition make_file_name (tmp_dir : list byte)
    (name prog namespace instance : option (list byte))
  : option (option (list byte)) :=
  match name with
  | None => Some None
  | Some name =>
      c0 ← name !! 0%nat;
      let relative := negb (Byte.eqb c0 "/"%byte) in
      len ← (if relative
             then n ← strlen tmp_dir; Some (to_size_t (Z.of_nat n + 1))
             else Some 0);
      n ← strlen name;
      let len := to_size_t (len + Z.of_nat n) in
      len ← add_part_len len prog;
      len ← add_part_len len namespace;
      len ← add_part_len len instance;
      let file_name := MALLOC (to_size_t (len + 1)) in
      extn_start ← extension_start name;
      file_name ←
        (if relative
         then file_name ← strcpy file_name 0 tmp_dir;
              strcat file_name (c_str "/")
         else store file_name 0 x00);
      file_name ←
        strncat file_name name
          (match extn_start with Some e => Z.of_nat e | None => len end);
      file_name ← append_part file_name prog;
      file_name ← append_part file_name namespace;
      file_name ← append_part file_name instance;
      file_name ←
        match extn_start with
        | Some e => strcat file_name (drop e name)
        | None => Some file_name
        end;
      Some (Some file_name)
  end.

(** ["_" ++ s] for a part that is given. *)
Definition part (s : option (list byte)) : list byte :=
  match s with
  | Some s => "_"%byte :: s
  | None => []
  end.

(** [ext] is the extension of the file name [stem ++ ext]: empty when the
    last component of the name has no dot, and otherwise what starts at the
    last dot of the last component. *)
Definition is_extension (stem ext : list byte) : Prop :=
("/"%byte ∉ ext)
  /\ match ext with
     | [] => forall dir base, stem = dir ++ base -> "/"%byte ∉ base ->
                              "."%byte ∉ base
     | c :: ext' => c = "."%byte /\ "."%byte ∉ ext'
     end.

(** A part that is NULL or a string without an embedded NUL, and the
    object that holds a string. *)
Definition no_nul (s : option (list byte)) : Prop :=
  match s with
  | Some s => x00 ∉ s
  | None => True
  end.

Definition c_object (s : list byte) : list byte := s ++ [x00].

(** The directory a name is put in: none for an absolute name. *)
Definition directory_prefix (tmp_dir name : list byte) : list byte :=
  match name with
  | c :: _ => if Byte.eqb c "/"%byte then [] else tmp_dir ++ ["/"%byte]
  | [] => tmp_dir ++ ["/"%byte]
  end.

(** The bit of descriptor [fd] in the array of words. *)
Definition fd_bit (fds : list Z) (fd : Z) : bool :=
  match fds !! Z.to_nat (fd / 64) with
  | Some word => Z.testbit word (fd mod 64)
  | None => false
  end.

End UtilsExt.

(* ===================================================================== *)
(** * lib/utils.c: set_std_fd; bfd_daemon.c: bfd_validate_config          *)
(* ===================================================================== *)

Module BfdExt.
Import Bfd.

(** ** Kernel: open, dup2

    [open(path, O_RDWR)]: the lowest free descriptor, or -1 when the file
    cannot be opened or the descriptor limit is reached.  [O_CLOEXEC] is
    not asked for. *)
Definition open (path : string) (openable : bool) : M Z :=
  fun p =>
    let fd := lowest_free (fds p) in
    if openable && bool_decide (fd < nofile p)%nat
    then Returns (Z.of_nat fd)
           (set_fds (<[fd := {| fd_file := OTHER path; fd_nonblock := false;
                                fd_cloexec := false |}]> (fds p)) p)
    else Returns (-1) p.

(** [dup2(oldfd, newfd)]: -1 (EBADF) when [oldfd] is not open or [newfd]
    is out of range; nothing is done when the two are equal; otherwise
    [newfd], closed if it was open, refers to the file of [oldfd], with the
    same status flags and without [FD_CLOEXEC]. *)
Definition dup2 (oldfd newfd : Z) : M Z :=
  fun p =>
    if decide (0 <= oldfd)
    then
      match fds p !! Z.to_nat oldfd with
      | Some e =>
          if decide (0 <= newfd < Z.of_nat (nofile p))
          then
            if decide (oldfd = newfd) then Returns newfd p
            else Returns newfd
                   (set_fds (<[Z.to_nat newfd :=
                                 {| fd_file := fd_file e;
                                    fd_nonblock := fd_nonblock e;
                                    fd_cloexec := false |}]> (fds p)) p)
          else Returns (-1) p
      | None => Returns (-1) p
      end
    else Returns (-1) p.

Definition STDIN_FILENO : Z := 0.
Definition STDOUT_FILENO : Z := 1.
Definition STDERR_FILENO : Z := 2.

(** ** set_std_fd

    [dont_fork] is [DONT_FORK_BIT] of [debug]; [openable] is whether
    /dev/null can be opened. *)
Definition set_std_fd (force dont_fork openable : bool) : M unit :=
  if force || dont_fork
  then
    fd ← open "/dev/null" openable;
    if negb (fd =? -1)
    then
      dup2 fd STDIN_FILENO ;;
      dup2 fd STDOUT_FILENO ;;
      dup2 fd STDERR_FILENO ;;
      if fd >? STDERR_FILENO then close fd ;; mret tt else mret tt
    else mret tt
  else mret tt.

(** What a standard descriptor refers to after [set_std_fd]. *)
Definition dev_null : fd_entry :=
  {| fd_file := OTHER "/dev/null"; fd_nonblock := false;
     fd_cloexec := false |}.

(** ** bfd_validate_config *)
Definition bfd_validate_config (w : world) : M unit := start_bfd w None.

(** The daemon started with [--config-test] on a configuration with an
    error, under a kernel that refuses to rename the process. *)
Definition config_test_world : world :=
  let w := Scenario.world_with true true in
  {| ignore_sigint := ignore_sigint w; config_test := true;
     dump_conf := dump_conf w; log_detail := log_detail w;
     no_syslog := no_syslog w; log_file_name := log_file_name w;
     PRI_tv_sec := PRI_tv_sec w; PRI_tv_usec := PRI_tv_usec w;
     child_ru_utime := child_ru_utime w; time_now := time_now w;
     dump_bfd_data := dump_bfd_data w;
     fork_result := fork_result w; alloc_bfd_data_ok := alloc_bfd_data_ok w;
     conf_global := conf_global w; conf_bfd := conf_bfd w;
     conf_status := conf_status w; init_global_data := init_global_data w;
     prctl_set_name := fun _ => -1;
     pidfile_write_ok := pidfile_write_ok w; chdir_root := chdir_root w;
     helper_fds := helper_fds w; helper_log := helper_log w;
     launch_thread_scheduler := launch_thread_scheduler w;
     other_thread := other_thread w |}.

(** The parent with a name configured for the BFD process. *)
Definition named_global : data_t :=
  {| reload_check_config := true; bfd_process_name := Some "bfd_main";
     instance_name := None; network_namespace := None |}.

Definition named_parent : proc :=
  set_global_data (Some named_global) Scenario.parent.

End BfdExt.

(* ===================================================================== *)
(** * Properties of lib/utils                                             *)
(* ===================================================================== *)

Module UtilsFacts.
Import Utils.

(** ** The functions on small inputs *)

Example memcmp_constant_time_differs :
  memcmp_constant_time [x01; x02] [x01; x03] 2 = Some 1.
Proof. reflexivity. Qed.

Example memcmp_constant_time_prefix :
  memcmp_constant_time [x01; x02] [x01; x03] 1 = Some 0.
Proof. reflexivity. Qed.

Example strcpy_safe_impl_truncates :
  strcpy_safe_impl [x11; x11; x11; x11; x11] (c_str "abcdef") 4
  = Some ["a"%byte; "b"%byte; "c"%byte; x00; x11].
Proof. reflexivity. Qed.

Example strcpy_safe_impl_fits :
  strcpy_safe_impl [x11; x11; x11; x11; x11] (c_str "ab") 4
  = Some ["a"%byte; "b"%byte; x00; x00; x11].
Proof. reflexivity. Qed.

(** A capacity of 0 makes [len - 1] wrap around: the model has no result. *)
Example strcpy_safe_impl_no_capacity :
  strcpy_safe_impl [x11; x11; x11; x11; x11] (c_str "ab") 0 = None.
Proof. reflexivity. Qed.

Example set_tmp_dir_absolute :
  set_tmp_dir "/tmp" (<["TMPDIR"%string := "/run"%string]> ∅) = "/run"%string.
Proof. reflexivity. Qed.

Example set_tmp_dir_relative :
  set_tmp_dir "/tmp" (<["TMPDIR"%string := "run"%string]> ∅) = "/tmp"%string.
Proof. reflexivity. Qed.

Example make_tmp_filename_tmp :
  string_of_list_byte <$> make_tmp_filename "/tmp" "bfd.data"
  = Some (String.append "/tmp/bfd.data" (String "000" "")).
Proof. reflexivity. Qed.

(** The header of an IPv4 datagram with its checksum field zeroed: the
    checksum is b861 on a big-endian host and the same two bytes, read as
    61b8, on a little-endian one. *)
Example in_csum_ipv4_header_big_endian :
  in_csum_alias true
    [x45; x00; x00; x73; x00; x00; x40; x00; x40; x11;
     x00; x00; xc0; xa8; x00; x01; xc0; xa8; x00; xc7] 20 0 false
  = Some (0xb861, None).
Proof. reflexivity. Qed.

Example in_csum_ipv4_header_little_endian :
  in_csum_memcpy false
    [x45; x00; x00; x73; x00; x00; x40; x00; x40; x11;
     x00; x00; xc0; xa8; x00; x01; xc0; xa8; x00; xc7] 20 0 false
  = Some (0x61b8, None).
Proof. reflexivity. Qed.

(** ** memcmp_constant_time *)

Lemma byte_val_range (b : byte) : 0 <= byte_val b < 256.
Proof.
  unfold byte_val. pose proof (Byte.to_N_bounded b). lia.
Qed.

Lemma byte_val_inj (x y : byte) : byte_val x = byte_val y -> x = y.
Proof.
  unfold byte_val. intros H. apply N2Z.inj in H.
  pose proof (Byte.of_to_N x) as Hx. pose proof (Byte.of_to_N y) as Hy.
  rewrite H in Hx. congruence.
Qed.

Lemma to_uchar_mod (z : Z) : to_uchar z = z mod 256.
Proof. unfold to_uchar. change 255 with (Z.ones 8). now rewrite Z.land_ones. Qed.

Lemma to_uchar_small (z : Z) : 0 <= z < 256 -> to_uchar z = z.
Proof. intros H. rewrite to_uchar_mod. now apply Z.mod_small. Qed.

Lemma to_uchar_range (z : Z) : 0 <= to_uchar z < 256.
Proof. rewrite to_uchar_mod. apply Z.mod_pos_bound. lia. Qed.

Lemma to_uchar_lor (a b : Z) :
  to_uchar (Z.lor a b) = Z.lor (to_uchar a) (to_uchar b).
Proof. unfold to_uchar. apply Z.land_lor_distr_l. Qed.

Lemma to_uchar_lxor_bytes (x y : byte) :
  to_uchar (Z.lxor (byte_val x) (byte_val y)) = Z.lxor (byte_val x) (byte_val y).
Proof.
  pose proof (byte_val_range x) as Hx. pose proof (byte_val_range y) as Hy.
  unfold to_uchar. change 255 with (Z.ones 8).
  apply Z.bits_inj'. intros n Hn.
  rewrite Z.land_spec, Z.lxor_spec, Z.testbit_ones_nonneg by lia.
  destruct (Z.ltb_spec n 8) as [Hlt|Hge].
  - apply andb_true_r.
  - rewrite <- (Z.mod_small (byte_val x) (2 ^ 8)), <- (Z.mod_small (byte_val y) (2 ^ 8)) by lia.
    rewrite !Z.mod_pow2_bits_high by lia. reflexivity.
Qed.

(** One step of the accumulation: the new [ret] is zero exactly when the old
    one was and the two bytes agree. *)
Lemma ret_step_zero (ret : Z) (x y : byte) :
  0 <= ret < 256 ->
  to_uchar (Z.lor ret (Z.lxor (byte_val x) (byte_val y))) = 0 <-> ret = 0 /\ x = y.
Proof.
  intros Hret.
  rewrite to_uchar_lor, to_uchar_lxor_bytes, (to_uchar_small ret) by assumption.
  rewrite Z.lor_eq_0_iff, Z.lxor_eq_0_iff.
  split; intros [H1 H2]; split; auto using byte_val_inj. now subst.
Qed.

Lemma memcmp_constant_time_loop_spec (n : nat) :
  forall (a b : list byte) (ret : Z),
    0 <= ret < 256 ->
    (n <= length a)%nat -> (n <= length b)%nat ->
    exists r, memcmp_constant_time_loop n a b ret = Some r
              /\ 0 <= r < 256
              /\ (r = 0 <-> ret = 0 /\ take n a = take n b).
Proof.
  induction n as [|n IH]; intros a b ret Hret Ha Hb; simpl.
  - exists ret. rewrite !take_0. intuition.
  - destruct a as [|x a]; [simpl in Ha; lia|].
    destruct b as [|y b]; [simpl in Hb; lia|].
    simpl in Ha, Hb.
    destruct (IH a b (to_uchar (Z.lor ret (Z.lxor (byte_val x) (byte_val y)))))
      as (r & Hr & Hrange & Hiff); [apply to_uchar_range | lia | lia |].
    exists r. split; [exact Hr|]. split; [exact Hrange|].
    rewrite Hiff, ret_step_zero by assumption. simpl.
    split.
    + intros [[H0 ->] ->]. auto.
    + intros [H0 Heq]. injection Heq as -> Heq. auto.
Qed.

(** C8.  For buffers holding at least [n] bytes, [memcmp_constant_time]
    returns a value, and that value is 0 if and only if the first [n] bytes
    of the two buffers are pairwise equal (so it is 0 when [n] is 0). *)
Theorem memcmp_constant_time_zero_iff (s1 s2 : list byte) (n : nat) :
  (n <= length s1)%nat -> (n <= length s2)%nat ->
  exists r, memcmp_constant_time s1 s2 n = Some r
            /\ (r = 0 <-> take n s1 = take n s2)
            /\ (n = 0%nat -> r = 0).
Proof.
  intros H1 H2. unfold memcmp_constant_time.
  destruct (memcmp_constant_time_loop_spec n s1 s2 0) as (r & Hr & _ & Hiff);
    [lia | assumption | assumption |].
  exists r. split; [exact Hr|]. split.
  - rewrite Hiff. intuition.
  - intros ->. apply Hiff. now rewrite !take_0.
Qed.

Lemma memcmp_constant_time_zero_iff_witness :
  exists r, memcmp_constant_time [x01; x02; x03] [x01; x02; x04] 2 = Some r
            /\ (r = 0 <-> take 2 [x01; x02; x03] = take 2 [x01; x02; x04])
            /\ (2%nat = 0%nat -> r = 0).
Proof.
  apply (memcmp_constant_time_zero_iff [x01; x02; x03] [x01; x02; x04] 2);
    simpl; lia.
Defined.

Lemma strlen_app_nul (pre rest : list byte) :
  x00 ∉ pre -> strlen (pre ++ x00 :: rest) = Some (length pre).
Proof.
  induction pre as [|c pre IH]; intros Hnul; simpl.
  - reflexivity.
  - destruct (Byte.eqb c x00) eqn:E.
    + apply Byte.byte_dec_bl in E. subst c. exfalso. apply Hnul. left.
    + rewrite IH; [reflexivity|]. intros Hin. apply Hnul. now right.
Qed.

Lemma c_string_app_nul (pre rest : list byte) :
  x00 ∉ pre -> c_string (pre ++ x00 :: rest) = pre.
Proof.
  induction pre as [|c pre IH]; intros Hnul; simpl.
  - reflexivity.
  - destruct (Byte.eqb c x00) eqn:E.
    + apply Byte.byte_dec_bl in E. subst c. exfalso. apply Hnul. left.
    + rewrite IH; [reflexivity|]. intros Hin. apply Hnul. now right.
Qed.

Lemma strlen_Some (s : list byte) :
  forall k, strlen s = Some k ->
    exists pre rest, s = pre ++ x00 :: rest /\ length pre = k /\ x00 ∉ pre.
Proof.
  induction s as [|c s IH]; intros k H; simpl in H.
  - discriminate.
  - destruct (Byte.eqb c x00) eqn:E.
    + apply Byte.byte_dec_bl in E. subst c. injection H as <-.
      exists [], s. split; [reflexivity|]. split; [reflexivity|]. apply not_elem_of_nil.
    + destruct (strlen s) as [k'|] eqn:Hs; simpl in H; [|discriminate].
      injection H as <-.
      destruct (IH k' eq_refl) as (pre & rest & -> & Hlen & Hnul).
      exists (c :: pre), rest. split; [reflexivity|]. split; [simpl; lia|].
      intros Hin. apply elem_of_cons in Hin as [Heq|Hin]; [|auto].
      subst c. discriminate.
Qed.

Lemma to_size_t_small (z : Z) : 0 <= z <= SIZE_MAX -> to_size_t z = z.
Proof. unfold to_size_t, SIZE_MAX. intros H. apply Z.mod_small. lia. Qed.


Lemma insert_nul_head (j : nat) (tl : list byte) :
  exists tl', <[j:=x00]> (x00 :: tl) = x00 :: tl'
              /\ length tl' = length tl /\ drop j tl' = drop j tl.
Proof.
  destruct j as [|j]; simpl.
  - now exists tl.
  - exists (<[j:=x00]> tl). split; [reflexivity|].
    split; [apply length_insert | apply drop_insert_lt; lia].
Qed.

Lemma not_elem_of_take_nul (n : nat) (pre : list byte) :
  x00 ∉ pre -> x00 ∉ take n pre.
Proof.
  intros H Hin. apply elem_of_take in Hin as (i & Hi & _).
  apply H. eapply list_elem_of_lookup_2; eauto.
Qed.

(** C10.  For a capacity [len >= 1] that the destination really has and a
    NUL-terminated source of length [k], [strcpy_safe_impl] returns; it
    leaves the bytes of [dst] from index [len] on untouched (at most [len]
    bytes are written), [dst] holds a NUL before index [len], the string in
    [dst] is the string in [src] when [k < len], and otherwise the first
    [len] bytes of [dst] are the first [len - 1] bytes of [src] followed
    by a NUL. *)
Theorem strcpy_safe_impl_terminated (dst src : list byte) (len : Z) (k : nat) :
  1 <= len <= SIZE_MAX -> len <= Z.of_nat (length dst) -> strlen src = Some k ->
  exists dst', strcpy_safe_impl dst src len = Some dst'
    /\ length dst' = length dst
    /\ drop (Z.to_nat len) dst' = drop (Z.to_nat len) dst
    /\ (exists m, strlen dst' = Some m /\ Z.of_nat m < len)
    /\ (Z.of_nat k < len -> c_string dst' = c_string src)
    /\ (len <= Z.of_nat k ->
        take (Z.to_nat len) dst' = take (Z.to_nat (len - 1)) src ++ [x00]).
Proof.
  intros Hlen Hdst Hsrc.
  destruct (strlen_Some src k Hsrc) as (pre & rest & -> & Hk & Hnul).
  unfold strcpy_safe_impl. rewrite Hsrc. simpl.
  rewrite (to_size_t_small (len - 1)) by lia.
  destruct (Z.ltb_spec (Z.of_nat k) len) as [Hlt|Hge].
  - rewrite to_size_t_small by lia.
    unfold memcpy. rewrite decide_True; cycle 1.
    { rewrite length_app. simpl. lia. }
    simpl. replace (Z.to_nat (Z.of_nat k + 1)) with (length pre + 1)%nat by lia.
    rewrite take_app_add. simpl. rewrite take_0.
    set (tl := drop (length pre + 1) dst).
    assert (Htl : (length pre + 1 + length tl = length dst)%nat).
    { unfold tl. rewrite length_drop. lia. }
    unfold store. rewrite decide_True; cycle 1.
    { rewrite !length_app. simpl. lia. }
    eexists. split; [reflexivity|].
    rewrite <- (assoc_L (++)). simpl.
    rewrite insert_app_r_alt by lia.
    destruct (insert_nul_head (Z.to_nat (len - 1) - length pre) tl)
      as (tl' & -> & Hlen' & Hdrop).
    rewrite length_app. simpl.
    split; [lia|]. split; [|split; [|split]].
    + replace (Z.to_nat len)
        with (length pre + S (Z.to_nat (len - 1) - length pre))%nat by lia.
      rewrite drop_app_add. simpl. rewrite Hdrop. unfold tl.
      rewrite drop_drop. f_equal. lia.
    + exists (length pre). split; [now apply strlen_app_nul | lia].
    + intros _. now rewrite !c_string_app_nul.
    + lia.
  - unfold memcpy. rewrite decide_True; cycle 1.
    { rewrite length_app. simpl. lia. }
    simpl. rewrite take_app_le by lia.
    set (n := Z.to_nat (len - 1)).
    assert (Hn : (n < length dst)%nat) by lia.
    destruct (drop n dst) as [|d tl] eqn:Hd.
    { apply (f_equal length) in Hd. rewrite length_drop in Hd. simpl in Hd. lia. }
    assert (Htl : tl = drop (S n) dst).
    { change tl with (drop 1 (d :: tl)). rewrite <- Hd, drop_drop.
      f_equal. lia. }
    assert (Hpn : length (take n pre) = n) by (rewrite length_take; lia).
    unfold store. rewrite decide_True; cycle 1.
    { rewrite length_app. simpl. lia. }
    eexists. split; [reflexivity|].
    rewrite insert_app_r_alt by lia. rewrite Hpn, Nat.sub_diag. simpl.
    rewrite length_app. simpl.
    assert (Hdl : length (d :: tl) = (length dst - n)%nat)
      by (rewrite <- Hd; apply length_drop).
    simpl in Hdl.
    replace (Z.to_nat len) with (length (take n pre) + 1)%nat by lia.
    split; [lia|]. split; [|split; [|split]].
    + rewrite drop_app_add. simpl. rewrite drop_0, Htl. f_equal. lia.
    + exists n. split; [|lia].
      rewrite <- Hpn at 2. apply strlen_app_nul. now apply not_elem_of_take_nul.
    + lia.
    + intros _. rewrite take_app_add. reflexivity.
Qed.

Lemma strcpy_safe_impl_terminated_witness :
  exists dst',
    strcpy_safe_impl [x11; x11; x11; x11; x11] (c_str "abcdef") 4 = Some dst'
    /\ length dst' = length [x11; x11; x11; x11; x11]
    /\ drop (Z.to_nat 4) dst' = drop (Z.to_nat 4) [x11; x11; x11; x11; x11]
    /\ (exists m, strlen dst' = Some m /\ Z.of_nat m < 4)
    /\ (Z.of_nat 6 < 4 -> c_string dst' = c_string (c_str "abcdef"))
    /\ (4 <= Z.of_nat 6 ->
        take (Z.to_nat 4) dst'
        = take (Z.to_nat (4 - 1)) (c_str "abcdef") ++ [x00]).
Proof.
  apply (strcpy_safe_impl_terminated [x11; x11; x11; x11; x11]
           (c_str "abcdef") 4 6).
  - unfold SIZE_MAX. lia.
  - simpl. lia.
  - reflexivity.
Defined.

Lemma list_byte_of_string_app (s1 s2 : string) :
  list_byte_of_string (s1 +:+ s2) = list_byte_of_string s1 ++ list_byte_of_string s2.
Proof.
  induction s1 as [|c s1 IH]; simpl; [reflexivity|].
  unfold list_byte_of_string in *. simpl. now rewrite IH.
Qed.

Lemma strlen_c_str (s : string) :
  nul_free s -> strlen (c_str s) = Some (length (list_byte_of_string s)).
Proof. intros H. unfold c_str. now apply strlen_app_nul. Qed.

Lemma length_c_str (s : string) :
  length (c_str s) = S (length (list_byte_of_string s)).
Proof. unfold c_str. rewrite length_app. simpl. lia. Qed.

Lemma strcpy_c_str (pre room rest : list byte) (s : string) (off : Z) :
  nul_free s ->
  off = Z.of_nat (length pre) ->
  length room = length (c_str s) ->
  strcpy (pre ++ room ++ rest) off (c_str s) = Some (pre ++ c_str s ++ rest).
Proof.
  intros Hs -> Hroom. unfold strcpy. rewrite strlen_c_str by assumption. simpl.
  rewrite Nat2Z.id, drop_app_length.
  replace (Z.of_nat (length (list_byte_of_string s)) + 1)
    with (Z.of_nat (length (c_str s))) by (rewrite length_c_str; lia).
  unfold memcpy. rewrite decide_True by (rewrite length_app; lia).
  simpl. rewrite Nat2Z.id, firstn_all.
  rewrite <- Hroom, drop_app_length.
  rewrite decide_True by (rewrite length_app; lia).
  rewrite take_app_length. reflexivity.
Qed.

Lemma make_tmp_filename_concat (tmp_dir file_name : string) :
  nul_free tmp_dir -> nul_free file_name ->
  make_tmp_filename tmp_dir file_name
  = Some (c_str (tmp_dir +:+ "/" +:+ file_name)).
Proof.
  intros Ht Hf. unfold make_tmp_filename.
  rewrite !strlen_c_str by assumption. simpl.
  set (td := list_byte_of_string tmp_dir).
  set (fn := list_byte_of_string file_name).
  unfold MALLOC.
  replace (Z.to_nat (Z.of_nat (length td) + 1 + Z.of_nat (length fn) + 1))
    with (S (length td) + S (length fn))%nat by lia.
  rewrite replicate_add.
  assert (H1 : strcpy (replicate (S (length td)) x00 ++ replicate (S (length fn)) x00)
                  0 (c_str tmp_dir)
               = Some (c_str tmp_dir ++ replicate (S (length fn)) x00)).
  { apply (strcpy_c_str [] _ _ tmp_dir 0 Ht eq_refl).
    now rewrite length_replicate, length_c_str. }
  rewrite H1. clear H1. cbn [mbind option_bind].
  assert (H2 : store (c_str tmp_dir ++ replicate (S (length fn)) x00)
                 (Z.of_nat (length td)) "/"%byte
               = Some ((td ++ ["/"%byte]) ++ replicate (S (length fn)) x00 ++ [])).
  { unfold store. rewrite decide_True; cycle 1.
    { rewrite length_app, length_c_str. fold td. lia. }
    rewrite Nat2Z.id. unfold c_str. fold td.
    rewrite <- !(assoc_L (++)). rewrite insert_app_r_alt by lia.
    rewrite Nat.sub_diag, app_nil_r. reflexivity. }
  rewrite H2. clear H2. cbn [mbind option_bind].
  rewrite (strcpy_c_str (td ++ ["/"%byte]) _ [] file_name _ Hf); cycle 1.
  { rewrite length_app. simpl. lia. }
  { now rewrite length_replicate, length_c_str. }
  cbn [mbind option_bind]. f_equal. unfold c_str.
  rewrite !list_byte_of_string_app. fold td. fold fn.
  rewrite app_nil_r, <- !(assoc_L (++)). reflexivity.
Qed.

Lemma c_string_c_str (s : string) :
  nul_free s -> c_string (c_str s) = list_byte_of_string s.
Proof. intros H. unfold c_str. now apply c_string_app_nul. Qed.

Lemma nul_free_app (s1 s2 : string) :
  nul_free s1 -> nul_free s2 -> nul_free (s1 +:+ s2).
Proof.
  unfold nul_free. rewrite list_byte_of_string_app, elem_of_app. tauto.
Qed.

Lemma nul_free_slash : nul_free "/".
Proof.
  unfold nul_free. cbn. rewrite elem_of_cons. intros [H|H]; [discriminate|].
  now apply elem_of_nil in H.
Qed.

Lemma char_at_0 (c : ascii) (rest : string) : char_at (String c rest) 0 = c.
Proof. reflexivity. Qed.

(** C7.  [set_tmp_dir] reads nothing of the environment but TMPDIR; it
    makes [tmp_dir] the value of TMPDIR when that is set and begins with a
    slash, and the compiled-in [KA_TMP_DIR] when TMPDIR is unset, empty or
    begins with another character.  [make_tmp_filename] returns a buffer
    that holds exactly [tmp_dir], a slash, [file_name] and the terminating
    NUL. *)
Theorem tmp_dir_placement (KA_TMP_DIR : string) (env : gmap string string)
    (file_name : string) :
  nul_free KA_TMP_DIR ->
  nul_free file_name ->
  (forall v, env !! "TMPDIR"%string = Some v -> nul_free v) ->
  let tmp_dir := set_tmp_dir KA_TMP_DIR env in
  (forall rest, env !! "TMPDIR"%string = Some (String "/" rest) ->
                tmp_dir = String "/" rest)
  /\ (env !! "TMPDIR"%string = None -> tmp_dir = KA_TMP_DIR)
  /\ (env !! "TMPDIR"%string = Some ""%string -> tmp_dir = KA_TMP_DIR)
  /\ (forall c rest, c <> "/"%char ->
                     env !! "TMPDIR"%string = Some (String c rest) ->
                     tmp_dir = KA_TMP_DIR)
  /\ (forall env' : gmap string string,
        env' !! "TMPDIR"%string = env !! "TMPDIR"%string ->
        set_tmp_dir KA_TMP_DIR env' = tmp_dir)
  /\ exists path,
       make_tmp_filename tmp_dir file_name = Some path
       /\ path = c_str (tmp_dir +:+ "/" +:+ file_name)
       /\ string_of_list_byte (c_string path) = tmp_dir +:+ "/" +:+ file_name.
Proof.
  intros Hka Hfn Henv tmp_dir.
  assert (Htd : nul_free tmp_dir).
  { unfold tmp_dir, set_tmp_dir, getenv.
    destruct (env !! "TMPDIR"%string) as [v|] eqn:E; [|exact Hka].
    destruct (negb _); [exact Hka|auto]. }
  split; [|split; [|split; [|split; [|split]]]].
  - intros rest E. unfold tmp_dir, set_tmp_dir, getenv. rewrite E.
    now rewrite char_at_0.
  - intros E. unfold tmp_dir, set_tmp_dir, getenv. now rewrite E.
  - intros E. unfold tmp_dir, set_tmp_dir, getenv. now rewrite E.
  - intros c rest Hc E. unfold tmp_dir, set_tmp_dir, getenv. rewrite E.
    rewrite char_at_0.
    destruct (Ascii.eqb c "/") eqn:Eq; [|reflexivity].
    apply Ascii.eqb_eq in Eq. contradiction.
  - intros env' E. unfold tmp_dir, set_tmp_dir, getenv. now rewrite E.
  - exists (c_str (tmp_dir +:+ "/" +:+ file_name)).
    split; [now apply make_tmp_filename_concat|]. split; [reflexivity|].
    rewrite c_string_c_str.
    + apply string_of_list_byte_of_string.
    + apply nul_free_app; [exact Htd|].
      apply nul_free_app; [apply nul_free_slash|exact Hfn].
Qed.

Lemma nul_free_tmp : nul_free "/tmp".
Proof.
  unfold nul_free. cbn. rewrite !elem_of_cons.
  intros [H|[H|[H|[H|H]]]]; try discriminate. now apply elem_of_nil in H.
Qed.

Lemma nul_free_data : nul_free "bfd.data".
Proof.
  unfold nul_free. cbn. rewrite !elem_of_cons.
  intros [H|[H|[H|[H|[H|[H|[H|[H|H]]]]]]]]; try discriminate.
  now apply elem_of_nil in H.
Qed.

Lemma tmp_dir_placement_witness :
  exists path,
    make_tmp_filename (set_tmp_dir "/tmp" ∅) "bfd.data" = Some path
    /\ string_of_list_byte (c_string path)
       = set_tmp_dir "/tmp" ∅ +:+ "/" +:+ "bfd.data".
Proof.
  destruct (tmp_dir_placement "/tmp" ∅ "bfd.data" nul_free_tmp nul_free_data)
    as (_ & _ & _ & _ & _ & path & Hpath & _ & Hstr).
  - intros v Hv. rewrite lookup_empty in Hv. discriminate.
  - exists path. split; assumption.
Defined.

Section InCsumFacts.
Variable big_endian : bool.
Variable mem : list byte.

Lemma memcpy_w16_deref (w : nat) :
  memcpy [x00; x00] (drop (2 * w) mem) 2 ≫= uint16_of_object big_endian
  = deref_uint16 big_endian mem w.
Proof.
  unfold deref_uint16.
  replace (mem !! (2 * w)%nat) with (drop (2 * w) mem !! 0%nat)
    by (rewrite lookup_drop; f_equal; lia).
  replace (mem !! (2 * w + 1)%nat) with (drop (2 * w) mem !! 1%nat)
    by (rewrite lookup_drop; f_equal; lia).
  unfold memcpy.
  destruct (drop (2 * w) mem) as [|b0 [|b1 tl]];
    case_decide as Hdec; cbn [length] in Hdec; try lia; reflexivity.
Qed.

Lemma in_csum_loops_agree (n : nat) :
  forall (w : nat) (csum : Z),
    (in_csum_memcpy_loop big_endian mem n (2 * w) csum
     = word_to_byte_offset <$> in_csum_alias_loop big_endian mem n w csum)
    /\ (in_csum_memcpy_loop big_endian mem (S n) (2 * w) csum
        = word_to_byte_offset <$> in_csum_alias_loop big_endian mem (S n) w csum).
Proof.
  induction n as [|n IH]; intros w csum.
  - split; reflexivity.
  - split; [apply IH|].
    cbn [in_csum_memcpy_loop in_csum_alias_loop].
    rewrite memcpy_w16_deref.
    destruct (deref_uint16 big_endian mem w) as [v|]; [|reflexivity].
    cbn [mbind option_bind].
    replace (2 * w + 2)%nat with (2 * S w)%nat by lia.
    apply IH.
Qed.

Lemma in_csum_alias_loop_total (n : nat) :
  forall (w : nat) (sum : Z),
    ((2 * w + n <= length mem)%nat ->
     exists w' sum', in_csum_alias_loop big_endian mem n w sum
                     = Some (n mod 2, w', sum')%nat
                     /\ (2 * w' + n mod 2 <= length mem)%nat)
    /\ ((2 * w + S n <= length mem)%nat ->
        exists w' sum', in_csum_alias_loop big_endian mem (S n) w sum
                        = Some (S n mod 2, w', sum')%nat
                        /\ (2 * w' + S n mod 2 <= length mem)%nat).
Proof.
  induction n as [|n IH]; intros w sum.
  - split; intros H; exists w, sum; (split; [reflexivity|simpl; lia]).
  - split; [apply IH|]. intros H.
    cbn [in_csum_alias_loop]. unfold deref_uint16.
    destruct (lookup_lt_is_Some_2 mem (2 * w)) as [b0 ->]; [lia|].
    destruct (lookup_lt_is_Some_2 mem (2 * w + 1)) as [b1 ->]; [lia|].
    cbn [mbind option_bind].
    destruct (IH (S w) (to_uint32 (sum + uint16_of_bytes big_endian b0 b1)))
      as [IH0 _].
    destruct IH0 as (w' & sum' & Heq & Hle); [lia|].
    exists w', sum'. rewrite Heq.
    replace (S (S n) mod 2)%nat with (n mod 2)%nat; [auto|].
    change (S (S n)) with (2 + n)%nat.
    rewrite <- (Nat.Div0.add_mod_idemp_l 2 n 2). reflexivity. 
Qed.

(** The two variants are the same function, also where the buffer is too
    short for [len]. *)
Lemma in_csum_variants_equal (len : nat) (csum : Z) (acc : bool) :
  in_csum_memcpy big_endian mem len csum acc
  = in_csum_alias big_endian mem len csum acc.
Proof.
  unfold in_csum_memcpy, in_csum_alias.
  destruct (in_csum_loops_agree len 0 csum) as [Hagree _].
  change (2 * 0)%nat with 0%nat in Hagree. rewrite Hagree. clear Hagree.
  destruct (in_csum_alias_loop big_endian mem len 0 csum)
    as [[[nleft w] sum]|]; reflexivity.
Qed.

(** C9.  On a buffer of at least [len] bytes, for either byte order of the
    host, every initial [csum] and [acc] null or not, both variants of
    [in_csum] return, and they return the same 16-bit checksum and store
    the same accumulator (they store one exactly when [acc] is not null). *)
Theorem in_csum_variants_agree (len : nat) (csum : Z) (acc : bool) :
  (len <= length mem)%nat ->
  exists answer stored,
    in_csum_memcpy big_endian mem len csum acc = Some (answer, stored)
    /\ in_csum_alias big_endian mem len csum acc = Some (answer, stored)
    /\ 0 <= answer < 2 ^ 16
    /\ (acc = true <-> is_Some stored).
Proof.
  intros Hlen. rewrite in_csum_variants_equal.
  unfold in_csum_alias.
  destruct (in_csum_alias_loop_total len 0 csum) as [Htot _].
  destruct Htot as (w & sum & -> & Hw); [lia|].
  cbn [mbind option_bind].
  destruct (decide ((len mod 2)%nat = 1%nat)) as [Hodd|Heven].
  - destruct (lookup_lt_is_Some_2 mem (2 * w)) as [b ->]; [lia|].
    cbn [mbind option_bind].
    eexists _, _. split; [reflexivity|]. split; [reflexivity|].
    split; [apply Z.mod_pos_bound; lia|].
    destruct acc; split; intros H; try done; by eexists.
  - eexists _, _. split; [reflexivity|]. split; [reflexivity|].
    split; [apply Z.mod_pos_bound; lia|].
    destruct acc; split; intros H; try done; by eexists.
Qed.
End InCsumFacts.

Lemma in_csum_variants_agree_witness :
  exists answer stored,
    in_csum_memcpy false [x45; x00; x00; x1c; x01] 5 0 true
    = Some (answer, stored)
    /\ in_csum_alias false [x45; x00; x00; x1c; x01] 5 0 true
       = Some (answer, stored)
    /\ 0 <= answer < 2 ^ 16
    /\ (true = true <-> is_Some stored).
Proof.
  apply (in_csum_variants_agree false [x45; x00; x00; x1c; x01] 5 0 true).
  simpl. lia.
Defined.

End UtilsFacts.

(* ===================================================================== *)
(** * Properties of the BFD child process                                 *)
(* ===================================================================== *)

Module BfdFacts.
Import Bfd.

(** ** The concrete daemon on small inputs *)

Example lowest_free_gap :
  lowest_free (<[0%nat := Scenario.tty]>
                 (<[1%nat := Scenario.tty]> (<[3%nat := Scenario.tty]> ∅)))
  = 2%nat.
Proof. reflexivity. Qed.

Example scenario_pipes_opened :
  bfd_vrrp_event_pipe Scenario.parent_with_pipes = (6, 7)
  /\ bfd_checker_event_pipe Scenario.parent_with_pipes = (8, 9).
Proof. split; reflexivity. Qed.

Example scenario_sigdump :
  exists p', sigdump_bfd Scenario.parent = Returns tt p'
             /\ master p' = Some [THREAD_EVENT PRINT_BFD_THREAD].
Proof. eexists. split; reflexivity. Qed.

(** ** The monad, the kernel *)

Lemma run_bind {A B} (m : M A) (k : A -> M B) (p : proc) :
  (m ≫= k) p
  = match m p with
    | Returns a p' => k a p'
    | Exits status p' => Exits status p'
    | Faults p' => Faults p'
    end.
Proof. reflexivity. Qed.

Lemma lowest_free_None (t : gmap nat fd_entry) : t !! lowest_free t = None.
Proof.
  unfold lowest_free.
  destruct (list_find _ _) as [[i fd]|] eqn:Hfind.
  - apply list_find_Some in Hfind. tauto.
  - exfalso. apply list_find_None in Hfind.
    assert (Hsub : (set_seq 0 (S (size t)) : gset nat) ⊆ dom t).
    { intros fd Hfd. apply elem_of_set_seq in Hfd.
      rewrite Forall_forall in Hfind.
      apply elem_of_dom. destruct (t !! fd) eqn:E; [eauto|].
      exfalso. apply (Hfind fd); [|exact E].
      apply elem_of_seq. lia. }
    apply subseteq_size in Hsub.
    rewrite size_set_seq, size_dom in Hsub. lia.
Qed.

Lemma open_pipe_flags_valid :
  Z.land (Z.lor O_CLOEXEC O_NONBLOCK)
    (Z.lnot (Z.lor O_CLOEXEC (Z.lor O_NONBLOCK O_DIRECT))) = 0.
Proof. reflexivity. Qed.

Lemma pipe2_cases (arr : pipe_var) (p : proc) :
  pipe2 arr (Z.lor O_CLOEXEC O_NONBLOCK) p = Returns (-1) p
  \/ exists rfd wfd,
       pipe2 arr (Z.lor O_CLOEXEC O_NONBLOCK) p
       = Returns 0
           (set_pipe arr (Z.of_nat rfd, Z.of_nat wfd)
              (set_next_pipe (S (next_pipe p))
                 (set_fds
                    (<[wfd := {| fd_file := PIPE (next_pipe p) WRITE_END;
                                 fd_nonblock := true; fd_cloexec := true |}]>
                       (<[rfd := {| fd_file := PIPE (next_pipe p) READ_END;
                                    fd_nonblock := true;
                                    fd_cloexec := true |}]> (fds p))) p)))
       /\ fds p !! rfd = None /\ fds p !! wfd = None /\ rfd <> wfd.
Proof.
  unfold pipe2. rewrite decide_False by (rewrite open_pipe_flags_valid; lia).
  cbv zeta.
  change (negb (Z.land (Z.lor O_CLOEXEC O_NONBLOCK) O_NONBLOCK =? 0)) with true.
  change (negb (Z.land (Z.lor O_CLOEXEC O_NONBLOCK) O_CLOEXEC =? 0)) with true.
  set (rfd := lowest_free (fds p)).
  set (er := {| fd_file := PIPE (next_pipe p) READ_END |}).
  set (wfd := lowest_free (<[rfd := er]> (fds p))).
  destruct (decide (rfd < nofile p ∧ wfd < nofile p)%nat) as [Hroom|Hfull];
    [right|now left].
  pose proof (lowest_free_None (fds p)) as Hr. fold rfd in Hr.
  pose proof (lowest_free_None (<[rfd := er]> (fds p))) as Hw. fold wfd in Hw.
  assert (Hne : rfd <> wfd).
  { intros Heq. rewrite <- Heq, lookup_insert_eq in Hw. discriminate. }
  exists rfd, wfd. split; [reflexivity|]. split; [exact Hr|]. split; [|exact Hne].
  now rewrite lookup_insert_ne in Hw.
Qed.

Lemma fds_set_pipe (arr : pipe_var) (a : Z * Z) (p : proc) :
  fds (set_pipe arr a p) = fds p.
Proof. now destruct arr. Qed.

Lemma next_pipe_set_pipe (arr : pipe_var) (a : Z * Z) (p : proc) :
  next_pipe (set_pipe arr a p) = next_pipe p.
Proof. now destruct arr. Qed.

Lemma get_pipe_set_pipe (arr : pipe_var) (a : Z * Z) (p : proc) :
  get_pipe arr (set_pipe arr a p) = a.
Proof. now destruct arr. Qed.

Lemma get_pipe_set_pipe_ne (arr arr' : pipe_var) (a : Z * Z) (p : proc) :
  arr' <> arr -> get_pipe arr' (set_pipe arr a p) = get_pipe arr' p.
Proof. destruct arr, arr'; intros H; try reflexivity; now destruct H. Qed.

(** A successful [pipe2] with the flags of [open_pipe]. *)
Lemma pipe2_success (arr : pipe_var) (p p' : proc) :
  pipe2 arr (Z.lor O_CLOEXEC O_NONBLOCK) p = Returns 0 p' ->
  pipe_added arr p p'
  /\ (pipe_ids_below p -> pipe_ids_below p')
  /\ (pipe_ids_below p -> event_pipe p' (get_pipe arr p') (next_pipe p))
  /\ nonblocking_pipe arr p'.
Proof.
  intros Hpipe2.
  destruct (pipe2_cases arr p) as [Hfail|(rfd & wfd & Hok & Hr & Hw & Hne)];
    [rewrite Hfail in Hpipe2; discriminate|].
  rewrite Hok in Hpipe2. injection Hpipe2 as <-.
  set (er := {| fd_file := PIPE (next_pipe p) READ_END; fd_nonblock := true;
                fd_cloexec := true |}) in *.
  set (ew := {| fd_file := PIPE (next_pipe p) WRITE_END; fd_nonblock := true;
                fd_cloexec := true |}) in *.
  set (p' := set_pipe arr _ _).
  assert (Hfds : fds p' = <[wfd := ew]> (<[rfd := er]> (fds p)))
    by (unfold p'; now rewrite fds_set_pipe).
  assert (Hnext : next_pipe p' = S (next_pipe p))
    by (unfold p'; now rewrite next_pipe_set_pipe).
  assert (Hget : get_pipe arr p' = (Z.of_nat rfd, Z.of_nat wfd))
    by (unfold p'; now rewrite get_pipe_set_pipe).
  assert (Hlookup : forall fd e,
             fds p' !! fd = Some e <->
             (fd = wfd /\ e = ew) \/ (fd = rfd /\ e = er)
             \/ (fd <> wfd /\ fd <> rfd /\ fds p !! fd = Some e)).
  { intros fd e. rewrite Hfds.
    destruct (decide (fd = wfd)) as [->|Hnw].
    - rewrite lookup_insert_eq. intuition congruence.
    - rewrite lookup_insert_ne by auto.
      destruct (decide (fd = rfd)) as [->|Hnr].
      + rewrite lookup_insert_eq. intuition congruence.
      + rewrite lookup_insert_ne by auto. intuition congruence. }
  assert (Hwr : forall full, write (Z.of_nat wfd) full p'
                             = if full then WRITE_EAGAIN else WRITE_DONE).
  { intros full. unfold write. rewrite decide_False by lia.
    rewrite Hfds, Nat2Z.id, lookup_insert_eq. reflexivity. }
  split; [|split; [|split]].
  - split; [exact Hnext|]. split; [|split].
    + intros fd e Hfd. apply Hlookup. right. right.
      repeat split; [congruence|congruence|exact Hfd].
    + intros fd e Hfd. apply Hlookup in Hfd as [[_ ->]|[[_ ->]|(_ & _ & H)]];
        [right; now exists WRITE_END|right; now exists READ_END|now left].
    + intros arr' Hne'. unfold p'. rewrite get_pipe_set_pipe_ne by assumption.
      now destruct arr'.
  - intros Hbelow fd e k pe Hfd Hfile. rewrite Hnext.
    apply Hlookup in Hfd as [[_ ->]|[[_ ->]|(_ & _ & H)]].
    + injection Hfile as <- _. lia.
    + injection Hfile as <- _. lia.
    + specialize (Hbelow fd e k pe H Hfile). lia.
  - intros Hbelow. exists rfd, wfd, er, ew. split; [exact Hget|].
    split; [apply Hlookup; tauto|]. split; [reflexivity|].
    split; [apply Hlookup; tauto|]. split; [reflexivity|].
    intros fd e Hfd Hfile.
    apply Hlookup in Hfd as [[_ ->]|[[-> _]|(_ & _ & H)]];
      [discriminate Hfile|reflexivity|].
    specialize (Hbelow fd e _ _ H Hfile). lia.
  - exists rfd, wfd, er, ew, (next_pipe p). split; [exact Hget|].
    split; [apply Hlookup; tauto|]. split; [apply Hlookup; tauto|].
    do 6 (split; [reflexivity|]).
    split; [intros full; rewrite Hwr; destruct full; discriminate|apply Hwr].
Qed.

Lemma pipe2_cloexec_nonblock (arr : pipe_var) (p : proc) :
  pipe2 arr (Z.lor O_CLOEXEC O_NONBLOCK) p = Returns (-1) p
  \/ exists p', pipe2 arr (Z.lor O_CLOEXEC O_NONBLOCK) p = Returns 0 p'
                /\ nonblocking_pipe arr p'.
Proof.
  destruct (pipe2_cases arr p) as [Hfail|(rfd & wfd & Hok & _)]; [now left|].
  right. eexists. split; [exact Hok|]. now apply (pipe2_success arr p).
Qed.

(** C3.  [open_pipe] always returns; it returns -1 exactly when [pipe2]
    returns -1, and then changes nothing, and 0 otherwise; after a return
    of 0 the array holds the two ends of one pipe, both opened with
    O_NONBLOCK and O_CLOEXEC, and a write to the write end does not block:
    on a full pipe it fails with EAGAIN. *)
Theorem open_pipe_nonblocking (arr : pipe_var) (p : proc) :
  exists r p',
    open_pipe arr p = Returns r p'
    /\ (exists r2, pipe2 arr (Z.lor O_CLOEXEC O_NONBLOCK) p = Returns r2 p'
                   /\ (r = -1 <-> r2 = -1))
    /\ (r = -1 \/ r = 0)
    /\ (r = -1 -> p' = p)
    /\ (r = 0 -> nonblocking_pipe arr p').
Proof.
  unfold open_pipe. rewrite run_bind.
  destruct (pipe2_cloexec_nonblock arr p) as [Hfail|(p' & Hok & Hpipe)].
  - rewrite Hfail. exists (-1), p. cbn.
    split; [reflexivity|]. split; [exists (-1); split; [reflexivity|lia]|].
    split; [now left|]. split; [reflexivity|lia].
  - rewrite Hok. exists 0, p'. cbn.
    split; [reflexivity|]. split; [exists 0; split; [reflexivity|lia]|].
    split; [now right|]. split; [lia|]. intros _. exact Hpipe.
Qed.

Ltac run_monad :=
  repeat (rewrite run_bind; cbn [modify get ret mret M_ret]).

Lemma sigreload_bfd_enqueues (p : proc) (q : list thread_t) :
  master p = Some q ->
  sigreload_bfd p
  = Returns tt (set_master (Some (q ++ [THREAD_EVENT RELOAD_BFD_THREAD])) p).
Proof.
  intros Hq. unfold sigreload_bfd, thread_add_event. run_monad.
  unfold get. rewrite Hq. reflexivity.
Qed.

Lemma sigend_bfd_enqueues (p : proc) (q : list thread_t) :
  master p = Some q ->
  sigend_bfd p = Returns tt (set_master (Some (q ++ [THREAD_TERMINATE])) p).
Proof.
  intros Hq. unfold sigend_bfd, thread_add_terminate_event. run_monad.
  unfold get. rewrite Hq. 
  rewrite bool_decide_eq_true_2 by eauto. run_monad. rewrite Hq. reflexivity.
Qed.

Lemma sigend_bfd_no_master (p : proc) :
  master p = None -> sigend_bfd p = Returns tt p.
Proof.
  intros Hq. unfold sigend_bfd. run_monad. unfold get. rewrite Hq.
  rewrite bool_decide_eq_false_2; [reflexivity|]. intros [x Hx]. discriminate.
Qed.

Lemma sigdump_bfd_enqueues (p : proc) (q : list thread_t) :
  master p = Some q ->
  sigdump_bfd p
  = Returns tt
      (set_master (Some (q ++ [THREAD_EVENT PRINT_BFD_THREAD]))
         (set_log (log p ++ ["Printing BFD data for process(%d) on signal"]) p)).
Proof.
  intros Hq. unfold sigdump_bfd, thread_add_event, log_message. run_monad.
  unfold get. cbn [master set_log]. rewrite Hq. reflexivity.
Qed.

Lemma signal_queues_intro (p : proc) (sig : Z) (h : signal_handler)
    (m : M unit) (ev : thread_t) :
  signals p !! sig = Some (SIG_HANDLER h) ->
  signal_handler_func h = Some m ->
  (forall q, master p = Some q ->
             exists l, m p = Returns tt (set_master (Some (q ++ [ev]))
                                           (set_log l p))) ->
  signal_queues p sig ev.
Proof.
  intros Hsig Hh Hm. exists h, m. split; [exact Hsig|]. split; [exact Hh|].
  intros q Hq. destruct (Hm q Hq) as (l & ->).
  eexists. split; [reflexivity|]. split; reflexivity.
Qed.

Lemma set_fds_set_fds (t t' : gmap nat fd_entry) (p : proc) :
  set_fds t (set_fds t' p) = set_fds t p.
Proof. reflexivity. Qed.

Lemma set_fds_id (p : proc) : set_fds (fds p) p = p.
Proof. now destruct p. Qed.

Lemma external_run (w : world) (h : helper) (p : proc) :
  external w h p
  = Returns tt
      (set_log (log p ++ helper_log w h)
         (set_fds (run_fd_ops (nofile p) (helper_fds w h) (fds p)) p)).
Proof. reflexivity. Qed.

Lemma close_run (fd : Z) (p : proc) :
  exists r t, close fd p = Returns r (set_fds t p).
Proof.
  unfold close. destruct (decide _).
  - eexists _, _. reflexivity.
  - exists (-1), (fds p). now rewrite set_fds_id.
Qed.

Lemma close_std_fd_run (p : proc) :
  exists t, close_std_fd p = Returns tt (set_fds t p).
Proof.
  unfold close_std_fd. rewrite run_bind.
  destruct (close_run 0 p) as (r0 & t0 & ->). rewrite run_bind.
  destruct (close_run 1 (set_fds t0 p)) as (r1 & t1 & ->). rewrite run_bind.
  destruct (close_run 2 (set_fds t1 (set_fds t0 p))) as (r2 & t2 & ->).
  exists t2. reflexivity.
Qed.

Ltac proc_simpl :=
  cbn [fds nofile next_pipe bfd_vrrp_event_pipe bfd_checker_event_pipe
       bfd_start_time bfd_data old_bfd_data global_data old_global_data
       reload bfd_child master child_threads signals comm log
       set_fds set_nofile set_next_pipe set_bfd_vrrp_event_pipe
       set_bfd_checker_event_pipe set_bfd_start_time set_bfd_data
       set_old_bfd_data set_global_data set_old_global_data set_reload
       set_bfd_child set_master set_child_threads set_signals set_comm
       set_log get_pipe set_pipe].

Ltac run_step :=
  first [ rewrite run_bind
        | rewrite external_run
        | progress cbn [modify get ret mret M_ret exit fault]
        | progress unfold mret, M_ret, ret
        | progress proc_simpl ].

(** The line [log_stopping] writes. *)
Lemma log_stopping_run (w : world) (p : proc) :
  exists line, log_stopping w p = Returns tt (set_log (log p ++ [line]) p).
Proof.
  unfold log_stopping, log_message.
  destruct (log_detail w); [|eexists; reflexivity].
  cbv zeta. destruct (_ || _); eexists; reflexivity.
Qed.

(** A helper that is called only under a condition. *)
Lemma external_if_run (w : world) (c : bool) (h : helper) (p : proc) :
  exists l t,
    (if c then external w h else mret tt) p
    = Returns tt (set_log (log p ++ l) (set_fds t p)).
Proof.
  destruct c.
  - rewrite external_run. eexists _, _. reflexivity.
  - exists [], (fds p). rewrite app_nil_r. now destruct p.
Qed.

Ltac external_if_step :=
  match goal with
  | |- context [(if ?c then external ?w ?h else _) ?x] =>
      let l := fresh "l" in
      let t := fresh "t" in
      let H := fresh "H" in
      destruct (external_if_run w c h x) as (l & t & H);
      unfold mret, M_ret, ret in H; rewrite H; clear H
  end.

(** [stop_bfd] outside the configuration test: the process exits with the
    status given, its configuration and master released. *)
Lemma stop_bfd_exits (w : world) (status : Z) (p : proc) :
  config_test w = false ->
  exists p', stop_bfd w status p = Exits status p'
             /\ bfd_data p' = None /\ global_data p' = None
             /\ master p' = None
             /\ old_bfd_data p' = old_bfd_data p
             /\ old_global_data p' = old_global_data p.
Proof.
  intros Hct. unfold stop_bfd. rewrite Hct.
  repeat run_step.
  match goal with |- context [log_stopping w ?x] =>
    destruct (log_stopping_run w x) as (line & ->) end.
  repeat run_step.
  external_if_step.
  repeat run_step.
  match goal with |- context [close_std_fd ?x] =>
    destruct (close_std_fd_run x) as (t' & ->) end.
  repeat run_step.
  eexists. split; [reflexivity|]. proc_simpl. tauto.
Qed.

(** [set_process_name] touches the name of the process and the log. *)
Lemma set_process_name_run (w : world) (name : option string) (p : proc) :
  exists c l, set_process_name w name p
              = Returns tt (set_log (log p ++ l) (set_comm c p)).
Proof.
  unfold set_process_name, log_message. cbv zeta.
  destruct (negb _).
  - exists (comm p). eexists [_]. cbn [modify]. now destruct p.
  - exists (Some (default "keepalived" name)), []. cbn [modify].
    rewrite app_nil_r. now destruct p.
Qed.

(** [start_bfd] on a reload, with memory for the new data. *)
Lemma start_bfd_reload (w : world) (prev : option data_t) (p : proc)
    (q : list thread_t) :
  config_test w = false ->
  alloc_bfd_data_ok w = true ->
  reload p = true ->
  master p = Some q ->
  let g := init_global_data w (conf_global w) prev in
  (reload_check_config g && negb (is_config_ok (conf_status w)) = true ->
   exists p', start_bfd w prev p = Exits KEEPALIVED_EXIT_CONFIG p'
              /\ bfd_data p' = None /\ global_data p' = None
              /\ master p' = None)
  /\ (reload_check_config g && negb (is_config_ok (conf_status w)) = false ->
      exists p', start_bfd w prev p = Returns tt p'
                 /\ bfd_data p' = Some (conf_bfd w)
                 /\ global_data p' = Some g
                 /\ old_bfd_data p' = old_bfd_data p
                 /\ old_global_data p' = old_global_data p
                 /\ reload p' = reload p
                 /\ master p' = Some (q ++ [THREAD_EVENT BFD_DISPATCHER_INIT])
                 /\ fds p'
                    = run_fd_ops (nofile p)
                        (helper_fds w INIT_DATA ++ helper_fds w BFD_COMPLETE_INIT
                         ++ helper_fds w NOTIFY_CONFIG_READ
                         ++ helper_fds w RESTORE_PRIORITY
                         ++ helper_fds w SET_PROCESS_CPU_AFFINITY) (fds p)
                 /\ nofile p' = nofile p
                 /\ bfd_vrrp_event_pipe p' = bfd_vrrp_event_pipe p
                 /\ bfd_checker_event_pipe p' = bfd_checker_event_pipe p).
Proof.
  intros Hct Halloc Hrl Hq g.
  assert (Hstop : forall x,
            exists p', stop_bfd w KEEPALIVED_EXIT_CONFIG x
                       = Exits KEEPALIVED_EXIT_CONFIG p'
                       /\ bfd_data p' = None /\ global_data p' = None
                       /\ master p' = None).
  { intros x.
    destruct (stop_bfd_exits w KEEPALIVED_EXIT_CONFIG x Hct)
      as (p' & Hp' & H1 & H2 & H3 & _).
    exists p'. tauto. }
  unfold start_bfd, init_data, deref_global_data, thread_add_event.
  rewrite Hct, Halloc. cbn [negb].
  repeat run_step. rewrite Hrl.
  repeat run_step. rewrite Hrl.
  repeat run_step. fold g.
  assert (Hname : forall x,
            exists c l,
              (if process_name_changed g prev
               then set_process_name w (bfd_process_name g) else mret tt) x
              = Returns tt (set_log (log x ++ l) (set_comm c x))).
  { intros x. destruct (process_name_changed g prev).
    - apply set_process_name_run.
    - exists (comm x), []. rewrite app_nil_r. now destruct x. }
  match goal with |- context [(if process_name_changed g prev then _ else _) ?x] =>
    destruct (Hname x) as (c & l & Hx);
    unfold mret, M_ret, ret in Hx; rewrite Hx; clear Hx end.
  repeat run_step.
  destruct (reload_check_config g && negb (is_config_ok (conf_status w))).
  all: split; intros Heq; try discriminate Heq; try apply Hstop.
  destruct (dump_conf w).
  all: repeat run_step; rewrite Hq; repeat run_step.
  all: eexists; (split; [reflexivity|]); proc_simpl.
  all: unfold run_fd_ops; rewrite !foldl_app; tauto.
Qed.

(** C1, amended.  A reload reads a configuration with an error, in a
    daemon that is not testing its configuration and has memory for the
    new data.  When the new global data ask for the configuration check,
    the process stops: it has released its configuration and its master
    and exits with the config-error status.  When they do not, the reload
    returns with the configuration just read in place of the previous
    one. *)
Theorem reload_config_error (w : world) (p : proc) (q : list thread_t)
    (old_bfd : bfd_data_t) (old_global : data_t) :
  config_test w = false ->
  alloc_bfd_data_ok w = true ->
  is_config_ok (conf_status w) = false ->
  master p = Some q ->
  bfd_data p = Some old_bfd ->
  global_data p = Some old_global ->
  let g := init_global_data w (conf_global w) (Some old_global) in
  (reload_check_config g = true ->
   exists p', reload_bfd_thread w p = Exits KEEPALIVED_EXIT_CONFIG p'
              /\ bfd_data p' = None /\ global_data p' = None
              /\ master p' = None)
  /\ (reload_check_config g = false ->
      exists p', reload_bfd_thread w p = Returns tt p'
                 /\ bfd_data p' = Some (conf_bfd w)
                 /\ global_data p' = Some g
                 /\ old_bfd_data p' = None /\ old_global_data p' = None
                 /\ reload p' = false
                 /\ master p' = Some [THREAD_EVENT BFD_DISPATCHER_INIT]).
Proof.
  intros Hct Halloc Herr Hq Hbfd Hglobal g.
  unfold reload_bfd_thread, log_message, signal_set, thread_cleanup_master.
  repeat run_step. rewrite Hq.
  repeat run_step. rewrite Hglobal.
  match goal with |- context [start_bfd w _ ?x] =>
    destruct (start_bfd_reload w (Some old_global) x [] Hct Halloc eq_refl eq_refl)
      as [Hexit Hret] end.
  fold g in Hexit, Hret. rewrite Herr in Hexit, Hret. cbn [negb] in Hexit, Hret.
  rewrite andb_true_r in Hexit, Hret.
  split; intros Hchk.
  - destruct (Hexit Hchk) as (p' & -> & H). exists p'. tauto.
  - destruct (Hret Hchk)
      as (p' & -> & H1 & H2 & H3 & H4 & H5 & H6 & _).
    repeat run_step. eexists. split; [reflexivity|]. proc_simpl. tauto.
Qed.

(** C1 as stated fails.  With a configuration that has an error the
    reload either ends the process (configuration check requested) or
    installs the new configuration (no check requested); in neither case is
    the previously live configuration the one in effect afterwards. *)
Lemma reload_config_error_replaces_or_exits :
  ~ live_configuration_persists Scenario.parent
      (reload_bfd_thread (Scenario.world_with true true) Scenario.parent)
  /\ ~ live_configuration_persists Scenario.parent
         (reload_bfd_thread (Scenario.world_with false true) Scenario.parent).
Proof.
  split.
  - vm_compute. tauto.
  - vm_compute. intros [H _]. discriminate H.
Qed.

Lemma reload_config_error_witness :
  let w := Scenario.world_with true true in
  let g := init_global_data w (conf_global w) (Some Scenario.live_global) in
  (reload_check_config g = true ->
   exists p', reload_bfd_thread w Scenario.parent = Exits KEEPALIVED_EXIT_CONFIG p'
              /\ bfd_data p' = None /\ global_data p' = None
              /\ master p' = None)
  /\ (reload_check_config g = false ->
      exists p', reload_bfd_thread w Scenario.parent = Returns tt p'
                 /\ bfd_data p' = Some (conf_bfd w)
                 /\ global_data p' = Some g
                 /\ old_bfd_data p' = None /\ old_global_data p' = None
                 /\ reload p' = false
                 /\ master p' = Some [THREAD_EVENT BFD_DISPATCHER_INIT]).
Proof.
  apply (reload_config_error (Scenario.world_with true true) Scenario.parent []
           Scenario.live_bfd Scenario.live_global); reflexivity.
Defined.

(** ** The signal table and the loop *)

(** The table [bfd_signal_init] leaves. *)
Lemma bfd_signal_init_table (b : build_config) (w : world) (p : proc) :
  (THREAD_DUMP b = true -> SIGTDUMP b ∉ bfd_signals) ->
  exists S,
    bfd_signal_init b w p = Returns tt (set_signals S p)
    /\ bfd_handlers w (set_signals S p)
    /\ (forall sig, sig ∉ bfd_signals ->
                    S !! sig
                    = if THREAD_DUMP b && (sig =? SIGTDUMP b)
                      then Some (SIG_HANDLER THREAD_DUMP_SIGNAL)
                      else signals p !! sig).
Proof.
  intros Hdump.
  assert (Hd : THREAD_DUMP b = true ->
               SIGTDUMP b <> 1 /\ SIGTDUMP b <> 2 /\ SIGTDUMP b <> 15
               /\ SIGTDUMP b <> 10 /\ SIGTDUMP b <> 13).
  { intros H. specialize (Hdump H). unfold bfd_signals in Hdump.
    rewrite !not_elem_of_cons in Hdump. tauto. }
  clear Hdump.
  unfold bfd_signal_init, signal_set, signal_ignore, bfd_handlers.
  destruct (ignore_sigint w), (THREAD_DUMP b) eqn:Htd; run_monad.
  all: eexists; split; [reflexivity|]; cbn [signals set_signals].
  all: unfold bfd_signals, SIGHUP, SIGINT, SIGTERM, SIGUSR1, SIGPIPE in *.
  all: try (specialize (Hd eq_refl)).
  all: split;
    [repeat split;
     repeat first [ rewrite lookup_insert_eq
                  | rewrite lookup_insert_ne by lia ]; reflexivity|].
  all: intros sig Hsig; rewrite !not_elem_of_cons in Hsig; cbn [andb].
  all: try destruct (Z.eqb_spec sig (SIGTDUMP b)) as [->|Hne].
  all: repeat first [ rewrite lookup_insert_eq
                    | rewrite lookup_insert_ne by lia ].
  all: reflexivity.
Qed.

Lemma set_log_nil (p : proc) : set_log (log p ++ []) p = p.
Proof. rewrite app_nil_r. now destruct p. Qed.

(** A signal of [bfd_signals] arrives while the handlers of the BFD child
    are registered: its event is queued and its line logged. *)
Lemma signal_arrives_bfd (w : world) (p : proc) (in_flight : list (M unit))
    (q : list thread_t) (sig : Z) :
  master p = Some q ->
  bfd_handlers w p ->
  sig ∈ bfd_signals ->
  signal_arrives sig (RUNNING p in_flight)
  = Some (RUNNING (set_master (Some (q ++ signal_event w sig))
                     (set_log (log p ++ signal_log sig) p)) in_flight).
Proof.
  intros Hq (Hhup & Hint & Hterm & Husr1 & Hpipe) Hsig.
  assert (Hsame : set_master (Some (q ++ []))
                    (set_log (log p ++ []) p) = p).
  { rewrite set_log_nil, app_nil_r. rewrite <- Hq. now destruct p. }
  unfold bfd_signals in Hsig. rewrite !elem_of_cons, elem_of_nil in Hsig.
  unfold signal_arrives, signal_event, signal_log, run_in_loop.
  destruct Hsig as [-> | [-> | [-> | [-> | [-> | []]]]]].
  - rewrite Hhup. cbn [signal_handler_func mbind option_bind].
    rewrite (sigreload_bfd_enqueues p q Hq).
    change (SIGHUP =? SIGHUP) with true. change (SIGHUP =? SIGUSR1) with false.
    cbv iota. now rewrite set_log_nil.
  - rewrite Hint.
    change (SIGINT =? SIGHUP) with false. change (SIGINT =? SIGTERM) with false.
    change (SIGINT =? SIGINT) with true. change (SIGINT =? SIGUSR1) with false.
    cbv iota. destruct (ignore_sigint w).
    + now rewrite Hsame.
    + cbn [signal_handler_func mbind option_bind].
      rewrite (sigend_bfd_enqueues p q Hq). now rewrite set_log_nil.
  - rewrite Hterm. cbn [signal_handler_func mbind option_bind].
    rewrite (sigend_bfd_enqueues p q Hq).
    change (SIGTERM =? SIGHUP) with false. change (SIGTERM =? SIGTERM) with true.
    change (SIGTERM =? SIGUSR1) with false.
    cbv iota. now rewrite set_log_nil.
  - rewrite Husr1. cbn [signal_handler_func mbind option_bind].
    rewrite (sigdump_bfd_enqueues p q Hq). reflexivity.
  - rewrite Hpipe.
    change (SIGPIPE =? SIGHUP) with false. change (SIGPIPE =? SIGTERM) with false.
    change (SIGPIPE =? SIGINT) with false. change (SIGPIPE =? SIGUSR1) with false.
    cbv iota. now rewrite Hsame.
Qed.

(** C4.  Whatever handler is in flight in the loop, and however many of
    the signals of the BFD child arrive meanwhile, each of the handlers
    [sigreload_bfd], [sigend_bfd] and [sigdump_bfd] returns having only
    appended its event to the queue of the master ([sigdump_bfd] after one
    log line): the configuration, the reload flag, the descriptors, the
    pipes, the signal table and the steps the handler in flight has still to
    make are those from before.  The events are processed between handlers:
    while a handler is in flight the loop goes on with its next step, in
    the state the signals have left untouched; only with no handler in
    flight does it take up the first event queued, a reload or print thread
    to run or the terminate event on which it ends. *)
Theorem signal_handlers_only_enqueue (w : world) (p : proc)
    (in_flight : list (M unit)) (q : list thread_t) (sigs : list Z) :
  master p = Some q ->
  bfd_handlers w p ->
  Forall (fun sig => sig ∈ bfd_signals) sigs ->
  exists p',
    signals_arrive sigs (RUNNING p in_flight) = Some (RUNNING p' in_flight)
    /\ daemon_state p' = daemon_state p
    /\ master p' = Some (q ++ (sigs ≫= signal_event w))
    /\ log p' = log p ++ (sigs ≫= signal_log)
    /\ match in_flight with
       | m :: rest => advance w (RUNNING p' in_flight) = run_in_loop m p' rest
       | [] =>
           advance w (RUNNING p' [])
           = match q ++ (sigs ≫= signal_event w) with
             | THREAD_EVENT f :: queue =>
                 RUNNING (set_master (Some queue) p') (thread_steps w f)
             | THREAD_TERMINATE :: queue => ENDED (set_master (Some queue) p')
             | [] => RUNNING p' []
             end
       end.
Proof.
  intros Hq Hh Hsigs.
  assert (Harrive : exists p',
    signals_arrive sigs (RUNNING p in_flight) = Some (RUNNING p' in_flight)
    /\ daemon_state p' = daemon_state p
    /\ master p' = Some (q ++ (sigs ≫= signal_event w))
    /\ log p' = log p ++ (sigs ≫= signal_log)).
  { revert p q Hq Hh.
    induction Hsigs as [|sig sigs Hsig _ IH]; intros p q Hq Hh.
    - exists p. cbn. rewrite !app_nil_r. auto.
    - cbn [signals_arrive].
      rewrite (signal_arrives_bfd w p in_flight q sig Hq Hh Hsig).
      cbn [mbind option_bind].
      destruct (IH (set_master (Some (q ++ signal_event w sig))
                      (set_log (log p ++ signal_log sig) p))
                  (q ++ signal_event w sig) eq_refl Hh)
        as (p' & Hrun & Hstate & Hmaster & Hlog).
      exists p'. split; [exact Hrun|]. split; [exact Hstate|].
      rewrite Hmaster, Hlog. cbn [log set_master set_log].
      rewrite !bind_cons, !app_assoc. auto. }
  destruct Harrive as (p' & Hrun & Hstate & Hmaster & Hlog).
  exists p'. do 4 (split; [assumption|]).
  destruct in_flight as [|m rest]; [|reflexivity].
  cbn [advance]. rewrite Hmaster.
  destruct (q ++ _) as [|[f|] queue]; reflexivity.
Qed.

Lemma signal_handlers_only_enqueue_witness :
  let w := Scenario.world_with false true in
  let p := set_master (Some [THREAD_EVENT BFD_DISPATCHER_INIT]) Scenario.child in
  let m := Scenario.handler_step "packet decoded" in
  let rest := [Scenario.handler_step "session up"] in
  let sigs := [SIGHUP; SIGUSR1; SIGPIPE; SIGTERM] in
  exists p',
    signals_arrive sigs Scenario.busy_child = Some (RUNNING p' (m :: rest))
    /\ daemon_state p' = daemon_state p
    /\ master p'
       = Some [THREAD_EVENT BFD_DISPATCHER_INIT; THREAD_EVENT RELOAD_BFD_THREAD;
               THREAD_EVENT PRINT_BFD_THREAD; THREAD_TERMINATE]
    /\ log p' = log p ++ ["Printing BFD data for process(%d) on signal"]
    /\ advance w (RUNNING p' (m :: rest)) = run_in_loop m p' rest.
Proof.
  intros w p m rest sigs.
  destruct (signal_handlers_only_enqueue w p (m :: rest)
              [THREAD_EVENT BFD_DISPATCHER_INIT] sigs)
    as (p' & Hrun & Hstate & Hmaster & Hlog & Hnext).
  - reflexivity.
  - repeat split; vm_compute; reflexivity.
  - unfold sigs. repeat constructor; apply (bool_decide_unpack _); vm_compute; exact I.
  - exists p'. split; [exact Hrun|]. split; [exact Hstate|].
    split; [exact Hmaster|]. split; [exact Hlog|exact Hnext].
Defined.

(** A reload in a daemon that is not testing its configuration and has
    memory for the new data: it ends the process when the configuration
    check asked for fails, and has otherwise put the configuration read in
    place.  The descriptors are those the helpers have left. *)
Lemma reload_bfd_thread_run (w : world) (p : proc) (q : list thread_t) :
  config_test w = false ->
  alloc_bfd_data_ok w = true ->
  master p = Some q ->
  let g := init_global_data w (conf_global w) (global_data p) in
  if reload_check_config g && negb (is_config_ok (conf_status w))
  then exists p', reload_bfd_thread w p = Exits KEEPALIVED_EXIT_CONFIG p'
                  /\ bfd_data p' = None /\ global_data p' = None
                  /\ master p' = None
  else exists p', reload_bfd_thread w p = Returns tt p'
                  /\ bfd_data p' = Some (conf_bfd w)
                  /\ global_data p' = Some g
                  /\ old_bfd_data p' = None /\ old_global_data p' = None
                  /\ reload p' = false
                  /\ master p' = Some [THREAD_EVENT BFD_DISPATCHER_INIT]
                  /\ fds p'
                     = run_fd_ops (nofile p) (reload_helpers ≫= helper_fds w)
                         (fds p)
                  /\ nofile p' = nofile p
                  /\ bfd_vrrp_event_pipe p' = bfd_vrrp_event_pipe p
                  /\ bfd_checker_event_pipe p' = bfd_checker_event_pipe p.
Proof.
  intros Hct Halloc Hq g.
  unfold reload_bfd_thread, log_message, signal_set, thread_cleanup_master.
  repeat run_step. rewrite Hq.
  repeat run_step.
  match goal with |- context [start_bfd w _ ?x] =>
    destruct (start_bfd_reload w (global_data p) x [] Hct Halloc eq_refl eq_refl)
      as [Hexit Hret] end.
  fold g in Hexit, Hret.
  destruct (reload_check_config g && negb (is_config_ok (conf_status w))).
  - destruct (Hexit eq_refl) as (p' & -> & H). exists p'. tauto.
  - destruct (Hret eq_refl)
      as (p' & -> & H1 & H2 & H3 & H4 & H5 & H6 & H7 & H8 & H9 & H10).
    repeat run_step. eexists. split; [reflexivity|]. proc_simpl.
    rewrite H7, H8. proc_simpl.
    do 6 (split; [assumption || reflexivity|]).
    split; [|tauto].
    unfold reload_helpers, run_fd_ops. cbn [mbind list_bind foldr mret].
    rewrite !foldl_app. reflexivity.
Qed.

Lemma master_queue_taken (p : proc) (m : option (list thread_t)) :
  master p = Some [] ->
  set_master (Some []) (set_master m (set_log (log p ++ []) p)) = p.
Proof. intros Hm. rewrite app_nil_r. destruct p. cbn in *. now subst. Qed.

Ltac in_signals :=
  unfold bfd_signals;
  repeat first [ apply list_elem_of_here | apply list_elem_of_further ].




(** The sibling path: without memory for the BFD data the daemon stops
    with the fatal status. *)
Lemma start_bfd_alloc_failure (w : world) (prev : option data_t) (p : proc) :
  config_test w = false ->
  alloc_bfd_data_ok w = false ->
  exists p', start_bfd w prev p = Exits KEEPALIVED_EXIT_FATAL p'.
Proof.
  intros Hct Halloc. unfold start_bfd. rewrite Halloc. cbn [negb].
  repeat run_step.
  destruct (reload p); repeat run_step;
    match goal with |- context [stop_bfd ?ww ?st ?x] =>
      destruct (stop_bfd_exits ww st x Hct) as (p' & -> & _) end;
    eauto.
Qed.

(** C2, at the input where the code departs from it: the forked child that
    cannot write its pid file logs the failure and exits with status 0. *)
Theorem start_bfd_child_pidfile_exit_status :
  exists p',
    start_bfd_child Scenario.build (Scenario.world_with true false)
      Scenario.parent_with_pipes
    = Exits 0 p'
    /\ last (log p') = Some "BFD child process: cannot write pidfile".
Proof. vm_compute. eexists. split; reflexivity. Qed.


(** ** The descriptors of the child *)

Lemma pipe_fds_lookup (t : gmap nat fd_entry) (fd : nat) (e : fd_entry) :
  pipe_fds t !! fd = Some e <-> t !! fd = Some e /\ is_pipe e.
Proof. unfold pipe_fds. now rewrite map_lookup_filter_Some. Qed.

Lemma run_fd_ops_app (n : nat) (ops ops' : list fd_op)
    (t : gmap nat fd_entry) :
  run_fd_ops n (ops ++ ops') t = run_fd_ops n ops' (run_fd_ops n ops t).
Proof. apply foldl_app. Qed.

Lemma elem_of_fd_closes (fd : nat) (ops : list fd_op) :
  fd ∈ fd_closes ops <-> FD_CLOSE fd ∈ ops.
Proof.
  unfold fd_closes. rewrite list_elem_of_omap. split.
  - intros ([what|fd'] & Hin & Heq); [discriminate|]. now injection Heq as ->.
  - intros Hin. now exists (FD_CLOSE fd).
Qed.

(** A helper adds no descriptor of a pipe, and changes none. *)
Lemma run_fd_op_pipe (n : nat) (o : fd_op) (t : gmap nat fd_entry)
    (fd : nat) (e : fd_entry) :
  run_fd_op n o t !! fd = Some e -> is_pipe e -> t !! fd = Some e.
Proof.
  destruct o as [what|fd']; cbn [run_fd_op].
  - destruct (decide _); [|auto].
    destruct (decide (fd = lowest_free t)) as [->|Hne].
    + rewrite lookup_insert_eq. intros [= <-] Hpipe. destruct Hpipe.
    + rewrite lookup_insert_ne by auto. auto.
  - intros Hfd _. apply lookup_delete_Some in Hfd. tauto.
Qed.

Lemma run_fd_ops_pipe (n : nat) (ops : list fd_op) (t : gmap nat fd_entry)
    (fd : nat) (e : fd_entry) :
  run_fd_ops n ops t !! fd = Some e -> is_pipe e -> t !! fd = Some e.
Proof.
  revert t. induction ops as [|o ops IH]; intros t; [auto|].
  cbn [run_fd_ops foldl]. intros Hfd Hpipe.
  apply (run_fd_op_pipe n o); [|exact Hpipe]. now apply IH.
Qed.

(** A descriptor the helper does not close stays what it is. *)
Lemma run_fd_ops_kept (n : nat) (ops : list fd_op) (t : gmap nat fd_entry)
    (fd : nat) (e : fd_entry) :
  t !! fd = Some e -> fd ∉ fd_closes ops ->
  run_fd_ops n ops t !! fd = Some e.
Proof.
  revert t. induction ops as [|o ops IH]; intros t Hfd Hnot; [exact Hfd|].
  cbn [run_fd_ops foldl]. apply IH.
  - destruct o as [what|fd']; cbn [run_fd_op].
    + destruct (decide _); [|exact Hfd].
      rewrite lookup_insert_ne; [exact Hfd|].
      intros <-. rewrite lowest_free_None in Hfd. discriminate.
    + rewrite lookup_delete_ne; [exact Hfd|].
      intros ->. apply Hnot. apply elem_of_fd_closes. left.
  - intros Hin. apply Hnot. apply elem_of_fd_closes.
    right. now apply elem_of_fd_closes.
Qed.

(** A descriptor that has been closed on the way refers to no pipe
    afterwards. *)
Lemma run_fd_ops_closed (n : nat) (ops : list fd_op) (t : gmap nat fd_entry)
    (fd : nat) (e : fd_entry) :
  FD_CLOSE fd ∈ ops -> run_fd_ops n ops t !! fd = Some e -> ~ is_pipe e.
Proof.
  intros Hin Hfd Hpipe.
  apply list_elem_of_split in Hin as (ops1 & ops2 & ->).
  rewrite run_fd_ops_app in Hfd. cbn [run_fd_ops foldl run_fd_op] in Hfd.
  apply run_fd_ops_pipe in Hfd; [|exact Hpipe].
  rewrite lookup_delete_eq in Hfd. discriminate.
Qed.

Lemma close_nat_run (n : nat) (p : proc) :
  exists r,
    close (Z.of_nat n) p
    = Returns r (set_fds (run_fd_ops (nofile p) [FD_CLOSE n] (fds p)) p).
Proof.
  unfold close. rewrite Nat2Z.id. cbn [run_fd_ops foldl run_fd_op].
  destruct (decide _) as [Hopen|Hclosed].
  - now exists 0.
  - exists (-1). rewrite delete_id, set_fds_id; [reflexivity|].
    destruct (fds p !! n) eqn:E; [|reflexivity].
    exfalso. apply Hclosed. split; [lia|eauto].
Qed.

Lemma bfd_signal_init_run (b : build_config) (w : world) (p : proc) :
  exists S, bfd_signal_init b w p = Returns tt (set_signals S p).
Proof.
  unfold bfd_signal_init, signal_set, signal_ignore.
  destruct (ignore_sigint w), (THREAD_DUMP b); repeat run_step;
    eexists; reflexivity.
Qed.

(** How the parts of [start_bfd_child_init] compose. *)
Lemma table_run_trans (ops ops' : list fd_op) (p p1 p2 : proc) :
  table_run ops p p1 -> table_run ops' p1 p2 -> table_run (ops ++ ops') p p2.
Proof.
  intros (Hf & Hn & Hv & Hc & Hg) (Hf' & Hn' & Hv' & Hc' & Hg').
  unfold table_run. rewrite run_fd_ops_app, <- Hf, <- Hn.
  repeat split; congruence.
Qed.

Lemma acts_bind {A B} (m : M A) (k : A -> M B) (p p1 p2 : proc) (a : A)
    (r : B) (ops ops' : list fd_op) :
  acts m p a ops p1 -> acts (k a) p1 r ops' p2 ->
  acts (m ≫= k) p r (ops ++ ops') p2.
Proof.
  intros [Hm Ht] [Hk Ht']. split; [|exact (table_run_trans _ _ _ _ _ Ht Ht')].
  rewrite run_bind, Hm. exact Hk.
Qed.

Lemma acts_ret {A} (a : A) (p : proc) : acts (mret a) p a [] p.
Proof. repeat split. Qed.

Lemma acts_get {A} (f : proc -> A) (p : proc) : acts (get f) p (f p) [] p.
Proof. repeat split. Qed.

Lemma acts_external (w : world) (h : helper) (p : proc) :
  acts (external w h) p tt (helper_fds w h)
    (set_log (log p ++ helper_log w h)
       (set_fds (run_fd_ops (nofile p) (helper_fds w h) (fds p)) p)).
Proof. repeat split. Qed.

Lemma acts_log_message (line : string) (p : proc) :
  acts (log_message line) p tt [] (set_log (log p ++ [line]) p).
Proof. repeat split. Qed.

Lemma acts_set_master (m : option (list thread_t)) (p : proc) :
  acts (modify (set_master m)) p tt [] (set_master m p).
Proof. repeat split. Qed.

Lemma acts_set_reload (v : bool) (p : proc) :
  acts (modify (set_reload v)) p tt [] (set_reload v p).
Proof. repeat split. Qed.

Lemma acts_close (fd : Z) (p : proc) :
  acts (close fd) p
    (if decide (0 <= fd /\ is_Some (fds p !! Z.to_nat fd)) then 0 else -1)
    (close_ops fd)
    (set_fds (run_fd_ops (nofile p) (close_ops fd) (fds p)) p).
Proof.
  unfold acts, close, close_ops, table_run.
  destruct (decide (0 <= fd /\ _)) as [[Hfd Hopen]|Hclosed].
  - rewrite decide_True by exact Hfd. repeat split.
  - split; [|repeat split]. destruct (decide (0 <= fd)) as [Hfd|Hfd].
    + cbn [run_fd_ops foldl run_fd_op]. rewrite delete_id, set_fds_id;
        [reflexivity|].
      destruct (fds p !! Z.to_nat fd) eqn:E; [|reflexivity].
      exfalso. apply Hclosed. eauto.
    + cbn [run_fd_ops foldl]. now rewrite set_fds_id.
Qed.

Lemma acts_deref_global_data (p : proc) (g : data_t) :
  global_data p = Some g -> acts deref_global_data p g [] p.
Proof.
  intros Hg. split; [|repeat split].
  unfold deref_global_data. rewrite run_bind. cbn [get]. now rewrite Hg.
Qed.

Lemma acts_bfd_signal_init (b : build_config) (w : world) (p : proc) :
  exists S, acts (bfd_signal_init b w) p tt [] (set_signals S p).
Proof.
  destruct (bfd_signal_init_run b w p) as (S & HS). exists S.
  split; [exact HS|repeat split].
Qed.

Lemma acts_if {A} (c : bool) (m m' : M A) (p p1 p2 : proc) (a : A)
    (ops ops' : list fd_op) :
  (c = true -> acts m p a ops p1) -> (c = false -> acts m' p a ops' p2) ->
  acts (if c then m else m') p a (if c then ops else ops')
    (if c then p1 else p2).
Proof. destruct c; auto. Qed.

Lemma acts_global_data {A} (m : M A) (p p' : proc) (a : A)
    (ops : list fd_op) :
  acts m p a ops p' -> global_data p' = global_data p.
Proof. intros (_ & _ & _ & _ & _ & Hg). exact Hg. Qed.

Lemma acts_ops {A} (m : M A) (p p' : proc) (a : A) (ops ops' : list fd_op) :
  ops = ops' -> acts m p a ops p' -> acts m p a ops' p'.
Proof. now intros ->. Qed.

Lemma acts_pipes {A} (m : M A) (p p' : proc) (a : A) (ops : list fd_op) :
  acts m p a ops p' ->
  bfd_vrrp_event_pipe p' = bfd_vrrp_event_pipe p
  /\ bfd_checker_event_pipe p' = bfd_checker_event_pipe p.
Proof. intros (_ & _ & _ & Hv & Hc & _). auto. Qed.

Section ChildInit.
Variable b : build_config.
Variable w : world.

Lemma close_vrrp_read_end (x : proc) :
  exists x',
    acts (if WITH_VRRP b
          then vp ← get bfd_vrrp_event_pipe;
               close (fst vp) ;;
               (if WITH_TRACK_PROCESS b then external w CLOSE_TRACK_PROCESSES
                else mret tt)
          else mret tt) x tt
      (if WITH_VRRP b
       then close_ops (fst (bfd_vrrp_event_pipe x))
            ++ (if WITH_TRACK_PROCESS b
                then helper_fds w CLOSE_TRACK_PROCESSES else [])
       else []) x'.
Proof.
  destruct (WITH_VRRP b); [|eexists; apply acts_ret].
  destruct (WITH_TRACK_PROCESS b); eexists.
  all: refine (acts_bind _ _ _ _ _ _ _ [] _ (acts_get _ _) _).
  all: refine (acts_bind _ _ _ _ _ _ _ _ _ (acts_close _ _) _).
  - apply acts_external.
  - apply acts_ret.
Qed.

Lemma close_checker_read_end (x : proc) :
  exists x',
    acts (if WITH_LVS b
          then cp ← get bfd_checker_event_pipe;
               close (fst cp) ;; mret tt
          else mret tt) x tt
      (if WITH_LVS b then close_ops (fst (bfd_checker_event_pipe x)) else [])
      x'.
Proof.
  destruct (WITH_LVS b); [|eexists; apply acts_ret].
  eexists. eapply acts_ops; [apply app_nil_r|].
  refine (acts_bind _ _ _ _ _ _ _ [] _ (acts_get _ _) _).
  refine (acts_bind _ _ _ _ _ _ _ _ _ (acts_close _ _) _).
  apply acts_ret.
Qed.

Lemma open_syslog_acts (x : proc) :
  exists x',
    acts (if negb (no_syslog w) then external w OPEN_SYSLOG else mret tt)
      x tt (if negb (no_syslog w) then helper_fds w OPEN_SYSLOG else []) x'.
Proof.
  destruct (negb _); eexists; [apply acts_external|apply acts_ret].
Qed.

Lemma open_log_file_acts (x : proc) (g : data_t) :
  global_data x = Some g ->
  exists x',
    acts (if bool_decide (is_Some (log_file_name w))
          then deref_global_data ;; external w OPEN_LOG_FILE else mret tt)
      x tt
      (if bool_decide (is_Some (log_file_name w))
       then helper_fds w OPEN_LOG_FILE else []) x'.
Proof.
  intros Hg. destruct (bool_decide _); [|eexists; apply acts_ret].
  eexists.
  refine (acts_bind _ _ _ _ _ _ _ [] _ (acts_deref_global_data _ _ Hg) _).
  apply acts_external.
Qed.

Lemma new_master_acts (x : proc) :
  exists x',
    acts (external w THREAD_DESTROY_MASTER ;;
          external w THREAD_MAKE_MASTER ;;
          modify (set_master (Some [])) ;;
          (if chdir_root w <? 0
           then log_message "BFD child process: error chdir"
           else mret tt) ;;
          modify (set_reload false) ;;
          bfd_signal_init b w) x tt
      (helper_fds w THREAD_DESTROY_MASTER ++ helper_fds w THREAD_MAKE_MASTER)
      x'.
Proof.
  pose proof (acts_external w THREAD_DESTROY_MASTER x) as H1.
  match type of H1 with acts _ _ _ _ ?y => set (x1 := y) in * end.
  pose proof (acts_external w THREAD_MAKE_MASTER x1) as H2.
  match type of H2 with acts _ _ _ _ ?y => set (x2 := y) in * end.
  pose proof (acts_set_master (Some []) x2) as H3.
  assert (H4 : exists x4,
            acts (if chdir_root w <? 0
                  then log_message "BFD child process: error chdir"
                  else mret tt) (set_master (Some []) x2) tt [] x4)
    by (destruct (_ <? _); eexists; [apply acts_log_message|apply acts_ret]).
  destruct H4 as (x4 & H4).
  pose proof (acts_set_reload false x4) as H5.
  destruct (acts_bfd_signal_init b w (set_reload false x4)) as (S & H6).
  eexists.
  refine (acts_bind _ _ _ _ _ _ _ _ _ H1 _).
  eapply acts_ops; [apply app_nil_r|].
  refine (acts_bind _ _ _ _ _ _ _ _ _ H2 _).
  refine (acts_bind _ _ _ _ _ _ _ [] [] H3 _).
  refine (acts_bind _ _ _ _ _ _ _ [] [] H4 _).
  refine (acts_bind _ _ _ _ _ _ _ [] [] H5 _).
  exact H6.
Qed.

(** The child that can write its pid file comes to the start of the BFD
    daemon, having run the actions of [child_init_ops] on the descriptor
    table it has got from its parent. *)
Lemma start_bfd_child_init_acts (p : proc) (g : data_t) :
  pidfile_write_ok w = true ->
  global_data p = Some g ->
  exists p',
    acts (start_bfd_child_init b w) p tt (child_init_ops b w p) p'.
Proof.
  intros Hpid Hg. unfold start_bfd_child_init, child_init_ops.
  rewrite Hpid. cbn [negb].
  pose proof (acts_external w CLOSE_OTHER_PIDFILES p) as H1.
  match type of H1 with acts _ _ _ _ ?x => set (p1 := x) in * end.
  destruct (close_vrrp_read_end p1) as (p2 & H2).
  destruct (close_checker_read_end p2) as (p3 & H3).
  assert (Hg3 : global_data p3 = Some g).
  { rewrite (acts_global_data _ _ _ _ _ H3), (acts_global_data _ _ _ _ _ H2).
    exact Hg. }
  pose proof (acts_deref_global_data p3 g Hg3) as H4.
  destruct (open_syslog_acts p3) as (p5 & H5).
  assert (Hg5 : global_data p5 = Some g)
    by (now rewrite (acts_global_data _ _ _ _ _ H5)).
  destruct (open_log_file_acts p5 g Hg5) as (p6 & H6).
  pose proof (acts_external w SEPARATE_CONFIG_FILE p6) as H7.
  match type of H7 with acts _ _ _ _ ?x => set (p7 := x) in * end.
  pose proof (acts_external w PIDFILE_WRITE p7) as H8.
  match type of H8 with acts _ _ _ _ ?x => set (p8 := x) in * end.
  destruct (new_master_acts p8) as (p9 & H9).
  exists p9.
  assert (Hv2 : bfd_vrrp_event_pipe p1 = bfd_vrrp_event_pipe p) by reflexivity.
  assert (Hc3 : bfd_checker_event_pipe p2 = bfd_checker_event_pipe p).
  { rewrite (proj2 (acts_pipes _ _ _ _ _ H2)). reflexivity. }
  rewrite Hv2 in H2. rewrite Hc3 in H3.
  refine (acts_bind _ _ _ _ _ _ _ _ _ H1 _).
  refine (acts_bind _ _ _ _ _ _ _ _ _ H2 _).
  refine (acts_bind _ _ _ _ _ _ _ _ _ H3 _).
  refine (acts_bind _ _ _ _ _ _ _ [] _ H4 _).
  refine (acts_bind _ _ _ _ _ _ _ _ _ H5 _).
  refine (acts_bind _ _ _ _ _ _ _ _ _ H6 _).
  refine (acts_bind _ _ _ _ _ _ _ _ _ H7 _).
  refine (acts_bind _ _ _ _ _ _ _ _ _ H8 _).
  exact H9.
Qed.

End ChildInit.

Lemma close_ops_nat (n : nat) : close_ops (Z.of_nat n) = [FD_CLOSE n].
Proof.
  unfold close_ops. rewrite decide_True by lia. now rewrite Nat2Z.id.
Qed.

Lemma elem_of_helpers_close (w : world) (hs : list helper) (h : helper)
    (fd : nat) :
  h ∈ hs -> FD_CLOSE fd ∈ helper_fds w h -> fd ∈ helpers_close w hs.
Proof.
  intros Hh Hfd. unfold helpers_close. apply list_elem_of_bind.
  exists h. split; [now apply elem_of_fd_closes|exact Hh].
Qed.

(** What [start_bfd_child_init] closes: what its helpers close, and the
    read ends of the event pipes compiled in. *)
Lemma child_init_ops_closes (b : build_config) (w : world) (p : proc)
    (fd : nat) :
  FD_CLOSE fd ∈ child_init_ops b w p ->
  fd ∈ helpers_close w child_init_helpers
  \/ (WITH_VRRP b = true
      /\ FD_CLOSE fd ∈ close_ops (fst (bfd_vrrp_event_pipe p)))
  \/ (WITH_LVS b = true
      /\ FD_CLOSE fd ∈ close_ops (fst (bfd_checker_event_pipe p))).
Proof.
  assert (Hhelper : forall h, h ∈ child_init_helpers ->
            FD_CLOSE fd ∈ helper_fds w h ->
            fd ∈ helpers_close w child_init_helpers)
    by (intros h; apply elem_of_helpers_close).
  assert (Hin : forall h, In h child_init_helpers -> h ∈ child_init_helpers)
    by (intros h; apply list_elem_of_In).
  unfold child_init_ops. rewrite !elem_of_app.
  destruct (WITH_VRRP b), (WITH_LVS b), (WITH_TRACK_PROCESS b),
    (negb (no_syslog w)), (bool_decide (is_Some (log_file_name w)));
    rewrite ?elem_of_app, ?elem_of_nil;
    intuition (eauto 3;
               left; eapply Hhelper; [|eassumption]; apply Hin; cbn; tauto).
Qed.

Lemma child_init_ops_read_end (b : build_config) (w : world) (p : proc)
    (v : pipe_var) (rfd : nat) :
  pipe_enabled b v = true ->
  fst (get_pipe v p) = Z.of_nat rfd ->
  FD_CLOSE rfd ∈ child_init_ops b w p.
Proof.
  intros Hen Hfst. unfold child_init_ops. rewrite !elem_of_app.
  destruct v; cbn [pipe_enabled get_pipe] in Hen, Hfst; rewrite Hen, Hfst,
    close_ops_nat.
  - right. left. rewrite elem_of_app. left. apply list_elem_of_here.
  - right. right. left. apply list_elem_of_here.
Qed.

Lemma event_pipe_ends_differ (p : proc) (arr arr' : Z * Z) (id id' : nat) :
  event_pipe p arr id -> event_pipe p arr' id' ->
  snd arr <> fst arr'.
Proof.
  intros (rfd & wfd & er & ew & -> & Hr & Hrf & Hw & Hwf & _)
         (rfd' & wfd' & er' & ew' & -> & Hr' & Hrf' & _).
  cbn. intros Heq. apply Nat2Z.inj in Heq. subst wfd.
  rewrite Hw in Hr'. injection Hr' as <-. congruence.
Qed.

(** C6.  In the child ([fork] returned 0) that can write its pid file and
    has its [global_data], the code between the fork and the start of the
    BFD daemon returns, and [start_bfd] runs in the state it leaves.  For
    every event pipe compiled in whose two ends the array held in the
    parent, no descriptor of that state refers to the read end and the
    array is unchanged; its second element is still the open write end,
    provided none of the helpers called on the way closes a descriptor
    that is the write end of a pipe. *)
Theorem child_closes_read_ends (b : build_config) (w : world) (p : proc)
    (g : data_t) :
  fork_result w = 0 ->
  pidfile_write_ok w = true ->
  global_data p = Some g ->
  (forall v, pipe_enabled b v = true ->
             exists id, event_pipe p (get_pipe v p) id) ->
  exists p',
    start_bfd_child_init b w p = Returns tt p'
    /\ start_bfd_child b w p
       = (start_bfd w None ;; launch_thread_scheduler w ;;
          stop_bfd w EXIT_SUCCESS ;; exit EXIT_SUCCESS) p'
    /\ forall v pid,
         pipe_enabled b v = true ->
         event_pipe p (get_pipe v p) pid ->
         no_read_end p' pid
         /\ get_pipe v p' = get_pipe v p
         /\ (keeps_write_ends (helpers_close w child_init_helpers) p ->
             holds_write_end p' (snd (get_pipe v p')) pid).
Proof.
  intros Hfork Hpid Hg Hpipes.
  destruct (start_bfd_child_init_acts b w p g Hpid Hg)
    as (p' & Hinit & Hfds & _ & Hvp & Hcp & _).
  exists p'. split; [exact Hinit|]. split.
  { unfold start_bfd_child. rewrite Hfork. cbn [Z.ltb Z.eqb Z.compare negb].
    rewrite run_bind, Hinit. reflexivity. }
  intros v pid Hen Hev.
  assert (Hget : get_pipe v p' = get_pipe v p) by (destruct v; assumption).
  destruct Hev as (rfd & wfd & er & ew & Harr & Hr & Hrf & Hw & Hwf & Huniq).
  split; [|split; [exact Hget|]].
  - (* a read end still open would be that of the parent, which the child
       has closed *)
    intros fd e Hfd Hfile.
    assert (Hpipe : is_pipe e) by (unfold is_pipe; now rewrite Hfile).
    rewrite Hfds in Hfd.
    pose proof (run_fd_ops_pipe _ _ _ _ _ Hfd Hpipe) as Hparent.
    pose proof (Huniq fd e Hparent Hfile) as ->.
    apply (run_fd_ops_closed _ _ _ _ _ (child_init_ops_read_end b w p v rfd Hen
                                          ltac:(now rewrite Harr)) Hfd).
    exact Hpipe.
  - intros Hkeep. rewrite Hget, Harr. cbn [snd]. exists ew.
    split; [lia|]. rewrite Nat2Z.id. split; [|exact Hwf].
    rewrite Hfds. apply run_fd_ops_kept; [exact Hw|].
    rewrite elem_of_fd_closes. intros Hclosed.
    assert (Hev : event_pipe p (get_pipe v p) pid)
      by (exists rfd, wfd, er, ew; tauto).
    apply child_init_ops_closes in Hclosed
      as [Hhelper|[[Hen' Hc]|[Hen' Hc]]].
    + specialize (Hkeep wfd ew Hhelper Hw). unfold is_write_end in Hkeep.
      rewrite Hwf in Hkeep. discriminate.
    + destruct (Hpipes BFD_VRRP_EVENT_PIPE Hen') as (id' & Hev').
      apply (event_pipe_ends_differ p _ _ pid id' Hev Hev').
      destruct Hev' as (rfd' & ? & ? & ? & Harr' & _).
      cbn [get_pipe] in Harr' |- *. rewrite Harr' in Hc |- *. cbn [fst] in Hc.
      rewrite close_ops_nat in Hc. apply list_elem_of_singleton in Hc.
      injection Hc as ->. now rewrite Harr.
    + destruct (Hpipes BFD_CHECKER_EVENT_PIPE Hen') as (id' & Hev').
      apply (event_pipe_ends_differ p _ _ pid id' Hev Hev').
      destruct Hev' as (rfd' & ? & ? & ? & Harr' & _).
      cbn [get_pipe] in Harr' |- *. rewrite Harr' in Hc |- *. cbn [fst] in Hc.
      rewrite close_ops_nat in Hc. apply list_elem_of_singleton in Hc.
      injection Hc as ->. now rewrite Harr.
Qed.

(** ** open_bfd_pipes *)

Lemma open_pipe_cases (arr : pipe_var) (p : proc) :
  open_pipe arr p = Returns (-1) p
  \/ exists p', open_pipe arr p = Returns 0 p'
                /\ pipe2 arr (Z.lor O_CLOEXEC O_NONBLOCK) p = Returns 0 p'.
Proof.
  unfold open_pipe. rewrite run_bind.
  destruct (pipe2_cloexec_nonblock arr p) as [Hfail|(p' & Hok & _)].
  - left. now rewrite Hfail.
  - right. exists p'. now rewrite Hok.
Qed.

Lemma event_pipe_kept (arr' : pipe_var) (p p' : proc) (a : Z * Z) (id : nat) :
  pipe_added arr' p p' -> (id < next_pipe p)%nat ->
  event_pipe p a id -> event_pipe p' a id.
Proof.
  intros (_ & Hkeep & Hnew & _) Hid
         (rfd & wfd & er & ew & -> & Hr & Hrf & Hw & Hwf & Huniq).
  exists rfd, wfd, er, ew. repeat split; auto.
  intros fd e Hfd Hfile. destruct (Hnew fd e Hfd) as [Hold|(pe & Hpe)].
  - eauto.
  - rewrite Hfile in Hpe. injection Hpe as -> _. lia.
Qed.

Lemma nonblocking_pipe_kept (arr arr' : pipe_var) (p p' : proc) :
  arr <> arr' -> pipe_added arr' p p' ->
  nonblocking_pipe arr p -> nonblocking_pipe arr p'.
Proof.
  intros Hne (_ & Hkeep & _ & Hget)
         (rfd & wfd & er & ew & id & Harr & Hr & Hw & Hfiles).
  assert (Hwr : forall full, write (Z.of_nat wfd) full p'
                             = write (Z.of_nat wfd) full p).
  { intros full. unfold write. rewrite Nat2Z.id, Hw, (Hkeep wfd ew Hw).
    reflexivity. }
  exists rfd, wfd, er, ew, id. rewrite (Hget arr Hne).
  split; [exact Harr|]. split; [auto|]. split; [auto|].
  destruct Hfiles as (? & ? & ? & ? & ? & ? & Hnb & Hea).
  do 6 (split; [assumption|]).
  split; [intros full; rewrite Hwr; apply Hnb|now rewrite Hwr].
Qed.

Lemma event_pipe_id_below (p : proc) (a : Z * Z) (id : nat) :
  pipe_ids_below p -> event_pipe p a id -> (id < next_pipe p)%nat.
Proof.
  intros Hbelow (rfd & wfd & er & ew & _ & Hr & Hrf & _). eauto.
Qed.

(** When [open_bfd_pipes] returns true, every event pipe compiled in is
    open in its array, both ends with O_NONBLOCK and O_CLOEXEC. *)
Lemma open_bfd_pipes_opens (b : build_config) (p : proc) :
  pipe_ids_below p ->
  exists ok p',
    open_bfd_pipes b p = Returns ok p'
    /\ (ok = true ->
        forall v, pipe_enabled b v = true ->
                  nonblocking_pipe v p'
                  /\ exists id, event_pipe p' (get_pipe v p') id).
Proof.
  intros Hbelow. unfold open_bfd_pipes, log_message.
  destruct (WITH_VRRP b) eqn:Ev.
  - repeat rewrite run_bind.
    destruct (open_pipe_cases BFD_VRRP_EVENT_PIPE p) as [->|(p1 & -> & Hp1)].
    { repeat run_step. eexists _, _. split; [reflexivity|]. discriminate. }
    destruct (pipe2_success _ _ _ Hp1) as (Hadd1 & Hb1 & He1 & Hn1).
    specialize (Hb1 Hbelow). specialize (He1 Hbelow).
    repeat run_step. cbn [negb Z.eqb].
    destruct (WITH_LVS b) eqn:Ec.
    + repeat rewrite run_bind.
      destruct (open_pipe_cases BFD_CHECKER_EVENT_PIPE p1) as [->|(p2 & -> & Hp2)].
      { repeat run_step. eexists _, _. split; [reflexivity|]. discriminate. }
      destruct (pipe2_success _ _ _ Hp2) as (Hadd2 & Hb2 & He2 & Hn2).
      specialize (He2 Hb1).
      repeat run_step. cbn [negb Z.eqb].
      eexists _, _. split; [reflexivity|]. intros _ [|] _.
      * assert (Hvc : BFD_VRRP_EVENT_PIPE <> BFD_CHECKER_EVENT_PIPE)
          by discriminate.
        split; [apply (nonblocking_pipe_kept _ _ _ _ Hvc Hadd2 Hn1)|].
        exists (next_pipe p).
        assert (Hget : get_pipe BFD_VRRP_EVENT_PIPE p2
                       = get_pipe BFD_VRRP_EVENT_PIPE p1)
          by (destruct Hadd2 as (_ & _ & _ & Hg); now apply Hg).
        rewrite Hget.
        eapply event_pipe_kept; [exact Hadd2| |exact He1].
        now apply (event_pipe_id_below p1 _ _ Hb1 He1).
      * split; [exact Hn2|eauto].
    + repeat run_step. cbn [negb].
      eexists _, _. split; [reflexivity|]. intros _ [|] Hen;
        [|cbn in Hen; congruence].
      split; [exact Hn1|eauto].
  - repeat run_step. cbn [negb].
    destruct (WITH_LVS b) eqn:Ec.
    + repeat rewrite run_bind.
      destruct (open_pipe_cases BFD_CHECKER_EVENT_PIPE p) as [->|(p2 & -> & Hp2)].
      { repeat run_step. eexists _, _. split; [reflexivity|]. discriminate. }
      destruct (pipe2_success _ _ _ Hp2) as (Hadd2 & Hb2 & He2 & Hn2).
      specialize (He2 Hbelow).
      repeat run_step. cbn [negb Z.eqb].
      eexists _, _. split; [reflexivity|]. intros _ [|] Hen;
        [cbn in Hen; congruence|].
      split; [exact Hn2|eauto].
    + repeat run_step. cbn [negb].
      eexists _, _. split; [reflexivity|]. intros _ [|] Hen;
        cbn in Hen; congruence.
Qed.

(** ** The concrete daemon *)

Lemma scenario_parent_ids : pipe_ids_below Scenario.parent.
Proof.
  intros fd e id pe Hfd Hfile. unfold Scenario.parent in Hfd. cbn [fds] in Hfd.
  repeat (apply lookup_insert_Some in Hfd as [[_ <-]|[_ Hfd]];
          [discriminate Hfile|]).
  rewrite lookup_empty in Hfd. discriminate.
Qed.

Lemma scenario_event_pipes (v : pipe_var) :
  pipe_enabled Scenario.build v = true ->
  exists id,
    event_pipe Scenario.parent_with_pipes
      (get_pipe v Scenario.parent_with_pipes) id.
Proof.
  intros Hen.
  destruct (open_bfd_pipes_opens Scenario.build Scenario.parent
              scenario_parent_ids) as (ok & p' & Heq & Hopen).
  unfold Scenario.parent_with_pipes. rewrite Heq.
  assert (Hok : ok = true).
  { assert (Hc : exists q, open_bfd_pipes Scenario.build Scenario.parent
                           = Returns true q)
      by (vm_compute; eauto).
    destruct Hc as (q & Hq). rewrite Hq in Heq. now injection Heq. }
  now apply Hopen.
Qed.

Lemma scenario_keeps_write_ends :
  keeps_write_ends
    (helpers_close (Scenario.world_with true true) child_init_helpers)
    Scenario.parent_with_pipes.
Proof.
  intros fd e Hfd He.
  change (fd ∈ [3; 4; 5]%nat) in Hfd.
  rewrite !elem_of_cons, elem_of_nil in Hfd.
  destruct Hfd as [-> | [-> | [-> | []]]];
    vm_compute in He; injection He as <-; reflexivity.
Qed.

Lemma child_closes_read_ends_witness :
  exists p',
    start_bfd_child_init Scenario.build (Scenario.world_with true true)
      Scenario.parent_with_pipes = Returns tt p'
    /\ forall v pid,
         pipe_enabled Scenario.build v = true ->
         event_pipe Scenario.parent_with_pipes
           (get_pipe v Scenario.parent_with_pipes) pid ->
         no_read_end p' pid
         /\ holds_write_end p' (snd (get_pipe v p')) pid.
Proof.
  destruct (child_closes_read_ends Scenario.build (Scenario.world_with true true)
              Scenario.parent_with_pipes Scenario.live_global
              eq_refl eq_refl eq_refl scenario_event_pipes)
    as (p' & Hinit & _ & Hends).
  exists p'. split; [exact Hinit|].
  intros v pid Hen Hev. destruct (Hends v pid Hen Hev) as (H1 & _ & H2).
  split; [exact H1|]. apply H2. exact scenario_keeps_write_ends.
Defined.
End BfdFacts.

(* ===================================================================== *)
(** * More properties of lib/utils                                        *)
(* ===================================================================== *)

Module UtilsExtFacts.
Import Utils UtilsExt.

Lemma byte_val_of_Z (z : Z) : byte_val (byte_of_Z z) = z mod 256.
Proof.
  unfold byte_of_Z, byte_val.
  pose proof (Z.mod_pos_bound z 256 ltac:(lia)) as Hr.
  destruct (Byte.of_N (Z.to_N (z mod 256))) as [b|] eqn:Hb.
  - apply Byte.to_of_N in Hb. rewrite Hb. lia.
  - apply Byte.of_N_None_iff in Hb. lia.
Qed.

Lemma byte_of_Z_val (b : byte) : byte_of_Z (byte_val b) = b.
Proof.
  apply UtilsFacts.byte_val_inj. rewrite byte_val_of_Z.
  pose proof (UtilsFacts.byte_val_range b). apply Z.mod_small. lia.
Qed.

Lemma csum_fold_spec (s : Z) :
  0 <= s < 2 ^ 32 ->
  exists f, csum_fold s = 65535 - f /\ 0 <= f <= 65535
            /\ (s - f) mod 65535 = 0 /\ (f = 0 <-> s = 0).
Proof.
  intros Hs. unfold csum_fold, to_uint32, to_uint16.
  change 0xffff with (Z.ones 16). rewrite !Z.land_ones by lia.
  rewrite !Z.shiftr_div_pow2 by lia. change (Z.ones 16) with 65535.
  change (2 ^ 16) with 65536 in *. change (2 ^ 32) with 4294967296 in *.
  set (h := s / 65536). set (l := s mod 65536).
  assert (Hh : 0 <= h < 65536) by (subst h; split; [apply Z.div_pos; lia | apply Z.div_lt_upper_bound; lia]).
  assert (Hl : 0 <= l < 65536) by (subst l; apply Z.mod_pos_bound; lia).
  assert (Hsl : s = 65536 * h + l) by (subst h l; apply Z.div_mod; lia).
  rewrite (Z.mod_small (h + l)) by lia.
  set (c := (h + l) / 65536).
  assert (Hc : c = 0 /\ h + l < 65536 \/ c = 1 /\ 65536 <= h + l).
  { subst c. destruct (Z_lt_le_dec (h + l) 65536).
    - left. split; [apply Z.div_small; lia | lia].
    - right. split; [|lia]. symmetry. apply (Z.div_unique _ _ _ (h + l - 65536)); lia. }
  rewrite (Z.mod_small (h + l + c)) by lia.
  unfold Z.lnot. 
  set (s2 := h + l + c).
  assert (Hn : Z.pred (- s2) mod 4294967296 = 4294967295 - s2).
  { symmetry. apply (Z.mod_unique _ _ (-1)); lia. }
  rewrite Hn.
  set (f := s2 mod 65536).
  assert (Hf : 0 <= f < 65536) by (subst f; apply Z.mod_pos_bound; lia).
  assert (Hm : (4294967295 - s2) mod 65536 = 65535 - f).
  { symmetry. pose proof (Z.div_mod s2 65536 ltac:(lia)) as Hd. fold f in Hd.
    apply (Z.mod_unique _ _ (65535 - s2 / 65536)); lia. }
  rewrite Hm. rewrite (Z.mod_small (65535 - f)) by lia.
  assert (Hfv : f = h + l /\ c = 0 \/ f = h + l + 1 - 65536 /\ c = 1).
  { destruct Hc as [[Hc0 Hlt]|[Hc1 Hge]].
    - left. split; [|exact Hc0]. subst f s2. rewrite Hc0, Z.add_0_r.
      apply Z.mod_small. lia.
    - right. split; [|exact Hc1]. subst f s2. rewrite Hc1. symmetry.
      apply (Z.mod_unique _ _ 1); lia. }
  clearbody f s2 c h l.
  exists f. split; [reflexivity|]. split; [lia|].
  split.
  - destruct Hfv as [[-> _]|[-> _]].
    + replace (s - (h + l)) with (h * 65535) by lia. apply Z.mod_mul. lia.
    + replace (s - (h + l + 1 - 65536)) with ((h + 1) * 65535) by lia.
      apply Z.mod_mul. lia.
  - lia.
Qed.

(** Induction on a list two elements at a time. *)
Lemma list_pair_ind {A} (P : list A -> Prop) :
  P [] -> (forall a, P [a]) -> (forall a b l, P l -> P (a :: b :: l)) ->
  forall l, P l.
Proof.
  intros H0 H1 H2 l.
  assert (H : P l /\ forall a, P (a :: l)); [|apply H].
  induction l as [|x l [IH1 IH2]]; split; auto.
Qed.

Lemma Even_length_cons2 {A} (a b : A) (l : list A) :
  Nat.Even (length (a :: b :: l)) <-> Nat.Even (length l).
Proof.
  cbn [length]. rewrite !Nat.Even_succ, Nat.Odd_succ. reflexivity.
Qed.

Lemma fold_words_app (be : bool) (l1 l2 : list byte) :
  Nat.Even (length l1) ->
  forall sum, fold_words be (l1 ++ l2) sum
              = fold_words be l2 (fold_words be l1 sum).
Proof.
  induction l1 as [|a|a b l1 IH] using list_pair_ind; intros Hev sum.
  - reflexivity.
  - destruct Hev as [k Hk]. cbn [length] in Hk. lia.
  - apply Even_length_cons2 in Hev. cbn [app fold_words]. apply IH, Hev.
Qed.

Lemma words_sum_app (be : bool) (l1 l2 : list byte) :
  Nat.Even (length l1) ->
  words_sum be (l1 ++ l2) = words_sum be l1 + words_sum be l2.
Proof.
  induction l1 as [|a|a b l1 IH] using list_pair_ind; intros Hev.
  - reflexivity.
  - destruct Hev as [k Hk]. cbn [length] in Hk. lia.
  - apply Even_length_cons2 in Hev. cbn [app words_sum].
    rewrite IH by exact Hev. lia.
Qed.

Lemma uint16_of_bytes_range (be : bool) (b0 b1 : byte) :
  0 <= uint16_of_bytes be b0 b1 <= 65535.
Proof.
  pose proof (UtilsFacts.byte_val_range b0).
  pose proof (UtilsFacts.byte_val_range b1).
  unfold uint16_of_bytes. destruct be; lia.
Qed.

Lemma htons_odd_byte (be : bool) (b : byte) :
  htons be (Z.shiftl (byte_val b) 8) = uint16_of_bytes be b x00.
Proof. destruct be, b; reflexivity. Qed.

Lemma words_sum_range (be : bool) (l : list byte) :
  0 <= words_sum be l /\ 2 * words_sum be l <= 65535 * (Z.of_nat (length l) + 1).
Proof.
  induction l as [|a|a b l IH] using list_pair_ind; cbn [words_sum length].
  - lia.
  - pose proof (uint16_of_bytes_range be a x00). lia.
  - pose proof (uint16_of_bytes_range be a b). lia.
Qed.

Lemma fold_words_sum (be : bool) (l : list byte) :
  forall sum, 0 <= sum -> sum + words_sum be l < 2 ^ 32 ->
              fold_words be l sum = sum + words_sum be l.
Proof.
  induction l as [|a|a b l IH] using list_pair_ind;
    intros sum H0 Hlt; cbn [words_sum fold_words] in *.
  - lia.
  - rewrite htons_odd_byte. apply Z.mod_small.
    pose proof (uint16_of_bytes_range be a x00). lia.
  - pose proof (uint16_of_bytes_range be a b).
    pose proof (words_sum_range be l).
    unfold to_uint32. rewrite Z.mod_small by lia.
    rewrite IH by lia. lia.
Qed.

Section InCsumSum.
Variable big_endian : bool.
Variable mem : list byte.

Lemma in_csum_alias_loop_fold (n : nat) :
  forall (w : nat) (sum : Z),
    ((2 * w + n <= length mem)%nat ->
     in_csum_alias_loop big_endian mem n w sum
     = Some (n mod 2, w + n / 2,
             fold_words big_endian (take (n - n mod 2) (drop (2 * w) mem))
               sum)%nat)
    /\ ((2 * w + S n <= length mem)%nat ->
        in_csum_alias_loop big_endian mem (S n) w sum
        = Some (S n mod 2, w + S n / 2,
                fold_words big_endian
                  (take (S n - S n mod 2) (drop (2 * w) mem)) sum)%nat).
Proof.
  induction n as [|n IH]; intros w sum.
  - split; intros H; cbn; rewrite ?Nat.add_0_r; reflexivity.
  - split; [apply IH|]. intros H.
    cbn [in_csum_alias_loop]. unfold deref_uint16.
    destruct (lookup_lt_is_Some_2 mem (2 * w)) as [b0 Hb0]; [lia|].
    destruct (lookup_lt_is_Some_2 mem (2 * w + 1)) as [b1 Hb1]; [lia|].
    rewrite Hb0, Hb1. cbn [mbind option_bind].
    destruct (IH (S w) (to_uint32 (sum + uint16_of_bytes big_endian b0 b1)))
      as [IH0 _].
    rewrite IH0 by lia.
    assert (Hmod : (S (S n) mod 2 = n mod 2)%nat).
    { change (S (S n)) with (2 + n)%nat.
      rewrite <- (Nat.Div0.add_mod_idemp_l 2 n 2). reflexivity. }
    assert (Hdiv : (S (S n) / 2 = S (n / 2))%nat).
    { change (S (S n)) with (1 * 2 + n)%nat.
      rewrite Nat.div_add_l by lia. lia. }
    rewrite Hmod, Hdiv.
    assert (Hle : (n mod 2 <= n)%nat) by (apply Nat.Div0.mod_le).
    replace (S (S n) - n mod 2)%nat with (S (S (n - n mod 2))) by lia.
    rewrite (drop_S _ _ _ Hb0).
    rewrite (drop_S mem b1 (S (2 * w))) by (rewrite <- Hb1; f_equal; lia).
    cbn [take fold_words].
    replace (S (S (2 * w))) with (2 * S w)%nat by lia.
    do 3 f_equal. lia.
Qed.

Lemma in_csum_alias_fold (len : nat) (csum : Z) (acc : bool) :
  (len <= length mem)%nat ->
  in_csum_alias big_endian mem len csum acc
  = Some (csum_fold (fold_words big_endian (take len mem) csum),
          if acc then Some (fold_words big_endian (take len mem) csum)
          else None).
Proof.
  intros Hlen. unfold in_csum_alias.
  destruct (in_csum_alias_loop_fold len 0 csum) as [Hloop _].
  rewrite Hloop by lia. clear Hloop. cbn [mbind option_bind drop].
  pose proof (Nat.div_mod_eq len 2) as Hdm.
  pose proof (Nat.mod_upper_bound len 2 ltac:(lia)) as Hm.
  destruct (decide ((len mod 2)%nat = 1%nat)) as [Hodd|Heven].
  - destruct (lookup_lt_is_Some_2 mem (2 * (0 + len / 2))) as [b Hb]; [lia|].
    rewrite Hb. cbn [mbind option_bind].
    assert (Htake : take len mem = take (len - len mod 2) mem ++ [b]).
    { replace len with (S (len - len mod 2)) at 1 by lia.
      erewrite take_S_r; [reflexivity|]. rewrite <- Hb. f_equal. lia. }
    rewrite Htake, fold_words_app.
    + reflexivity.
    + rewrite length_take. exists (len / 2)%nat. lia.
  - replace (len - len mod 2)%nat with len by lia. reflexivity.
Qed.
End InCsumSum.

Lemma in_csum_fold (use_memcpy be : bool) (mem : list byte) (len : nat)
    (csum : Z) (acc : bool) :
  (len <= length mem)%nat ->
  in_csum use_memcpy be mem len csum acc
  = Some (csum_fold (fold_words be (take len mem) csum),
          if acc then Some (fold_words be (take len mem) csum) else None).
Proof.
  intros Hlen. unfold in_csum.
  rewrite UtilsFacts.in_csum_variants_equal, in_csum_alias_fold by exact Hlen.
  destruct use_memcpy; reflexivity.
Qed.

(** X1.  [in_csum] can be run over a packet in pieces: when the first piece
    has an even length, the accumulator it stores through [acc], passed as
    the initial [csum] of the run over the second piece, gives the checksum
    and the accumulator of one run over the two pieces laid end to end. *)
Theorem in_csum_in_pieces (use_memcpy be : bool) (mem1 mem2 : list byte)
    (len1 len2 : nat) (csum answer1 acc1 : Z) (acc : bool) :
  Nat.Even len1 ->
  (len1 <= length mem1)%nat ->
  (len2 <= length mem2)%nat ->
  in_csum use_memcpy be mem1 len1 csum true = Some (answer1, Some acc1) ->
  in_csum use_memcpy be mem2 len2 acc1 acc
  = in_csum use_memcpy be (take len1 mem1 ++ mem2) (len1 + len2) csum acc.
Proof.
  intros Hev H1 H2 Hfirst.
  rewrite in_csum_fold in Hfirst by exact H1.
  injection Hfirst as _ Hacc1.
  rewrite !in_csum_fold by (rewrite ?length_app, ?length_take; lia).
  assert (Htake : take (len1 + len2) (take len1 mem1 ++ mem2)
                  = take len1 mem1 ++ take len2 mem2).
  { rewrite take_app. rewrite length_take.
    replace (len1 `min` length mem1)%nat with len1 by lia.
    rewrite take_take. replace ((len1 + len2) `min` len1)%nat with len1 by lia.
    do 2 f_equal. lia. }
  rewrite Htake, fold_words_app, Hacc1; [reflexivity|].
  rewrite length_take. replace (len1 `min` length mem1)%nat with len1 by lia.
  exact Hev.
Qed.

Lemma in_csum_in_pieces_witness :
  in_csum false false [x0a; x00; x00; x01] 4 0 true
  = Some (65269, Some 266)
  /\ in_csum false false [x45; x00; x01] 3 266 false
     = in_csum false false (take 4 [x0a; x00; x00; x01] ++ [x45; x00; x01])
         (4 + 3) 0 false.
Proof.
  split; [reflexivity|].
  apply (in_csum_in_pieces false false [x0a; x00; x00; x01] [x45; x00; x01]
           4 3 0 65269 266 false).
  - exists 2%nat. reflexivity.
  - simpl. lia.
  - simpl. lia.
  - reflexivity.
Defined.

Lemma in_csum_words (use_memcpy be : bool) (mem : list byte) :
  Z.of_nat (length mem) <= 2 ^ 17 ->
  in_csum use_memcpy be mem (length mem) 0 false
  = Some (csum_fold (words_sum be mem), None)
  /\ 0 <= words_sum be mem < 2 ^ 32.
Proof.
  intros Hlen. pose proof (words_sum_range be mem) as Hr.
  assert (Hlt : words_sum be mem < 2 ^ 32) by lia.
  split; [|lia].
  rewrite in_csum_fold by lia. rewrite firstn_all.
  rewrite fold_words_sum by lia. reflexivity.
Qed.

Lemma words_sum_field (be : bool) (pre post : list byte) (b0 b1 : byte) :
  Nat.Even (length pre) ->
  words_sum be (pre ++ [b0; b1] ++ post)
  = words_sum be pre + uint16_of_bytes be b0 b1 + words_sum be post.
Proof.
  intros Hev. rewrite words_sum_app by exact Hev. cbn [app words_sum]. lia.
Qed.

Lemma uint16_object_bytes (be : bool) (v : Z) :
  0 <= v < 2 ^ 16 ->
  exists b0 b1, uint16_object be v = [b0; b1]
                /\ uint16_of_bytes be b0 b1 = v.
Proof.
  intros Hv. unfold uint16_object, uint16_of_bytes.
  assert (Hhi : (v / 256) mod 256 = v / 256).
  { apply Z.mod_small. split; [apply Z.div_pos; lia|].
    apply Z.div_lt_upper_bound; lia. }
  pose proof (Z.div_mod v 256 ltac:(lia)) as Hdm.
  destruct be; eexists _, _; (split; [reflexivity|]);
    rewrite !byte_val_of_Z, Hhi; lia.
Qed.

Lemma mod_65535_eq (x y : Z) :
  (x - y) mod 65535 = 0 -> 1 <= x <= 65535 -> 1 <= y <= 65535 -> x = y.
Proof.
  intros Hm Hx Hy. apply Z.mod_divide in Hm; [|lia].
  destruct Hm as [k Hk]. lia.
Qed.

(** X2.  A checksum computed by [in_csum] over a packet whose checksum
    field is zero, once stored in that field, makes [in_csum] over the
    packet return 0: the test a receiver makes.  The field lies at an even
    offset and the packet holds at most 2^17 bytes, so that the 32-bit
    accumulator does not wrap. *)
Theorem in_csum_verifies (use_memcpy be : bool) (pre post : list byte)
    (c : Z) :
  let zeroed := pre ++ [x00; x00] ++ post in
  let filled := pre ++ uint16_object be c ++ post in
  Nat.Even (length pre) ->
  Z.of_nat (length zeroed) <= 2 ^ 17 ->
  in_csum use_memcpy be zeroed (length zeroed) 0 false = Some (c, None) ->
  in_csum use_memcpy be filled (length filled) 0 false = Some (0, None).
Proof.
  intros zeroed filled Hev Hlen Hc.
  destruct (in_csum_words use_memcpy be zeroed Hlen) as [Hz Hzr].
  rewrite Hz in Hc. injection Hc as Hc.
  destruct (csum_fold_spec _ Hzr) as (f & Hf & Hfr & Hfm & Hf0).
  destruct (uint16_object_bytes be c) as (b0 & b1 & Hobj & Hval);
    [rewrite <- Hc, Hf; change (2 ^ 16) with 65536; lia|].
  subst filled. rewrite Hobj.
  assert (Hlen' : Z.of_nat (length (pre ++ [b0; b1] ++ post)) <= 2 ^ 17).
  { subst zeroed. rewrite !length_app in *. exact Hlen. }
  destruct (in_csum_words use_memcpy be _ Hlen') as [Hfil Hfilr].
  rewrite Hfil. do 2 f_equal.
  destruct (csum_fold_spec _ Hfilr) as (f' & Hf' & Hfr' & Hfm' & Hf0').
  rewrite Hf'. rewrite words_sum_field in * by exact Hev.
  subst zeroed. rewrite words_sum_field in * by exact Hev.
  assert (Hz0 : uint16_of_bytes be x00 x00 = 0) by (destruct be; reflexivity).
  rewrite Hz0 in *. rewrite Hval in *.
  set (S := words_sum be pre + 0 + words_sum be post) in *.
  replace (words_sum be pre + c + words_sum be post) with (S + c) in *
    by (subst S; lia).
  clearbody S. clear Hz Hfil Hobj Hval Hz0.
  apply Z.mod_divide in Hfm; [|lia]. destruct Hfm as [k Hk].
  assert (Hm : (f' - 65535) mod 65535 = 0).
  { apply Z.mod_divide; [lia|].
    apply Z.mod_divide in Hfm'; [|lia]. destruct Hfm' as [k' Hk'].
    exists (k - k'). lia. }
  assert (f' = 65535); [|lia].
  apply mod_65535_eq; [exact Hm| |lia].
  destruct (decide (f' = 0)) as [Hz|]; [|lia].
  apply Hf0' in Hz. assert (S = 0) by lia. apply Hf0 in H. lia.
Qed.

Lemma in_csum_verifies_witness :
  in_csum false false
    ([x45; x00; x00; x1c; x00; x00; x40; x00; x40; x70] ++ [x00; x00]
     ++ [x0a; x00; x00; x01; xe0; x00; x00; x12]) 20 0 false
  = Some (24400, None)
  /\ in_csum false false
       ([x45; x00; x00; x1c; x00; x00; x40; x00; x40; x70]
        ++ uint16_object false 24400
        ++ [x0a; x00; x00; x01; xe0; x00; x00; x12]) 20 0 false
     = Some (0, None).
Proof.
  split; [reflexivity|].
  apply (in_csum_verifies false false
           [x45; x00; x00; x1c; x00; x00; x40; x00; x40; x70]
           [x0a; x00; x00; x01; xe0; x00; x00; x12] 24400).
  - exists 5%nat. reflexivity.
  - simpl. lia.
  - reflexivity.
Defined.

Lemma land_lnot_uint16 (v : Z) :
  0 <= v < 2 ^ 16 -> Z.land (Z.lnot v) 0xffff = 65535 - v.
Proof.
  intros Hv. change 0xffff with (Z.ones 16). rewrite Z.land_ones by lia.
  change (Z.ones 16) with 65535. unfold Z.lnot. symmetry. apply (Z.mod_unique _ _ (-1)); lia.
Qed.

Lemma land_lnot_uint32 (v : Z) :
  0 <= v < 2 ^ 32 ->
  Z.land (to_uint32 (Z.lnot v)) 0xffff = 65535 - v mod 2 ^ 16.
Proof.
  intros Hv. change 0xffff with (Z.ones 16). rewrite Z.land_ones by lia.
  change (Z.ones 16) with 65535. unfold Z.lnot, to_uint32.
  replace (Z.pred (- v) mod 2 ^ 32) with (2 ^ 32 - 1 - v)
    by (apply (Z.mod_unique _ _ (-1)); lia).
  pose proof (Z.div_mod v (2 ^ 16) ltac:(lia)) as Hdm.
  pose proof (Z.mod_pos_bound v (2 ^ 16) ltac:(lia)) as Hm.
  symmetry. apply (Z.mod_unique _ _ (65535 - v / 2 ^ 16)); lia.
Qed.

(** The arithmetic of RFC 1624: an accumulator congruent to the new sum
    folds to the checksum of the new sum, up to the two zeros of one's
    complement arithmetic. *)
Lemma csum_fold_congruent (S' acc : Z) :
  0 <= S' < 2 ^ 32 -> 0 < acc < 2 ^ 32 ->
  (acc - S') mod 65535 = 0 ->
  csum_fold acc = if decide (csum_fold S' = 0xffff) then 0 else csum_fold S'.
Proof.
  intros HS Hacc Hm.
  destruct (csum_fold_spec S' HS) as (f' & Hf' & Hfr' & Hfm' & Hf0').
  destruct (csum_fold_spec acc ltac:(lia)) as (fa & Hfa & Hfra & Hfma & Hfa0).
  rewrite Hf', Hfa.
  apply Z.mod_divide in Hm; [|lia]. destruct Hm as [k Hk].
  apply Z.mod_divide in Hfm'; [|lia]. destruct Hfm' as [k' Hk'].
  apply Z.mod_divide in Hfma; [|lia]. destruct Hfma as [ka Hka].
  assert (Hfa1 : 1 <= fa) by lia.
  case_decide as Hz.
  - assert (fa = 65535); [|lia].
    apply mod_65535_eq; [|lia|lia].
    apply Z.mod_divide; [lia|]. exists (- ka + k + k' - 1). lia.
  - assert (fa = f'); [|lia].
    apply mod_65535_eq; [|lia|lia].
    apply Z.mod_divide; [lia|]. exists (- ka + k + k'). lia.
Qed.

Lemma csum_incremental_update16_fold (c m m' : Z) :
  0 <= c < 2 ^ 16 -> 0 <= m < 2 ^ 16 -> 0 <= m' < 2 ^ 16 -> m <> m' ->
  csum_incremental_update16 c m m'
  = csum_fold (65535 - c + (65535 - m) + m').
Proof.
  intros Hc Hm Hm' Hne. unfold csum_incremental_update16.
  rewrite decide_False by exact Hne.
  rewrite !land_lnot_uint16 by lia. unfold csum_fold.
  assert (H1 : to_uint32 (65535 - c + (65535 - m)) = 65535 - c + (65535 - m))
    by (apply Z.mod_small; lia).
  rewrite H1.
  assert (H2 : to_uint32 (65535 - c + (65535 - m) + m')
               = 65535 - c + (65535 - m) + m') by (apply Z.mod_small; lia).
  rewrite H2.
  rewrite (Z.add_comm (Z.land _ _) (Z.shiftr _ _)). reflexivity.
Qed.

(** X3.  [csum_incremental_update16] agrees with recomputation on a packet
    of at most 2^17 bytes: given the checksum of the packet and the old and
    new value of one of its 16-bit words, it returns the checksum [in_csum]
    computes over the changed packet.  The one exception is a changed
    packet whose words are all zero: [in_csum] then returns 0xffff and the
    update returns 0, the other zero of one's complement arithmetic. *)
Theorem csum_incremental_update16_recomputes (use_memcpy be : bool)
    (pre post : list byte) (b0 b1 n0 n1 : byte) (c c' : Z) :
  let old := pre ++ [b0; b1] ++ post in
  let new := pre ++ [n0; n1] ++ post in
  let old_val := uint16_of_bytes be b0 b1 in
  let new_val := uint16_of_bytes be n0 n1 in
  Nat.Even (length pre) ->
  Z.of_nat (length old) <= 2 ^ 17 ->
  in_csum use_memcpy be old (length old) 0 false = Some (c, None) ->
  in_csum use_memcpy be new (length new) 0 false = Some (c', None) ->
  csum_incremental_update16 c old_val new_val
  = if decide (c' = 0xffff /\ old_val <> new_val) then 0 else c'.
Proof.
  intros old new old_val new_val Hev Hlen Hc Hc'.
  assert (Hlen' : Z.of_nat (length new) <= 2 ^ 17).
  { subst old new. rewrite !length_app in *. exact Hlen. }
  destruct (in_csum_words use_memcpy be old Hlen) as [Ho Hor].
  destruct (in_csum_words use_memcpy be new Hlen') as [Hn Hnr].
  rewrite Ho in Hc. rewrite Hn in Hc'.
  injection Hc as Hc. injection Hc' as Hc'.
  clear Ho Hn Hlen Hlen'. subst old new.
  rewrite words_sum_field in * by exact Hev.
  pose proof (uint16_of_bytes_range be b0 b1) as Hov.
  pose proof (uint16_of_bytes_range be n0 n1) as Hnv.
  subst old_val new_val.
  set (old_val := uint16_of_bytes be b0 b1) in *.
  set (new_val := uint16_of_bytes be n0 n1) in *.
  clearbody old_val new_val.
  destruct (decide (old_val = new_val)) as [Heq|Hne].
  { unfold csum_incremental_update16. rewrite decide_True by exact Heq.
    rewrite decide_False by tauto.
    rewrite <- Hc, <- Hc', Heq. reflexivity. }
  destruct (csum_fold_spec _ Hor) as (f & Hf & Hfr & Hfm & Hf0).
  rewrite csum_incremental_update16_fold by lia.
  pose proof (words_sum_range be pre) as Hpre.
  pose proof (words_sum_range be post) as Hpost.
  apply Z.mod_divide in Hfm; [|lia]. destruct Hfm as [k Hk].
  rewrite (csum_fold_congruent
             (words_sum be pre + new_val + words_sum be post)).
  - rewrite Hc'. destruct (decide (c' = 0xffff)) as [Hz|Hz].
    + rewrite decide_True by tauto. reflexivity.
    + rewrite decide_False by tauto. reflexivity.
  - exact Hnr.
  - split; [|lia].
    destruct (decide (f = 0)) as [Hz|]; [|lia]. apply Hf0 in Hz. lia.
  - apply Z.mod_divide; [lia|]. exists (1 - k). lia.
Qed.

Lemma csum_incremental_update16_recomputes_witness :
  in_csum false false ([x45; x00] ++ [x00; x1c] ++ [x40; x01]) 6 0 false
  = Some (57978, None)
  /\ in_csum false false ([x45; x00] ++ [x00; x20] ++ [x40; x01]) 6 0 false
     = Some (56954, None)
  /\ csum_incremental_update16 57978 (uint16_of_bytes false x00 x1c)
       (uint16_of_bytes false x00 x20)
     = if decide (56954 = 0xffff
                  /\ uint16_of_bytes false x00 x1c
                     <> uint16_of_bytes false x00 x20)
       then 0 else 56954.
Proof.
  split; [reflexivity|]. split; [reflexivity|].
  apply (csum_incremental_update16_recomputes false false
           [x45; x00] [x40; x01] x00 x1c x00 x20 57978 56954).
  - exists 1%nat. reflexivity.
  - simpl. lia.
  - reflexivity.
  - reflexivity.
Defined.

Lemma uint32_of_bytes_halves (be : bool) (b0 b1 b2 b3 : byte) :
  let v := uint32_of_bytes be b0 b1 b2 b3 in
  0 <= v < 2 ^ 32
  /\ 0 <= v / 2 ^ 16 < 2 ^ 16
  /\ v / 2 ^ 16 + v mod 2 ^ 16
     = uint16_of_bytes be b0 b1 + uint16_of_bytes be b2 b3.
Proof.
  pose proof (UtilsFacts.byte_val_range b0).
  pose proof (UtilsFacts.byte_val_range b1).
  pose proof (UtilsFacts.byte_val_range b2).
  pose proof (UtilsFacts.byte_val_range b3).
  unfold uint32_of_bytes, uint16_of_bytes. cbv zeta.
  change (2 ^ 8) with 256. change (2 ^ 16) with 65536.
  change (2 ^ 24) with 16777216. change (2 ^ 32) with 4294967296.
  destruct be.
  - assert (Hd : (byte_val b0 * 16777216 + byte_val b1 * 65536
                  + byte_val b2 * 256 + byte_val b3) / 65536
                 = byte_val b0 * 256 + byte_val b1).
    { symmetry. apply (Z.div_unique _ _ _ (byte_val b2 * 256 + byte_val b3));
        lia. }
    assert (Hm : (byte_val b0 * 16777216 + byte_val b1 * 65536
                  + byte_val b2 * 256 + byte_val b3) mod 65536
                 = byte_val b2 * 256 + byte_val b3).
    { symmetry. apply (Z.mod_unique _ _ (byte_val b0 * 256 + byte_val b1));
        lia. }
    rewrite Hd, Hm. lia.
  - assert (Hd : (byte_val b0 + byte_val b1 * 256 + byte_val b2 * 65536
                  + byte_val b3 * 16777216) / 65536
                 = byte_val b2 + byte_val b3 * 256).
    { symmetry. apply (Z.div_unique _ _ _ (byte_val b0 + byte_val b1 * 256));
        lia. }
    assert (Hm : (byte_val b0 + byte_val b1 * 256 + byte_val b2 * 65536
                  + byte_val b3 * 16777216) mod 65536
                 = byte_val b0 + byte_val b1 * 256).
    { symmetry. apply (Z.mod_unique _ _ (byte_val b2 + byte_val b3 * 256));
        lia. }
    rewrite Hd, Hm. lia.
Qed.

Lemma csum_incremental_update32_fold (c v v' : Z) :
  0 <= c < 2 ^ 16 -> 0 <= v < 2 ^ 32 -> 0 <= v' < 2 ^ 32 -> v <> v' ->
  csum_incremental_update32 c v v'
  = csum_fold (65535 - c + (65535 - v / 2 ^ 16) + (65535 - v mod 2 ^ 16)
               + (v' / 2 ^ 16 + v' mod 2 ^ 16)).
Proof.
  intros Hc Hv Hv' Hne. unfold csum_incremental_update32.
  rewrite decide_False by exact Hne.
  assert (Hh : 0 <= v / 2 ^ 16 < 2 ^ 16).
  { split; [apply Z.div_pos; lia | apply Z.div_lt_upper_bound; lia]. }
  assert (Hh' : 0 <= v' / 2 ^ 16 < 2 ^ 16).
  { split; [apply Z.div_pos; lia | apply Z.div_lt_upper_bound; lia]. }
  pose proof (Z.mod_pos_bound v (2 ^ 16) ltac:(lia)) as Hl.
  pose proof (Z.mod_pos_bound v' (2 ^ 16) ltac:(lia)) as Hl'.
  rewrite land_lnot_uint16 by lia. rewrite !Z.shiftr_div_pow2 by lia.
  rewrite (land_lnot_uint32 (v / 2 ^ 16)) by lia.
  rewrite (land_lnot_uint32 v) by lia.
  rewrite (Z.mod_small (v / 2 ^ 16)) by lia.
  change (Z.land v' 0xffff) with (Z.land v' (Z.ones 16)).
  rewrite (Z.land_ones v') by lia.
  set (hi := v / 2 ^ 16) in *. set (lo := v mod 2 ^ 16) in *.
  set (hi' := v' / 2 ^ 16) in *. set (lo' := v' mod 2 ^ 16) in *.
  clearbody hi lo hi' lo'.
  assert (H1 : to_uint32 (65535 - c + (65535 - hi) + (65535 - lo))
               = 65535 - c + (65535 - hi) + (65535 - lo))
    by (apply Z.mod_small; lia).
  assert (H2 : to_uint32 (hi' + lo') = hi' + lo') by (apply Z.mod_small; lia).
  rewrite H1, H2.
  assert (H3 : to_uint32 (65535 - c + (65535 - hi) + (65535 - lo)
                          + (hi' + lo'))
               = 65535 - c + (65535 - hi) + (65535 - lo) + (hi' + lo'))
    by (apply Z.mod_small; lia).
  rewrite H3. unfold csum_fold.
  rewrite <- !Z.shiftr_div_pow2 by lia.
  rewrite (Z.add_comm (Z.land _ _) (Z.shiftr _ _)). reflexivity.
Qed.

Lemma words_sum_field32 (be : bool) (pre post : list byte)
    (b0 b1 b2 b3 : byte) :
  Nat.Even (length pre) ->
  words_sum be (pre ++ [b0; b1; b2; b3] ++ post)
  = words_sum be pre + (uint16_of_bytes be b0 b1 + uint16_of_bytes be b2 b3)
    + words_sum be post.
Proof.
  intros Hev. rewrite words_sum_app by exact Hev. cbn [app words_sum]. lia.
Qed.

(** X4.  [csum_incremental_update32] agrees with recomputation in the same
    way for a 32-bit field at an even offset, such as an IPv4 address, of a
    packet of at most 2^17 bytes: it returns the checksum [in_csum]
    computes over the changed packet, but 0 where the changed packet is all
    zero and [in_csum] returns 0xffff. *)
Theorem csum_incremental_update32_recomputes (use_memcpy be : bool)
    (pre post : list byte) (b0 b1 b2 b3 n0 n1 n2 n3 : byte) (c c' : Z) :
  let old := pre ++ [b0; b1; b2; b3] ++ post in
  let new := pre ++ [n0; n1; n2; n3] ++ post in
  let old_val := uint32_of_bytes be b0 b1 b2 b3 in
  let new_val := uint32_of_bytes be n0 n1 n2 n3 in
  Nat.Even (length pre) ->
  Z.of_nat (length old) <= 2 ^ 17 ->
  in_csum use_memcpy be old (length old) 0 false = Some (c, None) ->
  in_csum use_memcpy be new (length new) 0 false = Some (c', None) ->
  csum_incremental_update32 c old_val new_val
  = if decide (c' = 0xffff /\ old_val <> new_val) then 0 else c'.
Proof.
  intros old new old_val new_val Hev Hlen Hc Hc'.
  assert (Hlen' : Z.of_nat (length new) <= 2 ^ 17).
  { subst old new. rewrite !length_app in *. exact Hlen. }
  destruct (in_csum_words use_memcpy be old Hlen) as [Ho Hor].
  destruct (in_csum_words use_memcpy be new Hlen') as [Hn Hnr].
  rewrite Ho in Hc. rewrite Hn in Hc'.
  injection Hc as Hc. injection Hc' as Hc'.
  clear Ho Hn Hlen Hlen'. subst old new.
  rewrite words_sum_field32 in * by exact Hev.
  destruct (uint32_of_bytes_halves be b0 b1 b2 b3) as (Hov & Hoh & Hos).
  destruct (uint32_of_bytes_halves be n0 n1 n2 n3) as (Hnv & Hnh & Hns).
  fold old_val in Hov, Hoh, Hos. fold new_val in Hnv, Hnh, Hns.
  rewrite <- Hos in *. rewrite <- Hns in *.
  clearbody old_val new_val.
  destruct (decide (old_val = new_val)) as [Heq|Hne].
  { unfold csum_incremental_update32. rewrite decide_True by exact Heq.
    rewrite decide_False by tauto.
    rewrite <- Hc, <- Hc', Heq. reflexivity. }
  destruct (csum_fold_spec _ Hor) as (f & Hf & Hfr & Hfm & Hf0).
  assert (Hcr : 0 <= c < 2 ^ 16) by lia.
  rewrite csum_incremental_update32_fold by lia.
  pose proof (words_sum_range be pre) as Hpre.
  pose proof (words_sum_range be post) as Hpost.
  pose proof (Z.mod_pos_bound old_val (2 ^ 16) ltac:(lia)) as Hol.
  pose proof (Z.mod_pos_bound new_val (2 ^ 16) ltac:(lia)) as Hnl.
  apply Z.mod_divide in Hfm; [|lia]. destruct Hfm as [k Hk].
  set (oh := old_val / 2 ^ 16) in *. set (ol := old_val mod 2 ^ 16) in *.
  set (nh := new_val / 2 ^ 16) in *. set (nl := new_val mod 2 ^ 16) in *.
  clearbody oh ol nh nl.
  rewrite (csum_fold_congruent
             (words_sum be pre + (nh + nl) + words_sum be post)).
  - rewrite Hc'. destruct (decide (c' = 0xffff)) as [Hz|Hz].
    + rewrite decide_True by tauto. reflexivity.
    + rewrite decide_False by tauto. reflexivity.
  - exact Hnr.
  - split; [|lia].
    destruct (decide (f = 0)) as [Hz|]; [|lia]. apply Hf0 in Hz. lia.
  - apply Z.mod_divide; [lia|]. exists (2 - k). lia.
Qed.

Lemma csum_incremental_update32_recomputes_witness :
  in_csum true false ([x45; x00; x40; x01] ++ [x0a; x00; x00; x01]
                      ++ [x40; x01]) 10 0 false
  = Some (64560, None)
  /\ in_csum true false ([x45; x00; x40; x01] ++ [x0a; x00; x00; x02]
                         ++ [x40; x01]) 10 0 false
     = Some (64304, None)
  /\ csum_incremental_update32 64560
       (uint32_of_bytes false x0a x00 x00 x01)
       (uint32_of_bytes false x0a x00 x00 x02)
     = if decide (64304 = 0xffff
                  /\ uint32_of_bytes false x0a x00 x00 x01
                     <> uint32_of_bytes false x0a x00 x00 x02)
       then 0 else 64304.
Proof.
  split; [reflexivity|]. split; [reflexivity|].
  apply (csum_incremental_update32_recomputes true false
           [x45; x00; x40; x01] [x40; x01] x0a x00 x00 x01 x0a x00 x00 x02
           64560 64304).
  - exists 2%nat. reflexivity.
  - simpl. lia.
  - reflexivity.
  - reflexivity.
Defined.

(** ** in_csum: the odd byte and the byte order of the host *)

(** X5.  An odd last byte is summed as the first byte of a word whose
    second byte is zero, on either byte order: [in_csum] over an odd
    number of bytes gives what it gives over these bytes followed by one
    zero byte. *)
Theorem in_csum_odd_length_pads (use_memcpy be : bool) (mem : list byte)
    (len : nat) (csum : Z) (acc : bool) :
  Nat.Odd len ->
  (len <= length mem)%nat ->
  in_csum use_memcpy be mem len csum acc
  = in_csum use_memcpy be (take len mem ++ [x00]) (S len) csum acc.
Proof.
  intros [k Hk] Hlen.
  rewrite !in_csum_fold
    by (rewrite ?length_app, ?length_take; cbn [length]; lia).
  assert (Hlast : exists b, take len mem = take (2 * k) mem ++ [b]).
  { destruct (lookup_lt_is_Some_2 mem (2 * k) ltac:(lia)) as [b Hb].
    exists b. rewrite Hk, Nat.add_1_r. by apply take_S_r. }
  destruct Hlast as [b Hlast].
  rewrite (take_ge (take len mem ++ [x00]))
    by (rewrite length_app, length_take; cbn [length]; lia).
  rewrite Hlast, <- app_assoc.
  rewrite !fold_words_app by (rewrite length_take; exists k; lia).
  cbn [app fold_words]. rewrite htons_odd_byte. reflexivity.
Qed.

Lemma in_csum_odd_length_pads_witness :
  in_csum false false [x45; x00; x01; xff] 3 0 true
  = in_csum false false (take 3 [x45; x00; x01; xff] ++ [x00]) 4 0 true.
Proof.
  apply (in_csum_odd_length_pads false false [x45; x00; x01; xff] 3 0 true).
  - exists 1%nat. reflexivity.
  - simpl. lia.
Defined.

Lemma words_sum_swapped (l : list byte) :
  exists K, 256 * words_sum true l = words_sum false l + 65535 * K.
Proof.
  induction l as [|b|b0 b1 l [K IH]] using list_pair_ind;
    cbn [words_sum]; unfold uint16_of_bytes.
  - exists 0. lia.
  - exists (byte_val b). change (byte_val x00) with 0. lia.
  - exists (byte_val b0 + K). lia.
Qed.

Lemma words_sum_zero (l : list byte) :
  words_sum false l = 0 <-> words_sum true l = 0.
Proof.
  induction l as [|b|b0 b1 l IH] using list_pair_ind; cbn [words_sum].
  - tauto.
  - unfold uint16_of_bytes. change (byte_val x00) with 0.
    pose proof (UtilsFacts.byte_val_range b). lia.
  - pose proof (words_sum_range false l). pose proof (words_sum_range true l).
    pose proof (UtilsFacts.byte_val_range b0).
    pose proof (UtilsFacts.byte_val_range b1).
    unfold uint16_of_bytes. lia.
Qed.

Lemma uint16_object_swapped (h l : Z) :
  0 <= h < 256 -> 0 <= l < 256 ->
  uint16_object false (256 * l + h) = uint16_object true (256 * h + l).
Proof.
  intros Hh Hl. unfold uint16_object.
  assert (Hdh : (256 * h + l) / 256 = h)
    by (symmetry; apply (Z.div_unique _ _ _ l); lia).
  assert (Hdl : (256 * l + h) / 256 = l)
    by (symmetry; apply (Z.div_unique _ _ _ h); lia).
  assert (Hmh : (256 * l + h) mod 256 = h)
    by (symmetry; apply (Z.mod_unique _ _ l); lia).
  assert (Hml : (256 * h + l) mod 256 = l)
    by (symmetry; apply (Z.mod_unique _ _ h); lia).
  assert (E1 : byte_of_Z (256 * l + h) = byte_of_Z ((256 * h + l) / 256)).
  { apply UtilsFacts.byte_val_inj. rewrite !byte_val_of_Z, Hdh, Hmh.
    symmetry. apply Z.mod_small. lia. }
  assert (E2 : byte_of_Z ((256 * l + h) / 256) = byte_of_Z (256 * h + l)).
  { apply UtilsFacts.byte_val_inj. rewrite !byte_val_of_Z, Hdl, Hml.
    apply Z.mod_small. lia. }
  by rewrite E1, E2.
Qed.

(** X6.  The checksum does not depend on the byte order of the host: the
    two bytes that storing the result of [in_csum] puts into a packet (of
    at most 2^17 bytes) are the same on a little-endian and on a big-endian
    host, though the value returned differs. *)
Theorem in_csum_byte_order_independent (use_memcpy : bool)
    (mem : list byte) (c_le c_be : Z) :
  Z.of_nat (length mem) <= 2 ^ 17 ->
  in_csum use_memcpy false mem (length mem) 0 false = Some (c_le, None) ->
  in_csum use_memcpy true mem (length mem) 0 false = Some (c_be, None) ->
  uint16_object false c_le = uint16_object true c_be.
Proof.
  intros Hlen Hle Hbe.
  destruct (in_csum_words use_memcpy false mem Hlen) as [Hl Hlr].
  destruct (in_csum_words use_memcpy true mem Hlen) as [Hb Hbr].
  rewrite Hl in Hle. rewrite Hb in Hbe.
  injection Hle as Hle. injection Hbe as Hbe.
  destruct (csum_fold_spec _ Hlr) as (fl & Hfl & Hflr & Hflm & Hfl0).
  destruct (csum_fold_spec _ Hbr) as (fb & Hfb & Hfbr & Hfbm & Hfb0).
  destruct (words_sum_swapped mem) as [K HK].
  pose proof (words_sum_zero mem) as Hzero.
  set (Sl := words_sum false mem) in *. set (Sb := words_sum true mem) in *.
  clearbody Sl Sb.
  apply Z.mod_divide in Hflm; [|lia]. destruct Hflm as [kl Hkl].
  apply Z.mod_divide in Hfbm; [|lia]. destruct Hfbm as [kb Hkb].
  (* the bytes of the big-endian fold *)
  set (a := fb / 256). set (b := fb mod 256).
  assert (Ha : 0 <= a < 256).
  { subst a. split; [apply Z.div_pos; lia|].
    apply Z.div_lt_upper_bound; lia. }
  assert (Hb' : 0 <= b < 256) by (subst b; apply Z.mod_pos_bound; lia).
  assert (Hfbab : fb = 256 * a + b) by (subst a b; apply Z.div_mod; lia).
  clearbody a b.
  assert (Hswap : fl = 256 * b + a).
  { destruct (decide (fb = 0)) as [Hz|Hnz].
    - assert (Sb = 0) by tauto. assert (Sl = 0) by tauto.
      assert (fl = 0) by tauto. lia.
    - assert (Sb <> 0) by tauto. assert (Sl <> 0) by tauto.
      assert (fl <> 0) by tauto.
      apply mod_65535_eq; [|lia|lia].
      apply Z.mod_divide; [lia|].
      exists (- kl + 256 * kb - K + a). lia. }
  rewrite <- Hle, <- Hbe, Hfl, Hfb, Hswap, Hfbab.
  replace (65535 - (256 * b + a)) with (256 * (255 - b) + (255 - a)) by lia.
  replace (65535 - (256 * a + b)) with (256 * (255 - a) + (255 - b)) by lia.
  apply uint16_object_swapped; lia.
Qed.

Lemma in_csum_byte_order_independent_witness :
  in_csum false false [x45; x00; x00; x1c; x01] 5 0 false
  = Some (58297, None)
  /\ in_csum false true [x45; x00; x00; x1c; x01] 5 0 false
     = Some (47587, None)
  /\ uint16_object false 58297 = uint16_object true 47587.
Proof.
  split; [reflexivity|]. split; [reflexivity|].
  apply (in_csum_byte_order_independent false [x45; x00; x00; x1c; x01]
           58297 47587).
  - simpl. lia.
  - reflexivity.
  - reflexivity.
Defined.

(** ** strcpy_safe_impl without room *)

(** X7.  [strcpy_safe_impl] needs a capacity of at least one byte: with
    [len] 0 the count [len - 1] of the copy wraps to [SIZE_MAX], so the
    call reads and writes far outside both objects, whatever they hold. *)
Theorem strcpy_safe_impl_zero_capacity (dst src : list byte) :
  Z.of_nat (length src) < SIZE_MAX ->
  strcpy_safe_impl dst src 0 = None.
Proof.
  intros Hsrc. unfold strcpy_safe_impl.
  destruct (strlen src) as [k|]; [|reflexivity].
  cbn [fmap option_fmap option_map mbind option_bind].
  destruct (Z.ltb_spec (Z.of_nat k) 0) as [?|_]; [lia|].
  unfold memcpy, to_size_t, SIZE_MAX in *.
  change ((0 - 1) mod 2 ^ 64) with (2 ^ 64 - 1).
  rewrite decide_False by lia. reflexivity.
Qed.

Lemma strcpy_safe_impl_zero_capacity_witness :
  strcpy_safe_impl [x41; x42] (c_str "bfd") 0 = None.
Proof.
  apply (strcpy_safe_impl_zero_capacity [x41; x42] (c_str "bfd")).
  unfold SIZE_MAX. simpl. lia.
Defined.

(** ** string_equal *)

Lemma strcmp_spec (s1 : list byte) :
  forall s2, is_Some (strlen s1) -> is_Some (strlen s2) ->
             exists r, strcmp s1 s2 = Some r
                       /\ (r = 0 <-> c_string s1 = c_string s2).
Proof.
  induction s1 as [|c1 s1 IH]; intros s2 [n1 H1] [n2 H2]; [discriminate|].
  destruct s2 as [|c2 s2]; [discriminate|].
  cbn [strcmp c_string strlen] in *.
  destruct (Byte.eqb c1 c2) eqn:E12; cbn [negb].
  - apply Byte.byte_dec_bl in E12. subst c2.
    destruct (Byte.eqb c1 x00) eqn:E1.
    + exists 0. split; [reflexivity|]. tauto.
    + destruct (strlen s1) as [m1|] eqn:Hs1; [|discriminate].
      destruct (strlen s2) as [m2|] eqn:Hs2; [|discriminate].
      destruct (IH s2) as (r & Hr & Hiff); [by eexists|by eexists|].
      exists r. split; [exact Hr|]. rewrite Hiff.
      split; [intros ->; reflexivity|intros Heq; by injection Heq].
  - apply Byte.eqb_false in E12.
    exists (byte_val c1 - byte_val c2). split; [reflexivity|].
    split.
    + intros Hz. exfalso. apply E12, UtilsFacts.byte_val_inj. lia.
    + intros Heq. exfalso.
      destruct (Byte.eqb c1 x00) eqn:E1, (Byte.eqb c2 x00) eqn:E2;
        try discriminate.
      * apply Byte.byte_dec_bl in E1, E2. congruence.
      * injection Heq as Hc _. contradiction.
Qed.

(** X8.  [string_equal] treats NULL as a value of its own: for pointers
    that are NULL or refer to NUL-terminated strings it returns true
    exactly when both are NULL or both are strings with the same
    characters; NULL and the empty string are different. *)
Theorem string_equal_iff (str1 str2 : option (list byte)) :
  (forall s, str1 = Some s -> is_Some (strlen s)) ->
  (forall s, str2 = Some s -> is_Some (strlen s)) ->
  exists r, string_equal str1 str2 = Some r
            /\ (r = true <-> c_string <$> str1 = c_string <$> str2).
Proof.
  intros H1 H2. destruct str1 as [s1|], str2 as [s2|]; cbn [string_equal fmap option_fmap option_map].
  - destruct (strcmp_spec s1 s2) as (r & Hr & Hiff); [by apply H1|by apply H2|].
    rewrite Hr. cbn [mbind option_bind]. eexists. split; [reflexivity|].
    rewrite Z.eqb_eq, Hiff.
    split; [intros ->; reflexivity|intros Heq; by injection Heq].
  - exists false. split; [reflexivity|]. split; discriminate.
  - exists false. split; [reflexivity|]. split; discriminate.
  - exists true. split; [reflexivity|]. tauto.
Qed.

Lemma string_equal_iff_witness :
  exists r, string_equal (Some (c_str "bfd")) (Some (c_str "bfd" ++ [x41]))
            = Some r
            /\ (r = true
                <-> c_string <$> Some (c_str "bfd")
                    = c_string <$> Some (c_str "bfd" ++ [x41])).
Proof.
  apply (string_equal_iff (Some (c_str "bfd")) (Some (c_str "bfd" ++ [x41]))).
  - intros s Hs. injection Hs as <-. by eexists.
  - intros s Hs. injection Hs as <-. by eexists.
Defined.

(** ** integer_to_string *)

Lemma integer_to_string_len_spec (fuel : nat) :
  forall i len s,
    0 <= i < 2 ^ Z.of_nat fuel -> len <= s ->
    exists d : nat,
      i < 10 ^ Z.of_nat d
      /\ ((0 < d)%nat -> 10 ^ (Z.of_nat d - 1) <= i)
      /\ integer_to_string_len fuel i len s
         = Some (if decide (len + Z.of_nat d <= s)
                 then Some (len + Z.of_nat d) else None).
Proof.
  induction fuel as [|fuel IH]; intros i len s Hi Hlen.
  - assert (i = 0) by (change (2 ^ Z.of_nat 0) with 1 in Hi; lia). subst i.
    exists 0%nat. cbn. rewrite Z.add_0_r, decide_True by lia.
    split; [lia|]. split; [lia|reflexivity].
  - cbn [integer_to_string_len].
    destruct (Z.eqb_spec i 0) as [->|Hnz].
    { exists 0%nat. rewrite Z.add_0_r, decide_True by lia.
      split; [simpl; lia|]. split; [lia|reflexivity]. }
    assert (Hq : Z.quot i 10 = i / 10) by (apply Z.quot_div_nonneg; lia).
    rewrite Hq.
    assert (Hi10 : 0 <= i / 10 < 2 ^ Z.of_nat fuel).
    { split; [apply Z.div_pos; lia|].
      apply Z.div_lt_upper_bound; [lia|].
      rewrite Nat2Z.inj_succ, Z.pow_succ_r in Hi by lia. lia. }
    assert (Hstep : forall d' : nat,
               i / 10 < 10 ^ Z.of_nat d' ->
               ((0 < d')%nat -> 10 ^ (Z.of_nat d' - 1) <= i / 10) ->
               i < 10 ^ Z.of_nat (S d')
               /\ ((0 < S d')%nat -> 10 ^ (Z.of_nat (S d') - 1) <= i)).
    { intros d' Hlt Hge.
      pose proof (Z.div_mod i 10 ltac:(lia)) as Hdm.
      pose proof (Z.mod_pos_bound i 10 ltac:(lia)) as Hm.
      rewrite Nat2Z.inj_succ, Z.pow_succ_r by lia.
      split; [lia|]. intros _.
      replace (Z.succ (Z.of_nat d') - 1) with (Z.of_nat d') by lia.
      destruct d' as [|d'].
      - change (10 ^ Z.of_nat 0) with 1. lia.
      - specialize (Hge ltac:(lia)).
        rewrite Nat2Z.inj_succ, Z.pow_succ_r by lia.
        replace (Z.of_nat (S d') - 1) with (Z.of_nat d') in Hge by lia.
        lia. }
    destruct (Z.gtb_spec (len + 1) s) as [Hgt|Hle].
    + destruct (IH (i / 10) (len + 1) (len + 1) Hi10 ltac:(lia))
        as (d' & Hlt & Hge & _).
      exists (S d'). destruct (Hstep d' Hlt Hge) as [H1 H2].
      split; [exact H1|]. split; [exact H2|].
      rewrite decide_False by lia. reflexivity.
    + destruct (IH (i / 10) (len + 1) s Hi10 ltac:(lia))
        as (d' & Hlt & Hge & Hres).
      exists (S d'). destruct (Hstep d' Hlt Hge) as [H1 H2].
      split; [exact H1|]. split; [exact H2|].
      rewrite Hres. f_equal.
      destruct (decide (len + 1 + Z.of_nat d' <= s)).
      * rewrite decide_True by lia. f_equal. lia.
      * rewrite decide_False by lia. reflexivity.
Qed.

Lemma integer_to_string_fill_spec (len : Z) (n : nat) :
  forall t str,
    (n <= length str)%nat ->
    integer_to_string_fill n (len - Z.of_nat n) len t str
    = Some (digits_of n t ++ drop n str).
Proof.
  induction n as [|n IH]; intros t str Hn.
  - reflexivity.
  - cbn [integer_to_string_fill digits_of]. unfold store.
    replace (len - (len - Z.of_nat (S n) + 1)) with (Z.of_nat n) by lia.
    rewrite decide_True by lia. cbn [mbind option_bind].
    rewrite Nat2Z.id.
    replace (len - Z.of_nat (S n) + 1) with (len - Z.of_nat n) by lia.
    rewrite IH by (rewrite length_insert; lia).
    rewrite <- app_assoc. do 2 f_equal.
    rewrite drop_insert_ge by lia. rewrite Nat.sub_diag.
    destruct (lookup_lt_is_Some_2 str n ltac:(lia)) as [y Hy].
    rewrite (drop_S _ _ _ Hy). reflexivity.
Qed.

Lemma decimal_value_snoc (ds : list byte) (c : byte) :
  decimal_value (ds ++ [c]) = decimal_value ds * 10 + (byte_val c - 48).
Proof. unfold decimal_value. rewrite fold_left_app. reflexivity. Qed.

Lemma digit_char (t : Z) :
  0 <= t -> byte_val (byte_of_Z (Z.rem t 10 + 48)) = t mod 10 + 48.
Proof.
  intros Ht. rewrite byte_val_of_Z, Z.rem_mod_nonneg by lia.
  pose proof (Z.mod_pos_bound t 10 ltac:(lia)). apply Z.mod_small. lia.
Qed.

Lemma digits_of_spec (n : nat) :
  forall t, 0 <= t < 10 ^ Z.of_nat n ->
            length (digits_of n t) = n
            /\ Forall is_digit (digits_of n t)
            /\ decimal_value (digits_of n t) = t
            /\ ((0 < n)%nat -> 10 ^ (Z.of_nat n - 1) <= t ->
                head (digits_of n t) <> Some "0"%byte).
Proof.
  induction n as [|n IH]; intros t Ht.
  - change (10 ^ Z.of_nat 0) with 1 in Ht. cbn.
    split; [reflexivity|]. split; [constructor|]. split; [lia|lia].
  - rewrite Nat2Z.inj_succ, Z.pow_succ_r in Ht by lia.
    pose proof (Z.div_mod t 10 ltac:(lia)) as Hdm.
    pose proof (Z.mod_pos_bound t 10 ltac:(lia)) as Hm.
    assert (Hq : Z.quot t 10 = t / 10) by (apply Z.quot_div_nonneg; lia).
    assert (Ht10 : 0 <= t / 10 < 10 ^ Z.of_nat n).
    { split; [apply Z.div_pos; lia|]. apply Z.div_lt_upper_bound; lia. }
    cbn [digits_of]. rewrite Hq.
    destruct (IH (t / 10) Ht10) as (Hlen & Hdig & Hval & Hhead).
    split; [rewrite length_app, Hlen; simpl; lia|].
    split.
    { apply Forall_app. split; [exact Hdig|].
      constructor; [|constructor]. unfold is_digit. rewrite digit_char; lia. }
    split.
    { rewrite decimal_value_snoc, Hval, digit_char; lia. }
    intros _ Hge.
    replace (Z.of_nat (S n) - 1) with (Z.of_nat n) in Hge by lia.
    destruct n as [|n].
    + change (10 ^ Z.of_nat 0) with 1 in *. cbn [digits_of app head].
      intros Hc. injection Hc as Hc.
      apply (f_equal byte_val) in Hc. rewrite digit_char in Hc by lia.
      change (byte_val "0") with 48 in Hc.
      assert (t / 10 = 0) by lia. lia.
    + assert (Hge' : 10 ^ (Z.of_nat (S n) - 1) <= t / 10).
      { rewrite Nat2Z.inj_succ, Z.pow_succ_r in Hge by lia.
        replace (Z.of_nat (S n) - 1) with (Z.of_nat n) by lia.
        apply Z.div_le_lower_bound; lia. }
      specialize (Hhead ltac:(lia) Hge').
      destruct (digits_of (S n) (t / 10)) as [|c l] eqn:Hd;
        [cbn [length] in Hlen; lia|].
      exact Hhead.
Qed.

(** X9.  With a [size] of at most INT_MAX (the function converts it to
    [int]), [integer_to_string] writes a value between 0 and INT_MAX as its
    decimal digits, most significant first, with no sign, no leading zero
    and no terminating NUL, and returns their number; the bytes after the
    digits are left as they were.  Zero is written as no digit at all
    (the return value is 0).  When the digits do not fit in [size] bytes
    it returns -1 and writes nothing. *)
Theorem integer_to_string_decimal (value : Z) (str : list byte) (size : Z) :
  0 <= value < 2 ^ 31 ->
  0 <= size < 2 ^ 31 ->
  size <= Z.of_nat (length str) ->
  if decide (value < 10 ^ size)
  then exists ds,
      integer_to_string value str size
      = Some (Z.of_nat (length ds), ds ++ drop (length ds) str)
      /\ Forall is_digit ds
      /\ decimal_value ds = value
      /\ head ds <> Some "0"%byte
      /\ (value = 0 -> ds = [])
  else integer_to_string value str size = Some (-1, str).
Proof.
  intros Hv Hs Hlen. unfold integer_to_string.
  assert (Hint : to_int size = size).
  { unfold to_int. rewrite Z.mod_small; lia. }
  rewrite Hint.
  assert (Hfuel : 0 <= value
                  < 2 ^ Z.of_nat (S (Z.to_nat (Z.log2 (Z.abs value))))).
  { split; [lia|]. rewrite Z.abs_eq by lia.
    rewrite Nat2Z.inj_succ, Z2Nat.id by apply Z.log2_nonneg.
    destruct (decide (value = 0)) as [->|Hnz]; [reflexivity|].
    apply Z.log2_spec. lia. }
  destruct (integer_to_string_len_spec _ value 0 size Hfuel ltac:(lia))
    as (d & Hlt & Hge & Hres).
  rewrite Hres. cbn [mbind option_bind]. rewrite Z.add_0_l.
  destruct (decide (Z.of_nat d <= size)) as [Hfit|Hbig].
  - rewrite decide_True
      by (eapply Z.lt_le_trans; [exact Hlt|apply Z.pow_le_mono_r; lia]).
    rewrite Nat2Z.id.
    pose proof (integer_to_string_fill_spec (Z.of_nat d) d value str
                  ltac:(lia)) as Hfill.
    rewrite Z.sub_diag in Hfill. rewrite Hfill. cbn [mbind option_bind].
    destruct (digits_of_spec d value ltac:(lia)) as (Hl & Hdig & Hval & Hhd).
    exists (digits_of d value). rewrite Hl.
    split; [reflexivity|]. split; [exact Hdig|]. split; [exact Hval|].
    split.
    + destruct d as [|d]; [cbn; discriminate|].
      apply Hhd; [lia|]. apply Hge. lia.
    + intros ->. destruct d as [|d]; [reflexivity|].
      specialize (Hge ltac:(lia)).
      pose proof (Z.pow_pos_nonneg 10 (Z.of_nat (S d) - 1)
                    ltac:(lia) ltac:(lia)). lia.
  - rewrite decide_False; [reflexivity|].
    specialize (Hge ltac:(lia)).
    assert (10 ^ size <= 10 ^ (Z.of_nat d - 1))
      by (apply Z.pow_le_mono_r; lia).
    lia.
Qed.

Lemma integer_to_string_decimal_witness :
  if decide (2024 < 10 ^ 6)
  then exists ds,
      integer_to_string 2024 (replicate 6 x2e) 6
      = Some (Z.of_nat (length ds),
              ds ++ drop (length ds) (replicate 6 x2e))
      /\ Forall is_digit ds
      /\ decimal_value ds = 2024
      /\ head ds <> Some "0"%byte
      /\ (2024 = 0 -> ds = [])
  else integer_to_string 2024 (replicate 6 x2e) 6
       = Some (-1, replicate 6 x2e).
Proof.
  apply (integer_to_string_decimal 2024 (replicate 6 x2e) 6).
  - lia.
  - lia.
  - simpl. lia.
Defined.

(** ** Address comparison *)

Lemma uint32_of_bytes_range (be : bool) (b0 b1 b2 b3 : byte) :
  0 <= uint32_of_bytes be b0 b1 b2 b3 < 2 ^ 32.
Proof. apply (uint32_of_bytes_halves be b0 b1 b2 b3). Qed.

Lemma uint32_of_bytes_inj (be : bool) (b0 b1 b2 b3 c0 c1 c2 c3 : byte) :
  uint32_of_bytes be b0 b1 b2 b3 = uint32_of_bytes be c0 c1 c2 c3 ->
  b0 = c0 /\ b1 = c1 /\ b2 = c2 /\ b3 = c3.
Proof.
  pose proof (UtilsFacts.byte_val_range b0).
  pose proof (UtilsFacts.byte_val_range b1).
  pose proof (UtilsFacts.byte_val_range b2).
  pose proof (UtilsFacts.byte_val_range b3).
  pose proof (UtilsFacts.byte_val_range c0).
  pose proof (UtilsFacts.byte_val_range c1).
  pose proof (UtilsFacts.byte_val_range c2).
  pose proof (UtilsFacts.byte_val_range c3).
  unfold uint32_of_bytes.
  change (2 ^ 8) with 256. change (2 ^ 16) with 65536.
  change (2 ^ 24) with 16777216.
  intros Heq.
  assert (byte_val b0 = byte_val c0 /\ byte_val b1 = byte_val c1
          /\ byte_val b2 = byte_val c2 /\ byte_val b3 = byte_val c3)
    as (H0' & H1' & H2' & H3') by (destruct be; lia).
  repeat split; apply UtilsFacts.byte_val_inj; assumption.
Qed.

Lemma ntohl_network (be : bool) (b0 b1 b2 b3 : byte) :
  ntohl be (uint32_of_bytes be b0 b1 b2 b3) = network_value [b0; b1; b2; b3].
Proof.
  pose proof (UtilsFacts.byte_val_range b0).
  pose proof (UtilsFacts.byte_val_range b1).
  pose proof (UtilsFacts.byte_val_range b2).
  pose proof (UtilsFacts.byte_val_range b3).
  unfold ntohl, network_value, uint32_of_bytes. cbn [fold_left].
  change (2 ^ 8) with 256. change (2 ^ 16) with 65536.
  change (2 ^ 24) with 16777216.
  destruct be; [lia|].
  set (x := byte_val b0 + byte_val b1 * 256 + byte_val b2 * 65536
            + byte_val b3 * 16777216).
  assert (E0 : x mod 256 = byte_val b0).
  { symmetry. apply (Z.mod_unique _ _ (byte_val b1 + byte_val b2 * 256
                                       + byte_val b3 * 65536)); subst x; lia. }
  assert (E1 : x / 256 mod 256 = byte_val b1).
  { replace (x / 256) with (byte_val b1 + byte_val b2 * 256
                            + byte_val b3 * 65536)
      by (apply (Z.div_unique _ _ _ (byte_val b0)); subst x; lia).
    symmetry. apply (Z.mod_unique _ _ (byte_val b2 + byte_val b3 * 256)); lia. }
  assert (E2 : x / 65536 mod 256 = byte_val b2).
  { replace (x / 65536) with (byte_val b2 + byte_val b3 * 256)
      by (apply (Z.div_unique _ _ _ (byte_val b0 + byte_val b1 * 256));
          subst x; lia).
    symmetry. apply (Z.mod_unique _ _ (byte_val b3)); lia. }
  assert (E3 : x / 16777216 mod 256 = byte_val b3).
  { replace (x / 16777216) with (byte_val b3)
      by (apply (Z.div_unique _ _ _ (byte_val b0 + byte_val b1 * 256
                                     + byte_val b2 * 65536)); subst x; lia).
    apply Z.mod_small. lia. }
  rewrite E0, E1, E2, E3. lia.
Qed.

Lemma network_value_acc (l : list byte) :
  forall a, fold_left (fun a c => a * 256 + byte_val c) l a
            = a * 256 ^ Z.of_nat (length l) + network_value l.
Proof.
  unfold network_value.
  induction l as [|c l IH]; intros a; cbn [fold_left length].
  - change (256 ^ Z.of_nat 0) with 1. lia.
  - rewrite (IH (a * 256 + byte_val c)), (IH (0 * 256 + byte_val c)).
    rewrite Nat2Z.inj_succ, Z.pow_succ_r by lia. lia.
Qed.

Lemma network_value_app (l1 l2 : list byte) :
  network_value (l1 ++ l2)
  = network_value l1 * 256 ^ Z.of_nat (length l2) + network_value l2.
Proof.
  unfold network_value at 1. rewrite fold_left_app.
  apply network_value_acc.
Qed.

Lemma network_value_word_range (b0 b1 b2 b3 : byte) :
  0 <= network_value [b0; b1; b2; b3] < 2 ^ 32.
Proof.
  pose proof (UtilsFacts.byte_val_range b0).
  pose proof (UtilsFacts.byte_val_range b1).
  pose proof (UtilsFacts.byte_val_range b2).
  pose proof (UtilsFacts.byte_val_range b3).
  unfold network_value. cbn [fold_left]. lia.
Qed.

Lemma network_value_word_inj (b0 b1 b2 b3 c0 c1 c2 c3 : byte) :
  network_value [b0; b1; b2; b3] = network_value [c0; c1; c2; c3] ->
  [b0; b1; b2; b3] = [c0; c1; c2; c3].
Proof.
  intros Heq.
  destruct (uint32_of_bytes_inj true b0 b1 b2 b3 c0 c1 c2 c3)
    as (-> & -> & -> & ->); [|reflexivity].
  unfold network_value in Heq. cbn [fold_left] in Heq.
  unfold uint32_of_bytes.
  change (2 ^ 8) with 256. change (2 ^ 16) with 65536.
  change (2 ^ 24) with 16777216. lia.
Qed.

(** An address of four bytes, and one of sixteen, taken apart. *)
Lemma take_4 (a : list byte) :
  (4 <= length a)%nat ->
  exists b0 b1 b2 b3 rest, a = [b0; b1; b2; b3] ++ rest.
Proof.
  intros H. do 4 (destruct a as [|? a]; [cbn [length] in H; lia|]).
  by eexists _, _, _, _, _.
Qed.

Lemma take_16 (a : list byte) :
  (16 <= length a)%nat ->
  exists w0 w1 w2 w3 rest,
    a = w0 ++ w1 ++ w2 ++ w3 ++ rest
    /\ length w0 = 4%nat /\ length w1 = 4%nat
    /\ length w2 = 4%nat /\ length w3 = 4%nat.
Proof.
  intros H.
  exists (take 4 a), (take 4 (drop 4 a)), (take 4 (drop 8 a)),
    (take 4 (drop 12 a)), (drop 16 a).
  rewrite !length_take, !length_drop.
  split; [|lia].
  rewrite <- (take_drop 4 a) at 1. f_equal.
  rewrite <- (take_drop 4 (drop 4 a)) at 1. f_equal.
  rewrite drop_drop. change (4 + 4)%nat with 8%nat.
  rewrite <- (take_drop 4 (drop 8 a)) at 1. f_equal.
  rewrite drop_drop. change (8 + 4)%nat with 12%nat.
  rewrite <- (take_drop 4 (drop 12 a)) at 1. f_equal.
  rewrite drop_drop. reflexivity.
Qed.

Lemma addr4_word (be : bool) (a : list byte) :
  (4 <= length a)%nat ->
  exists b0 b1 b2 b3,
    take 4 a = [b0; b1; b2; b3]
    /\ uint32_at be a 0 = Some (uint32_of_bytes be b0 b1 b2 b3).
Proof.
  intros H. destruct (take_4 a H) as (b0 & b1 & b2 & b3 & rest & ->).
  by exists b0, b1, b2, b3.
Qed.

Lemma addr16_words (be : bool) (a : list byte) :
  (16 <= length a)%nat ->
  exists w0 w1 w2 w3,
    take 16 a = w0 ++ w1 ++ w2 ++ w3
    /\ length w0 = 4%nat /\ length w1 = 4%nat
    /\ length w2 = 4%nat /\ length w3 = 4%nat
    /\ (forall i w, [w0; w1; w2; w3] !! i = Some w ->
                    exists b0 b1 b2 b3,
                      w = [b0; b1; b2; b3]
                      /\ uint32_at be a i
                         = Some (uint32_of_bytes be b0 b1 b2 b3)).
Proof.
  intros H.
  destruct (take_16 a H) as (w0 & w1 & w2 & w3 & rest & -> & H0 & H1 & H2 & H3).
  exists w0, w1, w2, w3.
  destruct w0 as [|a0 [|a1 [|a2 [|a3 [|]]]]]; try discriminate.
  destruct w1 as [|b0 [|b1 [|b2 [|b3 [|]]]]]; try discriminate.
  destruct w2 as [|c0 [|c1 [|c2 [|c3 [|]]]]]; try discriminate.
  destruct w3 as [|d0 [|d1 [|d2 [|d3 [|]]]]]; try discriminate.
  split; [reflexivity|]. do 4 (split; [reflexivity|]).
  intros i w Hw.
  destruct i as [|[|[|[|i]]]]; try discriminate; injection Hw as <-;
    by eexists _, _, _, _.
Qed.

Lemma lor_lxor_words (x0 y0 x1 y1 x2 y2 x3 y3 : Z) :
  Z.lor (Z.lor (Z.lor (Z.lxor x0 y0) (Z.lxor x1 y1)) (Z.lxor x2 y2))
    (Z.lxor x3 y3) = 0
  <-> x0 = y0 /\ x1 = y1 /\ x2 = y2 /\ x3 = y3.
Proof. rewrite !Z.lor_eq_0_iff, !Z.lxor_eq_0_iff. tauto. Qed.

Lemma ip6_addr_equal_spec (be : bool) (a1 a2 : list byte) :
  (16 <= length a1)%nat -> (16 <= length a2)%nat ->
  exists r, __ip6_addr_equal be a1 a2 = Some r
            /\ (r = 0 \/ r = 1)
            /\ (r = 1 <-> take 16 a1 = take 16 a2).
Proof.
  intros H1 H2.
  destruct (addr16_words be a1 H1)
    as (v0 & v1 & v2 & v3 & -> & _ & _ & _ & _ & Hv).
  destruct (addr16_words be a2 H2)
    as (w0 & w1 & w2 & w3 & -> & _ & _ & _ & _ & Hw).
  unfold __ip6_addr_equal.
  destruct (Hv 0%nat v0 eq_refl) as (a0 & a1' & a2' & a3 & -> & ->).
  destruct (Hv 1%nat v1 eq_refl) as (a4 & a5 & a6 & a7 & -> & ->).
  destruct (Hv 2%nat v2 eq_refl) as (a8 & a9 & a10 & a11 & -> & ->).
  destruct (Hv 3%nat v3 eq_refl) as (a12 & a13 & a14 & a15 & -> & ->).
  destruct (Hw 0%nat w0 eq_refl) as (b0 & b1 & b2 & b3 & -> & ->).
  destruct (Hw 1%nat w1 eq_refl) as (b4 & b5 & b6 & b7 & -> & ->).
  destruct (Hw 2%nat w2 eq_refl) as (b8 & b9 & b10 & b11 & -> & ->).
  destruct (Hw 3%nat w3 eq_refl) as (b12 & b13 & b14 & b15 & -> & ->).
  cbn [mbind option_bind]. eexists. split; [reflexivity|].
  match goal with
  | |- context [Z.lor ?x ?y =? 0] =>
      destruct (Z.eqb_spec (Z.lor x y) 0) as [Hz|Hz]
  end.
  - split; [by right|].
    apply lor_lxor_words in Hz. destruct Hz as (E0 & E1 & E2 & E3).
    apply uint32_of_bytes_inj in E0, E1, E2, E3.
    destruct E0 as (-> & -> & -> & ->). destruct E1 as (-> & -> & -> & ->).
    destruct E2 as (-> & -> & -> & ->). destruct E3 as (-> & -> & -> & ->).
    tauto.
  - split; [by left|]. split; [discriminate|]. intros Heq. exfalso.
    apply Hz. apply lor_lxor_words. cbn [app] in Heq.
    injection Heq as -> -> -> -> -> -> -> -> -> -> -> -> -> -> -> ->.
    tauto.
Qed.

Lemma in_addr_equal_spec (be : bool) (a1 a2 : list byte) :
  (4 <= length a1)%nat -> (4 <= length a2)%nat ->
  exists x y, uint32_at be a1 0 = Some x /\ uint32_at be a2 0 = Some y
              /\ (x = y <-> take 4 a1 = take 4 a2).
Proof.
  intros H1 H2.
  destruct (addr4_word be a1 H1) as (a0 & a1' & a2' & a3 & -> & ->).
  destruct (addr4_word be a2 H2) as (b0 & b1 & b2 & b3 & -> & ->).
  eexists _, _. split; [reflexivity|]. split; [reflexivity|]. split.
  - intros Heq. apply uint32_of_bytes_inj in Heq.
    by destruct Heq as (-> & -> & -> & ->).
  - intros Heq. by injection Heq as -> -> -> ->.
Qed.

(** X10.  [inaddr_equal] returns true exactly for two IPv4 or two IPv6
    addresses with the same bytes (4 and 16 of them), whatever the byte
    order of the host; for any other family it returns false, also when
    the two pointers are the same.  The family is the argument as the
    16-bit [sa_family_t] of the parameter receives it. *)
Theorem inaddr_equal_iff (be : bool) (family : Z) (addr1 addr2 : list byte) :
  (addr_size (to_sa_family_t family) <= length addr1)%nat ->
  (addr_size (to_sa_family_t family) <= length addr2)%nat ->
  exists r,
    inaddr_equal be family addr1 addr2 = Some r
    /\ (r = true
        <-> (to_sa_family_t family = AF_INET
             \/ to_sa_family_t family = AF_INET6)
            /\ take (addr_size (to_sa_family_t family)) addr1
               = take (addr_size (to_sa_family_t family)) addr2).
Proof.
  unfold inaddr_equal. cbv zeta.
  generalize (to_sa_family_t family). clear family. intros family H1 H2.
  unfold addr_size in *.
  destruct (decide (family = AF_INET6)) as [->|Hn6].
  - rewrite decide_False in * by discriminate.
    destruct (ip6_addr_equal_spec be addr1 addr2 H1 H2)
      as (r & -> & Hr01 & Hr).
    cbn [mbind option_bind]. eexists. split; [reflexivity|].
    rewrite <- Hr. destruct Hr01 as [-> | ->]; cbn [Z.eqb negb].
    + split; [discriminate|]. intros [_ ?]. discriminate.
    + split; [|reflexivity]. intros _. split; [by right|reflexivity].
  - destruct (decide (family = AF_INET)) as [->|Hn4].
    + destruct (in_addr_equal_spec be addr1 addr2 H1 H2)
        as (x & y & -> & -> & Hxy).
      cbn [mbind option_bind]. eexists. split; [reflexivity|].
      rewrite Z.eqb_eq, Hxy. split; [intros ?; split; auto|tauto].
    + exists false. split; [reflexivity|]. split; [discriminate|].
      intros [[?|?] _]; contradiction.
Qed.

Lemma inaddr_equal_iff_witness :
  exists r,
    inaddr_equal false 65538 [xc0; xa8; x00; x01; x00]
      [xc0; xa8; x00; x01; xff] = Some r
    /\ (r = true
        <-> (to_sa_family_t 65538 = AF_INET
             \/ to_sa_family_t 65538 = AF_INET6)
            /\ take (addr_size (to_sa_family_t 65538))
                 [xc0; xa8; x00; x01; x00]
               = take (addr_size (to_sa_family_t 65538))
                   [xc0; xa8; x00; x01; xff]).
Proof.
  apply (inaddr_equal_iff false 65538 [xc0; xa8; x00; x01; x00]
           [xc0; xa8; x00; x01; xff]).
  - vm_compute. lia.
  - vm_compute. lia.
Defined.

Lemma sign_of_diff (d : Z) :
  (if d >? 0 then Some 1 else if d <? 0 then Some (-1) else Some 0)
  = Some (Z.sgn d).
Proof.
  destruct (Z.gtb_spec d 0); [rewrite Z.sgn_pos by lia; reflexivity|].
  destruct (Z.ltb_spec d 0); [rewrite Z.sgn_neg by lia; reflexivity|].
  rewrite Z.sgn_null by lia. reflexivity.
Qed.

Lemma sgn_words (a0 a1 a2 a3 b0 b1 b2 b3 : Z) :
  0 <= a0 < 2 ^ 32 -> 0 <= a1 < 2 ^ 32 -> 0 <= a2 < 2 ^ 32 ->
  0 <= a3 < 2 ^ 32 -> 0 <= b0 < 2 ^ 32 -> 0 <= b1 < 2 ^ 32 ->
  0 <= b2 < 2 ^ 32 -> 0 <= b3 < 2 ^ 32 ->
  Z.sgn (((a0 * 2 ^ 32 + a1) * 2 ^ 32 + a2) * 2 ^ 32 + a3
         - (((b0 * 2 ^ 32 + b1) * 2 ^ 32 + b2) * 2 ^ 32 + b3))
  = if negb (a0 - b0 =? 0) then Z.sgn (a0 - b0)
    else if negb (a1 - b1 =? 0) then Z.sgn (a1 - b1)
    else if negb (a2 - b2 =? 0) then Z.sgn (a2 - b2)
    else Z.sgn (a3 - b3).
Proof.
  intros. change (2 ^ 32) with 4294967296 in *.
  destruct (Z.eqb_spec (a0 - b0) 0) as [E0|E0]; cbn [negb].
  2:{ destruct (Z.lt_trichotomy a0 b0) as [Hlt|[Heq|Hgt]]; [|lia|].
      - rewrite !Z.sgn_neg by lia. reflexivity.
      - rewrite !Z.sgn_pos by lia. reflexivity. }
  assert (a0 = b0) by lia. subst b0.
  destruct (Z.eqb_spec (a1 - b1) 0) as [E1|E1]; cbn [negb].
  2:{ destruct (Z.lt_trichotomy a1 b1) as [Hlt|[Heq|Hgt]]; [|lia|].
      - rewrite !Z.sgn_neg by lia. reflexivity.
      - rewrite !Z.sgn_pos by lia. reflexivity. }
  assert (a1 = b1) by lia. subst b1.
  destruct (Z.eqb_spec (a2 - b2) 0) as [E2|E2]; cbn [negb].
  2:{ destruct (Z.lt_trichotomy a2 b2) as [Hlt|[Heq|Hgt]]; [|lia|].
      - rewrite !Z.sgn_neg by lia. reflexivity.
      - rewrite !Z.sgn_pos by lia. reflexivity. }
  assert (a2 = b2) by lia. subst b2.
  f_equal. lia.
Qed.

Lemma inet_inaddrcmp_sgn (be : bool) (family : Z) (a b : list byte) :
  family = AF_INET \/ family = AF_INET6 ->
  (addr_size family <= length a)%nat ->
  (addr_size family <= length b)%nat ->
  inet_inaddrcmp be family a b
  = Some (Z.sgn (network_value (take (addr_size family) a)
                 - network_value (take (addr_size family) b))).
Proof.
  intros Hfam H1 H2. unfold inet_inaddrcmp, addr_size in *.
  destruct (decide (family = AF_INET)) as [->|Hn4].
  - destruct (addr4_word be a H1) as (a0 & a1 & a2 & a3 & -> & ->).
    destruct (addr4_word be b H2) as (b0 & b1 & b2 & b3 & -> & ->).
    cbn [mbind option_bind]. rewrite !ntohl_network. apply sign_of_diff.
  - destruct Hfam as [? | ->]; [contradiction|].
    rewrite decide_True by reflexivity.
    destruct (addr16_words be a H1)
      as (v0 & v1 & v2 & v3 & -> & _ & _ & _ & _ & Hv).
    destruct (addr16_words be b H2)
      as (w0 & w1 & w2 & w3 & -> & _ & _ & _ & _ & Hw).
    destruct (Hv 0%nat v0 eq_refl) as (a0 & a1 & a2 & a3 & -> & Ha0).
    destruct (Hv 1%nat v1 eq_refl) as (a4 & a5 & a6 & a7 & -> & Ha1).
    destruct (Hv 2%nat v2 eq_refl) as (a8 & a9 & a10 & a11 & -> & Ha2).
    destruct (Hv 3%nat v3 eq_refl) as (a12 & a13 & a14 & a15 & -> & Ha3).
    destruct (Hw 0%nat w0 eq_refl) as (b0 & b1 & b2 & b3 & -> & Hb0).
    destruct (Hw 1%nat w1 eq_refl) as (b4 & b5 & b6 & b7 & -> & Hb1).
    destruct (Hw 2%nat w2 eq_refl) as (b8 & b9 & b10 & b11 & -> & Hb2).
    destruct (Hw 3%nat w3 eq_refl) as (b12 & b13 & b14 & b15 & -> & Hb3).
    clear Hv Hw.
    rewrite !network_value_app. cbn [length app].
    change (256 ^ Z.of_nat 4) with (2 ^ 32).
    pose proof (network_value_word_range a0 a1 a2 a3) as RA0.
    pose proof (network_value_word_range a4 a5 a6 a7) as RA1.
    pose proof (network_value_word_range a8 a9 a10 a11) as RA2.
    pose proof (network_value_word_range a12 a13 a14 a15) as RA3.
    pose proof (network_value_word_range b0 b1 b2 b3) as RB0.
    pose proof (network_value_word_range b4 b5 b6 b7) as RB1.
    pose proof (network_value_word_range b8 b9 b10 b11) as RB2.
    pose proof (network_value_word_range b12 b13 b14 b15) as RB3.
    cbn [inet_inaddrcmp_loop].
    rewrite Ha0, Ha1, Ha2, Ha3, Hb0, Hb1, Hb2, Hb3.
    cbn [mbind option_bind]. rewrite !ntohl_network.
    set (A0 := network_value [a0; a1; a2; a3]) in *.
    set (A1 := network_value [a4; a5; a6; a7]) in *.
    set (A2 := network_value [a8; a9; a10; a11]) in *.
    set (A3 := network_value [a12; a13; a14; a15]) in *.
    set (B0 := network_value [b0; b1; b2; b3]) in *.
    set (B1 := network_value [b4; b5; b6; b7]) in *.
    set (B2 := network_value [b8; b9; b10; b11]) in *.
    set (B3 := network_value [b12; b13; b14; b15]) in *.
    clearbody A0 A1 A2 A3 B0 B1 B2 B3.
    replace (A0 * 256 ^ Z.of_nat 12 + (A1 * 256 ^ Z.of_nat 8
                                       + (A2 * 2 ^ 32 + A3)))
      with (((A0 * 2 ^ 32 + A1) * 2 ^ 32 + A2) * 2 ^ 32 + A3)
      by (change (256 ^ Z.of_nat 12) with (2 ^ 32 * 2 ^ 32 * 2 ^ 32);
          change (256 ^ Z.of_nat 8) with (2 ^ 32 * 2 ^ 32); lia).
    replace (B0 * 256 ^ Z.of_nat 12 + (B1 * 256 ^ Z.of_nat 8
                                       + (B2 * 2 ^ 32 + B3)))
      with (((B0 * 2 ^ 32 + B1) * 2 ^ 32 + B2) * 2 ^ 32 + B3)
      by (change (256 ^ Z.of_nat 12) with (2 ^ 32 * 2 ^ 32 * 2 ^ 32);
          change (256 ^ Z.of_nat 8) with (2 ^ 32 * 2 ^ 32); lia).
    rewrite sgn_words by assumption.
    destruct (negb (A0 - B0 =? 0));
      [cbn [fmap option_fmap option_map mbind option_bind];
       apply sign_of_diff|].
    destruct (negb (A1 - B1 =? 0));
      [cbn [fmap option_fmap option_map mbind option_bind];
       apply sign_of_diff|].
    destruct (negb (A2 - B2 =? 0));
      [cbn [fmap option_fmap option_map mbind option_bind];
       apply sign_of_diff|].
    destruct (negb (A3 - B3 =? 0));
      cbn [fmap option_fmap option_map mbind option_bind];
      apply sign_of_diff.
Qed.

(** X11.  [inet_inaddrcmp] orders addresses as numbers in network byte
    order: for two IPv4 or two IPv6 addresses it returns 1, -1 or 0 as the
    bytes of the first, read with the first byte most significant, make a
    number greater than, less than or equal to that of the second,
    whatever the byte order of the host.  For any other family it
    returns -2. *)
Theorem inet_inaddrcmp_network_order (be : bool) (family : Z)
    (a b : list byte) :
  (addr_size family <= length a)%nat ->
  (addr_size family <= length b)%nat ->
  inet_inaddrcmp be family a b
  = Some (if decide (family = AF_INET \/ family = AF_INET6)
          then Z.sgn (network_value (take (addr_size family) a)
                      - network_value (take (addr_size family) b))
          else -2).
Proof.
  intros H1 H2.
  destruct (decide (family = AF_INET \/ family = AF_INET6)) as [Hfam|Hother].
  - by apply inet_inaddrcmp_sgn.
  - unfold inet_inaddrcmp.
    rewrite decide_False by tauto. rewrite decide_False by tauto.
    reflexivity.
Qed.

Lemma inet_inaddrcmp_network_order_witness :
  inet_inaddrcmp false AF_INET [x0a; x00; x00; x02] [x0a; x00; x01; x01]
  = Some (if decide (AF_INET = AF_INET \/ AF_INET = AF_INET6)
          then Z.sgn (network_value
                        (take (addr_size AF_INET) [x0a; x00; x00; x02])
                      - network_value
                          (take (addr_size AF_INET) [x0a; x00; x01; x01]))
          else -2).
Proof.
  apply (inet_inaddrcmp_network_order false AF_INET [x0a; x00; x00; x02]
           [x0a; x00; x01; x01]).
  - vm_compute. lia.
  - vm_compute. lia.
Defined.

(** ** sockstorage_equal and inet_sockaddrcmp *)

Lemma network_value_bound (l : list byte) :
  0 <= network_value l < 256 ^ Z.of_nat (length l).
Proof.
  induction l as [|c l IH] using rev_ind.
  - cbn. lia.
  - rewrite network_value_app, length_app. cbn [length].
    replace (Z.of_nat (length l + 1)) with (Z.succ (Z.of_nat (length l)))
      by lia.
    rewrite Z.pow_succ_r by lia. change (256 ^ Z.of_nat 1) with 256.
    pose proof (UtilsFacts.byte_val_range c).
    change (network_value [c]) with (0 * 256 + byte_val c). lia.
Qed.

Lemma network_value_inj (l1 : list byte) :
  forall l2, length l1 = length l2 ->
             network_value l1 = network_value l2 -> l1 = l2.
Proof.
  induction l1 as [|c1 l1 IH]; intros [|c2 l2] Hlen Heq;
    try discriminate Hlen; [reflexivity|].
  injection Hlen as Hlen.
  change (c1 :: l1) with ([c1] ++ l1) in Heq.
  change (c2 :: l2) with ([c2] ++ l2) in Heq.
  rewrite !network_value_app, <- Hlen in Heq.
  change (network_value [c1]) with (0 * 256 + byte_val c1) in Heq.
  change (network_value [c2]) with (0 * 256 + byte_val c2) in Heq.
  pose proof (network_value_bound l1) as B1.
  pose proof (network_value_bound l2) as B2. rewrite <- Hlen in B2.
  set (P := 256 ^ Z.of_nat (length l1)) in *.
  assert (Hc : byte_val c1 = byte_val c2 /\ network_value l1 = network_value l2).
  { apply (Z.div_mod_unique P); [lia|lia|lia]. }
  destruct Hc as [Hc Hn]. apply UtilsFacts.byte_val_inj in Hc. subst c2.
  f_equal. by apply IH.
Qed.

Lemma sgn_network_value (n : nat) (a b : list byte) :
  (n <= length a)%nat -> (n <= length b)%nat ->
  Z.sgn (network_value (take n a) - network_value (take n b)) = 0
  <-> take n a = take n b.
Proof.
  intros Ha Hb. rewrite Z.sgn_null_iff. split.
  - intros Heq. apply network_value_inj; [|lia].
    rewrite !length_take. lia.
  - intros ->. lia.
Qed.

(** The two comparisons of socket addresses agree up to the port. *)
Lemma sockstorage_equal_cmp_iff (be : bool) (s1 s2 : sockaddr_t) :
  sockaddr_sized s1 -> sockaddr_sized s2 ->
  exists eq cmp,
    sockstorage_equal be s1 s2 = Some eq
    /\ inet_sockaddrcmp be s1 s2 = Some cmp
    /\ (eq = true
        <-> cmp = 0
            /\ (ss_family s1 = AF_UNSPEC
                \/ ((ss_family s1 = AF_INET \/ ss_family s1 = AF_INET6)
                    /\ inet_sockaddrport s1 = inet_sockaddrport s2))).
Proof.
  intros [H14 H16] [H24 H26].
  unfold sockstorage_equal, inet_sockaddrcmp, inet_sockaddrport.
  destruct (decide (ss_family s1 <> ss_family s2)) as [Hne|Heq].
  { exists false, (-2). split; [reflexivity|]. split; [reflexivity|].
    split; [discriminate|]. intros [? _]. discriminate. }
  assert (Hfam : ss_family s2 = ss_family s1)
    by (destruct (decide (ss_family s1 = ss_family s2)); [auto|tauto]).
  rewrite Hfam.
  destruct (decide (ss_family s1 = AF_INET6)) as [E6|N6].
  - rewrite E6. rewrite decide_False by discriminate.
    rewrite (inet_inaddrcmp_sgn be AF_INET6)
      by first [by right|change (addr_size AF_INET6) with 16%nat; lia].
    destruct (ip6_addr_equal_spec be (sin6_addr s1) (sin6_addr s2))
      as (r & -> & Hr01 & Hr); [lia|lia|].
    cbn [mbind option_bind]. change (addr_size AF_INET6) with 16%nat.
    pose proof (sgn_network_value 16 (sin6_addr s1) (sin6_addr s2)
                  ltac:(lia) ltac:(lia)) as Hsgn.
    rewrite <- Hr in Hsgn.
    destruct Hr01 as [-> | ->]; cbn [Z.eqb negb andb].
    + exists false. eexists. split; [reflexivity|]. split; [reflexivity|].
      split; [discriminate|]. intros [Hz _]. apply Hsgn in Hz. discriminate.
    + destruct (Z.eqb_spec (sin6_port s1) (sin6_port s2)) as [Hp|Hp].
      * exists true. eexists. split; [reflexivity|]. split; [reflexivity|].
        split; [|reflexivity]. intros _. split; [by apply Hsgn|].
        right. split; [by right|exact Hp].
      * exists false. eexists. split; [reflexivity|]. split; [reflexivity|].
        split; [discriminate|]. intros [_ [?|[_ ?]]]; [discriminate|].
        contradiction.
  - destruct (decide (ss_family s1 = AF_INET)) as [E4|N4].
    + rewrite E4.
      rewrite (inet_inaddrcmp_sgn be AF_INET)
        by first [by left|change (addr_size AF_INET) with 4%nat; lia].
      destruct (in_addr_equal_spec be (sin_addr s1) (sin_addr s2))
        as (x & y & -> & -> & Hxy); [lia|lia|].
      cbn [mbind option_bind]. change (addr_size AF_INET) with 4%nat.
      pose proof (sgn_network_value 4 (sin_addr s1) (sin_addr s2)
                    ltac:(lia) ltac:(lia)) as Hsgn.
      rewrite <- Hxy in Hsgn.
      destruct (Z.eqb_spec x y) as [Hx|Hx]; cbn [andb].
      * destruct (Z.eqb_spec (sin_port s1) (sin_port s2)) as [Hp|Hp].
        -- exists true. eexists. split; [reflexivity|].
           split; [reflexivity|].
           split; [|reflexivity]. intros _. split; [by apply Hsgn|].
           right. split; [by left|exact Hp].
        -- exists false. eexists. split; [reflexivity|].
           split; [reflexivity|].
           split; [discriminate|]. intros [_ [?|[_ ?]]]; [discriminate|].
           contradiction.
      * exists false. eexists. split; [reflexivity|]. split; [reflexivity|].
        split; [discriminate|]. intros [Hz _]. apply Hsgn in Hz.
        contradiction.
    + destruct (decide (ss_family s1 = AF_UNSPEC)) as [E0|N0].
      * exists true, 0. split; [reflexivity|]. split; [reflexivity|].
        split; [|reflexivity]. intros _. split; [reflexivity|by left].
      * exists false, 0. split; [reflexivity|]. split; [reflexivity|].
        split; [discriminate|]. intros [_ [?|[[?|?] _]]]; contradiction.
Qed.


(** X12.  The two comparisons of socket addresses agree up to the port:
    [sockstorage_equal] returns true exactly when [inet_sockaddrcmp]
    returns 0 and either the family is AF_UNSPEC (then no port is looked
    at) or it is AF_INET or AF_INET6 and the ports [inet_sockaddrport]
    reads are the same.  For addresses of different families
    [inet_sockaddrcmp] returns -2 and [sockstorage_equal] false; for two
    addresses of one family other than AF_INET and AF_INET6
    [inet_sockaddrcmp] returns 0, and [sockstorage_equal] false unless the
    family is AF_UNSPEC. *)
Theorem sockstorage_equal_sockaddrcmp (be : bool) (s1 s2 : sockaddr_t) :
  sockaddr_sized s1 -> sockaddr_sized s2 ->
  exists eq cmp,
    sockstorage_equal be s1 s2 = Some eq
    /\ inet_sockaddrcmp be s1 s2 = Some cmp
    /\ (eq = true
        <-> cmp = 0
            /\ (ss_family s1 = AF_UNSPEC
                \/ ((ss_family s1 = AF_INET \/ ss_family s1 = AF_INET6)
                    /\ inet_sockaddrport s1 = inet_sockaddrport s2)))
    /\ (ss_family s1 <> ss_family s2 -> cmp = -2 /\ eq = false)
    /\ (ss_family s1 = ss_family s2 ->
        ss_family s1 <> AF_INET -> ss_family s1 <> AF_INET6 ->
        cmp = 0 /\ (ss_family s1 <> AF_UNSPEC -> eq = false)).
Proof.
  intros H1 H2.
  destruct (sockstorage_equal_cmp_iff be s1 s2 H1 H2)
    as (eq & cmp & Heq & Hcmp & Hiff).
  exists eq, cmp. split; [exact Heq|]. split; [exact Hcmp|].
  split; [exact Hiff|].
  unfold sockstorage_equal, inet_sockaddrcmp in Heq, Hcmp. split.
  - intros Hne. rewrite decide_True in Heq by exact Hne.
    rewrite decide_True in Hcmp by exact Hne.
    injection Heq as <-. injection Hcmp as <-. auto.
  - intros Hsame H4 H6.
    rewrite decide_False in Heq by (intros Hne; now apply Hne).
    rewrite decide_False in Hcmp by (intros Hne; now apply Hne).
    rewrite (decide_False (P := ss_family s1 = AF_INET6)) in Heq by exact H6.
    rewrite (decide_False (P := ss_family s1 = AF_INET)) in Heq by exact H4.
    rewrite (decide_False (P := ss_family s1 = AF_INET)) in Hcmp by exact H4.
    rewrite (decide_False (P := ss_family s1 = AF_INET6)) in Hcmp by exact H6.
    injection Hcmp as <-. split; [reflexivity|]. intros H0.
    rewrite decide_False in Heq by exact H0. now injection Heq as <-.
Qed.

Lemma sockstorage_equal_sockaddrcmp_witness :
  let s1 := {| ss_family := AF_INET; sin_port := 80;
               sin_addr := [x0a; x00; x00; x01]; sin6_port := 80;
               sin6_addr := replicate 16 x00 |} in
  let s2 := {| ss_family := AF_INET; sin_port := 443;
               sin_addr := [x0a; x00; x00; x01]; sin6_port := 443;
               sin6_addr := replicate 16 x00 |} in
  exists eq cmp,
    sockstorage_equal false s1 s2 = Some eq
    /\ inet_sockaddrcmp false s1 s2 = Some cmp
    /\ (eq = true
        <-> cmp = 0
            /\ (ss_family s1 = AF_UNSPEC
                \/ ((ss_family s1 = AF_INET \/ ss_family s1 = AF_INET6)
                    /\ inet_sockaddrport s1 = inet_sockaddrport s2)))
    /\ (ss_family s1 <> ss_family s2 -> cmp = -2 /\ eq = false)
    /\ (ss_family s1 = ss_family s2 ->
        ss_family s1 <> AF_INET -> ss_family s1 <> AF_INET6 ->
        cmp = 0 /\ (ss_family s1 <> AF_UNSPEC -> eq = false)).
Proof.
  intros s1 s2.
  apply (sockstorage_equal_sockaddrcmp false s1 s2); split; reflexivity.
Defined.

(** ** get_open_fds *)

Lemma strtoul_digits_nonneg (s : list byte) :
  forall acc, 0 <= acc -> 0 <= strtoul_digits s acc.
Proof.
  induction s as [|c s IH]; intros acc Hacc; cbn [strtoul_digits]; [lia|].
  unfold isdigit. destruct (Z.leb_spec 48 (byte_val c)); cbn [andb]; [|lia].
  destruct (Z.leb_spec (byte_val c) 57); [|lia]. apply IH. lia.
Qed.

Lemma strtoul_range (s : list byte) : 0 <= strtoul s < 2 ^ 64.
Proof.
  unfold strtoul, ULONG_MAX.
  pose proof (strtoul_digits_nonneg s 0 ltac:(lia)). lia.
Qed.

Lemma fd_word_eq (fd f : Z) :
  0 <= fd -> 0 <= f ->
  (Z.to_nat (fd / 64) = Z.to_nat (f / 64) /\ fd mod 64 = f mod 64) <-> fd = f.
Proof.
  intros Hfd Hf.
  pose proof (Z.div_mod fd 64 ltac:(lia)).
  pose proof (Z.div_mod f 64 ltac:(lia)).
  pose proof (Z.div_pos fd 64 Hfd ltac:(lia)).
  pose proof (Z.div_pos f 64 Hf ltac:(lia)).
  split; [intros [Hd Hm]; lia|intros ->; auto].
Qed.

Lemma fd_bit_insert (fds : list Z) (f word fd : Z) :
  0 <= f -> 0 <= fd ->
  fds !! Z.to_nat (f / 64) = Some word ->
  fd_bit (<[Z.to_nat (f / 64) := Z.lor word (Z.shiftl 1 (f mod 64))]> fds) fd
  = fd_bit fds fd || (fd =? f).
Proof.
  intros Hf Hfd Hw. unfold fd_bit.
  pose proof (Z.mod_pos_bound f 64 ltac:(lia)) as Hm.
  pose proof (Z.mod_pos_bound fd 64 ltac:(lia)) as Hm'.
  destruct (decide (Z.to_nat (fd / 64) = Z.to_nat (f / 64))) as [Heq|Hne].
  - rewrite Heq, list_lookup_insert_eq, Hw
      by (apply lookup_lt_is_Some; eauto).
    rewrite Z.lor_spec, Z.shiftl_1_l, Z.pow2_bits_eqb by lia. f_equal.
    destruct (Z.eqb_spec (f mod 64) (fd mod 64)) as [E|E],
             (Z.eqb_spec fd f) as [E'|E']; try reflexivity; exfalso.
    + apply E'. apply fd_word_eq; auto.
    + apply E. by rewrite E'.
  - rewrite list_lookup_insert_ne by auto.
    destruct (Z.eqb_spec fd f) as [->|_]; [contradiction|].
    by rewrite orb_false_r.
Qed.

Lemma lor_bit_bounded (word m : Z) :
  0 <= word < 2 ^ 64 -> 0 <= m < 64 ->
  0 <= Z.lor word (Z.shiftl 1 m) < 2 ^ 64.
Proof.
  intros Hw Hm. rewrite Z.shiftl_1_l.
  assert (H0 : 0 <= Z.lor word (2 ^ m)).
  { apply Z.lor_nonneg. split; [lia|]. apply Z.pow_nonneg. lia. }
  split; [exact H0|].
  apply (Z.bounded_iff_bits_nonneg 64); [lia|exact H0|].
  intros l Hl. rewrite Z.lor_spec, Z.pow2_bits_false by lia.
  rewrite orb_false_r.
  apply (Z.bounded_iff_bits_nonneg 64 word); lia.
Qed.

Section GetOpenFdsFacts.
Variable fstat_fails_or_dir : Z -> bool.

Lemma recorded_fds_cons (d_name : list byte) (ents : list (list byte)) :
  recorded_fds fstat_fails_or_dir (d_name :: ents)
  = match head d_name with
    | Some c =>
        if isdigit c && negb (fstat_fails_or_dir (strtoul d_name))
        then strtoul d_name :: recorded_fds fstat_fails_or_dir ents
        else recorded_fds fstat_fails_or_dir ents
    | None => recorded_fds fstat_fails_or_dir ents
    end.
Proof.
  unfold recorded_fds. cbn [omap list_omap].
  destruct (head d_name) as [c|]; cbn [mbind option_bind]; [|reflexivity].
  destruct (isdigit c && negb (fstat_fails_or_dir (strtoul d_name)));
    reflexivity.
Qed.

Lemma get_open_fds_loop_spec (ents : list (list byte)) :
  forall fds max_fd,
    Forall (fun d_name => d_name <> []) ents ->
    Forall (fun fd => fd / 64 < Z.of_nat (length fds))
      (recorded_fds fstat_fails_or_dir ents) ->
    exists fds',
      get_open_fds_loop fstat_fails_or_dir ents fds max_fd
      = Some (fds',
              fold_left (fun m fd => if fd >? m then to_uint32 fd else m)
                (recorded_fds fstat_fails_or_dir ents) max_fd)
      /\ length fds' = length fds
      /\ (forall fd, 0 <= fd ->
                     fd_bit fds' fd = true
                     <-> fd_bit fds fd = true
                         \/ fd ∈ recorded_fds fstat_fails_or_dir ents)
      /\ (forall n, Forall (fun word => 0 <= word < 2 ^ 64) (take n fds) ->
                    Forall (fun word => 0 <= word < 2 ^ 64) (take n fds'))
      /\ (forall n, (forall fd, fd ∈ recorded_fds fstat_fails_or_dir ents ->
                                fd / 64 < Z.of_nat n) ->
                    drop n fds' = drop n fds).
Proof.
  induction ents as [|d_name ents IH]; intros fds max_fd Hne Hfit.
  - exists fds. cbn. split; [reflexivity|]. split; [reflexivity|].
    split; [|auto].
    intros fd _. split; [auto|]. intros [H|H]; [exact H|].
    by apply elem_of_nil in H.
  - apply Forall_cons in Hne as [Hd Hne].
    rewrite recorded_fds_cons in *. cbn [get_open_fds_loop].
    destruct d_name as [|c rest]; [contradiction|]. cbn [head] in *.
    cbn [mbind option_bind].
    destruct (isdigit c); cbn [negb andb] in *; [|by apply IH].
    set (f := strtoul (c :: rest)) in *.
    destruct (fstat_fails_or_dir f); cbn [negb] in *; [by apply IH|].
    apply Forall_cons in Hfit as [Hf Hfit].
    pose proof (strtoul_range (c :: rest)) as Hfr. fold f in Hfr.
    assert (Hf0 : 0 <= f / 64) by (apply Z.div_pos; lia).
    destruct (lookup_lt_is_Some_2 fds (Z.to_nat (f / 64)) ltac:(lia))
      as [word Hword].
    rewrite Hword. cbn [mbind option_bind fold_left].
    set (fds1 := <[Z.to_nat (f / 64) :=
                     Z.lor word (Z.shiftl 1 (f mod 64))]> fds).
    assert (Hlen1 : length fds1 = length fds) by apply length_insert.
    destruct (IH fds1 (if f >? max_fd then to_uint32 f else max_fd) Hne)
      as (fds' & Hrun & Hlen & Hbits & Hbound & Hrest);
      [by rewrite Hlen1|].
    exists fds'. split; [exact Hrun|]. split; [congruence|].
    split; [|split].
    + intros fd Hfd. rewrite Hbits by exact Hfd.
      subst fds1. rewrite fd_bit_insert by (auto; lia).
      rewrite orb_true_iff, Z.eqb_eq, elem_of_cons. tauto.
    + intros n Hn. apply Hbound. subst fds1.
      destruct (decide (Z.to_nat (f / 64) < n)%nat) as [Hlt|Hge].
      * rewrite take_insert_lt by exact Hlt.
        apply Forall_insert; [exact Hn|].
        apply lor_bit_bounded; [|apply Z.mod_pos_bound; lia].
        rewrite Forall_lookup in Hn.
        apply (Hn (Z.to_nat (f / 64)) word).
        rewrite lookup_take_lt by exact Hlt. exact Hword.
      * rewrite take_insert_ge by lia. exact Hn.
    + intros n Hn. rewrite Hrest.
      * subst fds1. apply drop_insert_lt.
        specialize (Hn f ltac:(apply elem_of_cons; auto)). lia.
      * intros fd Hfd. apply Hn. apply elem_of_cons. auto.
Qed.

Lemma foldr_max_nonneg (l : list Z) : 0 <= foldr Z.max 0 l.
Proof. induction l as [|x l IH]; cbn [foldr]; lia. Qed.

Lemma fold_max_fd (l : list Z) :
  forall m, 0 <= m -> Forall (fun fd => 0 <= fd < 2 ^ 32) l ->
            fold_left (fun m fd => if fd >? m then to_uint32 fd else m) l m
            = Z.max m (foldr Z.max 0 l).
Proof.
  induction l as [|fd l IH]; intros m Hm Hl; cbn [fold_left foldr]; [lia|].
  apply Forall_cons in Hl as [Hfd Hl].
  pose proof (foldr_max_nonneg l).
  destruct (Z.gtb_spec fd m).
  - unfold to_uint32. rewrite Z.mod_small by lia. rewrite IH by (auto; lia).
    lia.
  - rewrite IH by auto. lia.
Qed.

End GetOpenFdsFacts.


(** ** format_mac_buf *)

Lemma snprintf_run (done rest out : list byte) (size : Z) :
  0 < size ->
  Z.of_nat (length done) + size <= Z.of_nat (length (done ++ rest)) ->
  snprintf (done ++ rest) (Z.of_nat (length done)) size out
  = Some (done
          ++ take (Z.to_nat (Z.min (Z.of_nat (length out)) (size - 1))) out
          ++ [x00]
          ++ drop (S (Z.to_nat (Z.min (Z.of_nat (length out)) (size - 1))))
               rest,
          Z.of_nat (length out)).
Proof.
  intros Hsize Hfit. unfold snprintf.
  destruct (Z.eqb_spec size 0) as [?|_]; [lia|]. cbv zeta.
  set (n := Z.min (Z.of_nat (length out)) (size - 1)).
  assert (Hn : 0 <= n) by (subst n; lia).
  rewrite decide_True by (subst n; lia).
  rewrite Nat2Z.id, take_app_length. do 5 f_equal.
  replace (Z.to_nat (Z.of_nat (length done) + n + 1))
    with (length done + S (Z.to_nat n))%nat by lia.
  apply drop_app_add.
Qed.

Lemma drop_rest (rest orig : list byte) (d k : nat) :
  drop 1 rest = drop (S d) orig -> drop (S k) rest = drop (S (d + k)) orig.
Proof.
  intros H. change (S k) with (1 + k)%nat.
  rewrite <- drop_drop, H, drop_drop. reflexivity.
Qed.

Lemma mac_string_cons (c : byte) (l : list byte) :
  mac_string (c :: l)
  = (hex2 c ++ (if decide (l = []) then [] else [":"%byte])) ++ mac_string l.
Proof.
  cbn [mac_string]. destruct l as [|c' l].
  - rewrite decide_True by reflexivity. by rewrite !app_nil_r.
  - rewrite decide_False by discriminate. by rewrite <- app_assoc.
Qed.

Lemma format_mac_buf_loop_S (n : nat) (i : Z) (addr : list byte)
    (addr_len : Z) (buf : list byte) (op buf_end : Z) :
  format_mac_buf_loop (S n) i addr addr_len buf op buf_end
  = (c ← addr !! Z.to_nat i;
     '(buf, r) ← snprintf buf op (to_size_t (buf_end - op))
                   (hex2 c ++ (if i <? to_size_t (addr_len - 1)
                               then [":"%byte] else []));
     if op + r >=? buf_end - 1 then Some buf
     else format_mac_buf_loop n (i + 1) addr addr_len buf (op + r) buf_end).
Proof. reflexivity. Qed.

Section FormatMacBuf.
Variable orig addr : list byte.
Variable op_len addr_len : Z.
Hypothesis Hop_len : 0 <= op_len <= Z.of_nat (length orig).
Hypothesis Hop_max : op_len <= SIZE_MAX.
Hypothesis Haddr_len : 0 <= addr_len <= Z.of_nat (length addr).
Hypothesis Haddr_max : addr_len <= SIZE_MAX.

Lemma format_mac_buf_loop_spec (n : nat) :
  forall (i : Z) (done rest : list byte),
    Z.of_nat (S n) = addr_len - i -> 0 <= i ->
    Z.of_nat (length done) <= op_len ->
    length (done ++ rest) = length orig ->
    drop 1 rest = drop (S (length done)) orig ->
    format_mac_buf_loop (S n) i addr addr_len (done ++ rest)
      (Z.of_nat (length done)) op_len
    = Some (if op_len - Z.of_nat (length done) =? 0 then done ++ rest
            else
              let text := mac_string (drop (Z.to_nat i)
                                        (take (Z.to_nat addr_len) addr)) in
              let m := Nat.min (length text)
                         (Z.to_nat (op_len - Z.of_nat (length done) - 1)) in
              done ++ take m text ++ [x00]
              ++ drop (S (length done + m)) orig).
Proof.
  induction n as [|n IH]; intros i done rest Hn Hi Hop Hlen Hrest;
    rewrite format_mac_buf_loop_S;
    destruct (lookup_lt_is_Some_2 addr (Z.to_nat i) ltac:(lia)) as [c Hc];
    rewrite Hc; cbn [mbind option_bind];
    (assert (Hdrop : drop (Z.to_nat i) (take (Z.to_nat addr_len) addr)
                     = c :: drop (S (Z.to_nat i))
                              (take (Z.to_nat addr_len) addr))
      by (apply drop_S; rewrite lookup_take_lt by lia; exact Hc));
    rewrite Hdrop, mac_string_cons;
    set (tail := drop (S (Z.to_nat i)) (take (Z.to_nat addr_len) addr)) in *;
    (assert (Htail : Z.of_nat (length tail) = addr_len - i - 1)
      by (subst tail; rewrite length_drop, length_take; lia));
    unfold to_size_t;
    rewrite (Z.mod_small (op_len - _)) by (unfold SIZE_MAX in *; lia);
    rewrite (Z.mod_small (addr_len - 1)) by (unfold SIZE_MAX in *; lia);
    set (size := op_len - Z.of_nat (length done)) in *.
  - (* the last byte of the address *)
    destruct tail; [|cbn [length] in Htail; lia].
    rewrite decide_True by reflexivity.
    destruct (Z.ltb_spec i (addr_len - 1)) as [?|_]; [lia|].
    rewrite !app_nil_r. set (out := hex2 c).
    destruct (Z.eqb_spec size 0) as [Hz|Hnz].
    + unfold snprintf. rewrite Hz. cbn [Z.eqb mbind option_bind].
      match goal with |- context [?a >=? ?b] => destruct (a >=? b) end;
        reflexivity.
    + rewrite snprintf_run by lia. cbn [mbind option_bind].
      assert (Hfinal : done ++ take (Z.to_nat (Z.min (Z.of_nat (length out))
                                                 (size - 1))) out
                       ++ [x00]
                       ++ drop (S (Z.to_nat (Z.min (Z.of_nat (length out))
                                               (size - 1)))) rest
                       = done ++ take (length out `min` Z.to_nat (size - 1))
                                   out
                         ++ [x00]
                         ++ drop (S (length done
                                     + length out `min` Z.to_nat (size - 1)))
                              orig).
      { replace (Z.to_nat (Z.min (Z.of_nat (length out)) (size - 1)))
          with (length out `min` Z.to_nat (size - 1))%nat by lia.
        do 3 f_equal. by apply drop_rest. }
      rewrite Hfinal.
      match goal with |- context [?a >=? ?b] => destruct (a >=? b) end;
        reflexivity.
  - (* a byte followed by a colon *)
    rewrite decide_False
      by (intros E; rewrite E in Htail; cbn [length] in Htail; lia).
    destruct (Z.ltb_spec i (addr_len - 1)) as [_|?]; [|lia].
    set (out := hex2 c ++ [":"%byte]).
    assert (Hout : length out = 3%nat) by reflexivity.
    destruct (Z.eqb_spec size 0) as [Hz|Hnz].
    + unfold snprintf. rewrite Hz. cbn [Z.eqb mbind option_bind].
      rewrite Hout.
      destruct (Z.geb_spec (Z.of_nat (length done) + Z.of_nat 3)
                  (op_len - 1)) as [_|?]; [reflexivity|lia].
    + rewrite snprintf_run by lia. cbn [mbind option_bind]. rewrite Hout.
      destruct (Z.geb_spec (Z.of_nat (length done) + Z.of_nat 3)
                  (op_len - 1)) as [Hbrk|Hgo].
      * (* the buffer is full *)
        f_equal.
        replace (Z.to_nat (Z.min (Z.of_nat 3) (size - 1)))
          with (Z.to_nat (size - 1)) by lia.
        rewrite length_app, Hout.
        replace ((3 + length (mac_string tail)) `min` Z.to_nat (size - 1))%nat
          with (Z.to_nat (size - 1)) by lia.
        rewrite take_app_le by lia. do 3 f_equal. by apply drop_rest.
      * (* the next byte *)
        replace (Z.to_nat (Z.min (Z.of_nat 3) (size - 1))) with 3%nat by lia.
        rewrite (take_ge out) by lia.
        replace (done ++ out ++ [x00] ++ drop 4 rest)
          with ((done ++ out) ++ [x00] ++ drop 4 rest)
          by (by rewrite <- app_assoc).
        replace (Z.of_nat (length done) + Z.of_nat 3)
          with (Z.of_nat (length (done ++ out)))
          by (rewrite length_app, Hout; lia).
        assert (Hrest' : drop 4 rest = drop (S (length (done ++ out))) orig).
        { rewrite length_app, Hout. by apply drop_rest. }
        rewrite IH.
        -- rewrite length_app, Hout.
           destruct (Z.eqb_spec (op_len - Z.of_nat (length done + 3)) 0)
             as [?|_]; [lia|].
           f_equal. cbv zeta.
           replace (Z.to_nat (i + 1)) with (S (Z.to_nat i)) by lia.
           fold tail. rewrite length_app, Hout.
           set (text := mac_string tail).
           replace ((3 + length text) `min` Z.to_nat (size - 1))%nat
             with (3 + length text
                       `min` Z.to_nat (op_len - Z.of_nat (length done + 3)
                                       - 1))%nat by lia.
           rewrite take_app_add' by exact Hout.
           rewrite <- !app_assoc. do 5 f_equal. lia.
        -- lia.
        -- lia.
        -- rewrite length_app, Hout. lia.
        -- rewrite <- Hlen, !length_app, Hout. cbn [length].
           rewrite length_drop.
           assert (Z.of_nat (length rest) >= size)
             by (rewrite length_app in Hlen; lia).
           lia.
        -- cbn [app drop]. exact Hrest'.
Qed.
End FormatMacBuf.

(** X14.  [format_mac_buf] writes the address as two lowercase
    hexadecimal digits a byte with colons between the bytes, cut to the
    first [op_len] - 1 characters when the buffer is shorter than the text,
    and always followed by a NUL (an empty address gives the empty
    string).  Nothing is written past the NUL, so nothing outside the
    [op_len] bytes of the buffer; a buffer of length 0 is left alone. *)
Theorem format_mac_buf_truncates (op addr : list byte) (op_len addr_len : Z) :
  0 <= op_len <= Z.of_nat (length op) ->
  op_len <= SIZE_MAX ->
  0 <= addr_len <= Z.of_nat (length addr) ->
  addr_len <= SIZE_MAX ->
  format_mac_buf op op_len addr addr_len
  = Some (if op_len =? 0 then op
          else
            let text := mac_string (take (Z.to_nat addr_len) addr) in
            let m := Nat.min (length text) (Z.to_nat (op_len - 1)) in
            take m text ++ [x00] ++ drop (S m) op).
Proof.
  intros Hop Hopm Haddr Haddrm. unfold format_mac_buf.
  destruct (Z.eqb_spec addr_len 0) as [->|Hnz]; cbn [andb].
  - destruct (Z.eqb_spec op_len 0) as [->|Hoz]; cbn [negb]; [reflexivity|].
    unfold store. rewrite decide_True by lia. cbn.
    destruct op as [|c op]; [cbn [length] in Hop; lia|]. reflexivity.
  - destruct (Z.to_nat addr_len) as [|n] eqn:Hn; [lia|].
    pose proof (format_mac_buf_loop_spec op addr op_len addr_len
                  Hop Hopm Haddr Haddrm n 0 [] op
                  ltac:(cbn [length]; lia) ltac:(lia)
                  ltac:(cbn [length]; lia) eq_refl eq_refl) as Hloop.
    cbn [app length] in Hloop. change (Z.of_nat 0) with 0 in Hloop.
    rewrite Hloop, Z.sub_0_r. cbn [Z.to_nat drop Nat.add].
    rewrite Hn. reflexivity.
Qed.

Lemma format_mac_buf_truncates_witness :
  format_mac_buf (replicate 8 x2e) 7 [x00; x1c; xff] 3
  = Some (if 7 =? 0 then replicate 8 x2e
          else
            let text := mac_string (take (Z.to_nat 3) [x00; x1c; xff]) in
            let m := Nat.min (length text) (Z.to_nat (7 - 1)) in
            take m text ++ [x00] ++ drop (S m) (replicate 8 x2e)).
Proof.
  apply (format_mac_buf_truncates (replicate 8 x2e) [x00; x1c; xff] 7 3).
  - simpl. lia.
  - unfold SIZE_MAX. lia.
  - simpl. lia.
  - unfold SIZE_MAX. lia.
Defined.

(** ** make_file_name *)

Lemma strrchr_from_spec (c : byte) (s : list byte) :
  c <> x00 -> x00 ∉ s ->
  forall off last,
    ((c ∉ s) /\ strrchr_from (s ++ [x00]) c off last = Some last)
    \/ (exists pre post,
           s = pre ++ c :: post /\ (c ∉ post)
           /\ strrchr_from (s ++ [x00]) c off last
              = Some (Some (off + length pre)%nat)).
Proof.
  intros Hc. induction s as [|x s IH]; intros Hnul off last.
  - left. split; [apply not_elem_of_nil|]. cbn [app strrchr_from].
    destruct (Byte.eqb x00 c) eqn:E; [|reflexivity].
    apply Byte.byte_dec_bl in E. congruence.
  - apply not_elem_of_cons in Hnul as [Hx Hnul].
    cbn [app strrchr_from].
    destruct (Byte.eqb x x00) eqn:Ex;
      [apply Byte.byte_dec_bl in Ex; congruence|].
    destruct (Byte.eqb x c) eqn:Exc.
    + apply Byte.byte_dec_bl in Exc. subst x.
      destruct (IH Hnul (S off) (Some off)) as [[Hnot ->]|Hfound].
      * right. exists [], s. split; [reflexivity|]. split; [exact Hnot|].
        cbn [length]. do 2 f_equal. lia.
      * destruct Hfound as (pre & post & -> & Hpost & ->).
        right. exists (c :: pre), post. split; [reflexivity|].
        split; [exact Hpost|]. cbn [length]. do 2 f_equal. lia.
    + apply Byte.eqb_false in Exc.
      destruct (IH Hnul (S off) last) as [[Hnot ->]|Hfound].
      * left. split; [|reflexivity].
        apply not_elem_of_cons. split; [congruence|exact Hnot].
      * destruct Hfound as (pre & post & -> & Hpost & ->).
        right. exists (x :: pre), post. split; [reflexivity|].
        split; [exact Hpost|]. cbn [length]. do 2 f_equal. lia.
Qed.

Lemma strrchr_spec (c : byte) (s : list byte) :
  c <> x00 -> x00 ∉ s ->
  ((c ∉ s) /\ strrchr (s ++ [x00]) c = Some None)
  \/ (exists pre post,
         s = pre ++ c :: post /\ (c ∉ post)
         /\ strrchr (s ++ [x00]) c = Some (Some (length pre))).
Proof.
  intros Hc Hs. exact (strrchr_from_spec c s Hc Hs 0%nat None).
Qed.

(** A buffer that holds the string [s] and [k] NUL bytes after it. *)
Lemma strlen_zero_padded (s : list byte) (k : nat) :
  x00 ∉ s -> (0 < k)%nat ->
  strlen (s ++ replicate k x00) = Some (length s).
Proof.
  intros Hs Hk. destruct k as [|k]; [lia|].
  cbn [replicate]. by apply UtilsFacts.strlen_app_nul.
Qed.

Lemma strcat_zero_padded (s t rest : list byte) (k : nat) :
  x00 ∉ s -> x00 ∉ t -> (length t < k)%nat ->
  strcat (s ++ replicate k x00) (t ++ x00 :: rest)
  = Some ((s ++ t) ++ replicate (k - length t) x00).
Proof.
  intros Hs Ht Hk. unfold strcat.
  rewrite strlen_zero_padded by (auto; lia). cbn [mbind option_bind].
  unfold strcpy. rewrite UtilsFacts.strlen_app_nul by exact Ht.
  cbn [mbind option_bind]. rewrite Nat2Z.id, drop_app_length.
  unfold memcpy.
  rewrite decide_True
    by (rewrite length_app, length_replicate; cbn [length]; lia).
  cbn [mbind option_bind].
  rewrite decide_True by (rewrite length_app; lia).
  rewrite take_app_length. f_equal.
  replace (Z.to_nat (Z.of_nat (length t) + 1)) with (length t + 1)%nat by lia.
  replace (t ++ x00 :: rest) with ((t ++ [x00]) ++ rest)
    by (by rewrite <- app_assoc).
  rewrite take_app_length' by (rewrite length_app; cbn [length]; lia).
  rewrite drop_replicate. rewrite <- !app_assoc. do 2 f_equal.
  replace (k - length t)%nat with (S (k - (length t + 1))) by lia.
  reflexivity.
Qed.

Lemma strncat_zero_padded (s t src : list byte) (n : Z) (k : nat) :
  x00 ∉ s -> x00 ∉ t -> (length t < k)%nat -> 0 <= n ->
  (src = t ++ [x00] /\ Z.of_nat (length t) <= n
   \/ exists rest, src = t ++ rest /\ n = Z.of_nat (length t)) ->
  strncat (s ++ replicate k x00) src n
  = Some ((s ++ t) ++ replicate (k - length t) x00).
Proof.
  intros Hs Ht Hk Hn Hsrc. unfold strncat.
  rewrite strlen_zero_padded by (auto; lia). cbn [mbind option_bind].
  assert (Hcopied :
            match strlen (take (Z.to_nat n) src) with
            | Some m => Some (take m src)
            | None => if decide (n <= Z.of_nat (length src))
                      then Some (take (Z.to_nat n) src) else None
            end = Some t).
  { destruct Hsrc as [[-> Hle]|(rest & -> & ->)].
    - destruct (decide (n = Z.of_nat (length t))) as [->|Hne].
      + rewrite Nat2Z.id, take_app_length.
        destruct (strlen t) as [m|] eqn:Hm.
        * exfalso. apply UtilsFacts.strlen_Some in Hm
            as (pre & post & -> & _ & _).
          apply Ht. apply elem_of_app. right. left.
        * rewrite decide_True by (rewrite length_app; lia). reflexivity.
      + rewrite take_ge by (rewrite length_app; cbn [length]; lia).
        rewrite UtilsFacts.strlen_app_nul by exact Ht.
        by rewrite take_app_length.
    - rewrite Nat2Z.id, take_app_length.
      destruct (strlen t) as [m|] eqn:Hm.
      + exfalso. apply UtilsFacts.strlen_Some in Hm
          as (pre & post & -> & _ & _).
        apply Ht. apply elem_of_app. right. left.
      + rewrite decide_True by (rewrite length_app; lia). reflexivity. }
  rewrite Hcopied. cbn [mbind option_bind].
  rewrite decide_True by (rewrite length_app, length_replicate; lia).
  rewrite take_app_length. f_equal.
  replace (length s + length t + 1)%nat with (length s + (length t + 1))%nat
    by lia.
  rewrite drop_app_add, drop_replicate.
  rewrite <- !app_assoc. do 2 f_equal.
  replace (k - length t)%nat with (S (k - (length t + 1))) by lia.
  reflexivity.
Qed.

Lemma strcpy_zero_padded (t rest : list byte) (k : nat) :
  x00 ∉ t -> (length t < k)%nat ->
  strcpy (replicate k x00) 0 (t ++ x00 :: rest)
  = Some (t ++ replicate (k - length t) x00).
Proof.
  intros Ht Hk.
  pose proof (strcat_zero_padded [] t rest k (not_elem_of_nil _) Ht Hk) as H.
  pose proof (strlen_zero_padded [] k (not_elem_of_nil _) ltac:(lia)) as Hl.
  unfold strcat in H. cbn [app length] in H, Hl. rewrite Hl in H.
  exact H.
Qed.

Lemma append_part_zero_padded (s : list byte) (p : option (list byte))
    (k : nat) :
  x00 ∉ s -> no_nul p -> (length (part p) < k)%nat ->
  append_part (s ++ replicate k x00) (c_object <$> p)
  = Some ((s ++ part p) ++ replicate (k - length (part p)) x00).
Proof.
  intros Hs Hp Hk. destruct p as [t|]; cbn [part no_nul length] in *.
  - cbn [fmap option_fmap option_map append_part].
    change (c_str "_") with (["_"%byte] ++ [x00]).
    rewrite strcat_zero_padded; [|exact Hs| |cbn [length]; lia].
    2:{ apply not_elem_of_cons. split; [discriminate|apply not_elem_of_nil]. }
    cbn [mbind option_bind length]. unfold c_object.
    rewrite strcat_zero_padded; [| |exact Hp|lia].
    2:{ apply not_elem_of_app. split; [exact Hs|].
        apply not_elem_of_cons. split; [discriminate|apply not_elem_of_nil]. }
    f_equal. rewrite <- !app_assoc. cbn [app]. do 4 f_equal. lia.
  - cbn [fmap option_fmap option_map append_part].
    rewrite app_nil_r, Nat.sub_0_r. reflexivity.
Qed.

Lemma add_part_len_spec (len : Z) (p : option (list byte)) :
  no_nul p -> 0 <= len ->
  len + Z.of_nat (length (part p)) <= SIZE_MAX ->
  add_part_len len (c_object <$> p)
  = Some (len + Z.of_nat (length (part p))).
Proof.
  intros Hp Hlen Hmax. destruct p as [t|]; cbn [part no_nul length] in *.
  - cbn [fmap option_fmap option_map add_part_len]. unfold c_object.
    rewrite UtilsFacts.strlen_app_nul by exact Hp.
    cbn [mbind option_bind]. unfold to_size_t, SIZE_MAX in *.
    rewrite (Z.mod_small (Z.of_nat (length t) + 1)) by lia.
    rewrite Z.mod_small by lia. f_equal. lia.
  - cbn. f_equal. lia.
Qed.

Lemma part_no_nul (p : option (list byte)) : no_nul p -> x00 ∉ part p.
Proof.
  destruct p as [t|]; cbn; intros H; [|apply not_elem_of_nil].
  apply not_elem_of_cons. split; [discriminate|exact H].
Qed.

(** The search for the extension: [dir_end] and [extn_start]. *)
Lemma extension_search (nm : list byte) :
  x00 ∉ nm ->
  exists stem ext,
    nm = stem ++ ext /\ is_extension stem ext
    /\ extension_start (nm ++ [x00])
       = Some (match ext with [] => None | _ :: _ => Some (length stem) end).
Proof.
  intros Hnul. unfold extension_start.
  assert (Hslash : "/"%byte <> x00) by discriminate.
  assert (Hdot : "."%byte <> x00) by discriminate.
  destruct (strrchr_spec "/" nm Hslash Hnul)
    as [[Hno ->]|(pre & post & -> & Hpost & ->)].
  - (* no directory *)
    destruct (strrchr_spec "." nm Hdot Hnul)
      as [[Hnodot ->]|(stem & ext & -> & Hext & ->)].
    + exists nm, []. rewrite app_nil_r. split; [reflexivity|].
      split; [|reflexivity]. split; [apply not_elem_of_nil|].
      intros dir base -> _ Hin. apply Hnodot, elem_of_app. by right.
    + exists stem, ("."%byte :: ext). split; [reflexivity|].
      split; [|reflexivity]. split; [|by split].
      intros Hin. apply Hno, elem_of_app. by right.
  - (* the last component *)
    rewrite <- app_assoc, drop_app_length.
    assert (Hnul' : x00 ∉ "/"%byte :: post).
    { intros Hin. apply Hnul, elem_of_app. by right. }
    change (("/"%byte :: post) ++ [x00]) with (("/"%byte :: post) ++ [x00]).
    destruct (strrchr_spec "." ("/"%byte :: post) Hdot Hnul')
      as [[Hnodot Hr]|(pre2 & ext & Heq & Hext & Hr)];
      cbn [app] in Hr; cbn [app]; rewrite Hr; cbn [option_map].
    + exists (pre ++ "/"%byte :: post), []. rewrite app_nil_r.
      split; [reflexivity|]. split; [|reflexivity].
      split; [apply not_elem_of_nil|].
      intros dir base Heq Hbase Hin.
      apply app_eq_inv in Heq as [(k & -> & ->)|(k & -> & Hk)].
      * apply Hbase, elem_of_app. right. left.
      * destruct k as [|c k]; cbn [app] in Hk.
        -- subst base. apply Hbase. left.
        -- injection Hk as <- ->. apply Hnodot. right.
           apply elem_of_app. by right.
    + destruct pre2 as [|c pre2]; [discriminate Heq|].
      injection Heq as <- ->.
      exists (pre ++ "/"%byte :: pre2), ("."%byte :: ext).
      split; [by rewrite <- app_assoc|]. split.
      * split; [|by split]. intros Hin. apply Hpost, elem_of_app. by right.
      * rewrite length_app. reflexivity.
Qed.

Lemma first_char (td nm : list byte) :
  exists c0, (nm ++ [x00]) !! 0%nat = Some c0
             /\ directory_prefix td nm
                = if negb (Byte.eqb c0 "/"%byte) then td ++ ["/"%byte] else [].
Proof.
  destruct nm as [|c nm]; [by exists x00|].
  exists c. split; [reflexivity|]. cbn [directory_prefix].
  by destruct (Byte.eqb c "/"%byte).
Qed.

(** X15.  [make_file_name] builds, in a buffer of exactly the size of the
    result, the name with "_prog", "_namespace" and "_instance" (those
    that are given) put in before the extension: a name that does not
    start with a slash is placed in [tmp_dir]; the extension is what
    starts at the last dot of the last path component, so a dot in a
    directory name is not taken for one; without such a dot the parts are
    appended at the end. *)
Theorem make_file_name_layout (td nm : list byte)
    (prog ns inst : option (list byte)) :
  x00 ∉ td -> x00 ∉ nm -> no_nul prog -> no_nul ns -> no_nul inst ->
  Z.of_nat (length td + length nm + length (part prog) + length (part ns)
            + length (part inst) + 2) <= SIZE_MAX ->
  exists stem ext,
    nm = stem ++ ext
    /\ is_extension stem ext
    /\ make_file_name (c_object td) (Some (c_object nm)) (c_object <$> prog)
         (c_object <$> ns) (c_object <$> inst)
       = Some (Some (c_object (directory_prefix td nm ++ stem ++ part prog
                               ++ part ns ++ part inst ++ ext))).
Proof.
  intros Htd Hnm Hprog Hns Hinst Hmax.
  destruct (extension_search nm Hnm) as (stem & ext & Heq & Hext & Hsearch).
  exists stem, ext. split; [exact Heq|]. split; [exact Hext|].
  destruct (first_char td nm) as (c0 & Hc0 & Hdir).
  unfold make_file_name, c_object. rewrite Hc0. cbn [mbind option_bind].
  rewrite Hsearch.
  rewrite !UtilsFacts.strlen_app_nul by assumption.
  set (dir := directory_prefix td nm) in *.
  assert (Hdirlen : (length dir <= length td + 1)%nat).
  { rewrite Hdir. destruct (negb _); [rewrite length_app|]; cbn [length]; lia. }
  assert (Hdirnul : x00 ∉ dir).
  { rewrite Hdir. destruct (negb _); [|apply not_elem_of_nil].
    apply not_elem_of_app. split; [exact Htd|].
    apply not_elem_of_cons. split; [discriminate|apply not_elem_of_nil]. }
  assert (Hlen0 : (if negb (Byte.eqb c0 "/"%byte)
                   then n ← Some (length td);
                        Some (to_size_t (Z.of_nat n + 1))
                   else Some 0)
                  = Some (Z.of_nat (length dir))).
  { rewrite Hdir. unfold to_size_t, SIZE_MAX in *.
    destruct (negb _); cbn [mbind option_bind]; [|reflexivity].
    rewrite Z.mod_small by lia. rewrite length_app. cbn [length].
    f_equal. lia. }
  rewrite Hlen0. cbn [mbind option_bind].
  assert (Hlen1 : to_size_t (Z.of_nat (length dir) + Z.of_nat (length nm))
                  = Z.of_nat (length dir + length nm)).
  { unfold to_size_t, SIZE_MAX in *. rewrite Z.mod_small by lia. lia. }
  rewrite Hlen1.
  rewrite (add_part_len_spec _ prog) by (auto; lia).
  cbn [mbind option_bind].
  rewrite (add_part_len_spec _ ns) by (auto; lia).
  cbn [mbind option_bind].
  rewrite (add_part_len_spec _ inst) by (auto; lia).
  cbn [mbind option_bind].
  set (len := Z.of_nat (length dir + length nm)
              + Z.of_nat (length (part prog)) + Z.of_nat (length (part ns))
              + Z.of_nat (length (part inst))).
  assert (Hlen2 : to_size_t (len + 1) = Z.of_nat (Z.to_nat len + 1)).
  { unfold to_size_t, SIZE_MAX in *. subst len. rewrite Z.mod_small by lia.
    lia. }
  rewrite Hlen2. unfold MALLOC. rewrite Nat2Z.id.
  set (k := (Z.to_nat len + 1)%nat).
  assert (Hk : k = (length dir + length stem + length (part prog)
                    + length (part ns) + length (part inst) + length ext
                    + 1)%nat).
  { subst k len. rewrite Heq, length_app. lia. }
  (* the directory *)
  assert (Hstart : (if negb (Byte.eqb c0 "/"%byte)
                    then file_name ← strcpy (replicate k x00) 0 (td ++ [x00]);
                         strcat file_name (c_str "/")
                    else store (replicate k x00) 0 x00)
                   = Some (dir ++ replicate (k - length dir) x00)).
  { rewrite Hdir in *. destruct (negb _).
    - rewrite strcpy_zero_padded by (auto; rewrite length_app in Hk; lia).
      cbn [mbind option_bind].
      change (c_str "/") with (["/"%byte] ++ [x00]).
      rewrite strcat_zero_padded;
        [|exact Htd|
         |rewrite length_app in Hk; cbn [length] in *; lia].
      2:{ apply not_elem_of_cons.
          split; [discriminate|apply not_elem_of_nil]. }
      f_equal. rewrite length_app. cbn [length]. do 2 f_equal. lia.
    - unfold store. rewrite decide_True by (rewrite length_replicate; lia).
      cbn [length app Z.to_nat]. rewrite Nat.sub_0_r.
      destruct k; [lia|]. reflexivity. }
  rewrite Hstart. cbn [mbind option_bind].
  (* the name up to its extension *)
  rewrite (strncat_zero_padded dir stem); [|exact Hdirnul| | | |].
  2:{ rewrite Heq in Hnm. apply not_elem_of_app in Hnm. tauto. }
  2:{ lia. }
  2:{ destruct ext; [subst len|]; lia. }
  2:{ destruct ext as [|c ext].
      - left. rewrite app_nil_r in Heq. subst nm. split; [reflexivity|].
        subst len. lia.
      - right. exists ((c :: ext) ++ [x00]).
        split; [by rewrite Heq, <- app_assoc|reflexivity]. }
  cbn [mbind option_bind].
  assert (Hstem : x00 ∉ stem)
    by (rewrite Heq in Hnm; apply not_elem_of_app in Hnm; tauto).
  assert (Hextnul : x00 ∉ ext)
    by (rewrite Heq in Hnm; apply not_elem_of_app in Hnm; tauto).
  rewrite append_part_zero_padded;
    [|by apply not_elem_of_app|exact Hprog|lia].
  cbn [mbind option_bind].
  rewrite append_part_zero_padded; [| |exact Hns|lia].
  2:{ repeat (apply not_elem_of_app; split); auto using part_no_nul. }
  cbn [mbind option_bind].
  rewrite append_part_zero_padded; [| |exact Hinst|lia].
  2:{ repeat (apply not_elem_of_app; split); auto using part_no_nul. }
  cbn [mbind option_bind].
  destruct ext as [|c ext].
  - do 2 f_equal. rewrite app_nil_r, <- !app_assoc. do 5 f_equal.
    replace (k - length dir - length stem - length (part prog)
             - length (part ns) - length (part inst))%nat with 1%nat
      by (cbn [length] in Hk; lia).
    reflexivity.
  - replace (drop (length stem) (nm ++ [x00])) with ((c :: ext) ++ [x00])
      by (by rewrite Heq, <- app_assoc, drop_app_length).
    rewrite strcat_zero_padded; [| |exact Hextnul|lia].
    2:{ repeat (apply not_elem_of_app; split); auto using part_no_nul. }
    cbn [mbind option_bind]. do 2 f_equal.
    rewrite <- !app_assoc. do 6 f_equal.
    replace (k - length dir - length stem - length (part prog)
             - length (part ns) - length (part inst)
             - length (c :: ext))%nat with 1%nat by lia.
    reflexivity.
Qed.

Lemma make_file_name_layout_witness :
  exists stem ext,
    list_byte_of_string "run.d/bfd.pid" = stem ++ ext
    /\ is_extension stem ext
    /\ make_file_name (c_object (list_byte_of_string "/tmp"))
         (Some (c_object (list_byte_of_string "run.d/bfd.pid")))
         (c_object <$> Some (list_byte_of_string "bfd"))
         (c_object <$> None)
         (c_object <$> Some (list_byte_of_string "inst1"))
       = Some (Some (c_object
                       (directory_prefix (list_byte_of_string "/tmp")
                          (list_byte_of_string "run.d/bfd.pid")
                        ++ stem ++ part (Some (list_byte_of_string "bfd"))
                        ++ part None
                        ++ part (Some (list_byte_of_string "inst1"))
                        ++ ext))).
Proof.
  apply (make_file_name_layout (list_byte_of_string "/tmp")
           (list_byte_of_string "run.d/bfd.pid")
           (Some (list_byte_of_string "bfd")) None
           (Some (list_byte_of_string "inst1"))).
  - vm_compute. intros H. repeat (apply elem_of_cons in H as [H|H];
      [discriminate H|]). by apply elem_of_nil in H.
  - vm_compute. intros H. repeat (apply elem_of_cons in H as [H|H];
      [discriminate H|]). by apply elem_of_nil in H.
  - vm_compute. intros H. repeat (apply elem_of_cons in H as [H|H];
      [discriminate H|]). by apply elem_of_nil in H.
  - exact I.
  - vm_compute. intros H. repeat (apply elem_of_cons in H as [H|H];
      [discriminate H|]). by apply elem_of_nil in H.
  - vm_compute. discriminate.
Defined.

End UtilsExtFacts.


(* ===================================================================== *)
(** * More properties of the BFD daemon                                   *)
(* ===================================================================== *)

Module BfdExtFacts.
Import Bfd BfdExt BfdFacts.

Lemma bind_returns {A B} (m : M A) (k : A -> M B) (p p'' : proc) (b : B) :
  (m ≫= k) p = Returns b p'' ->
  exists a p', m p = Returns a p' /\ k a p' = Returns b p''.
Proof.
  rewrite run_bind. destruct (m p) as [a p'|st p'|p']; try discriminate.
  intros H. by exists a, p'.
Qed.

(** X16.  [start_bfd_child] comes back to its caller only in the parent:
    with -1 when [fork] failed, having logged one line, and with 0
    otherwise, having recorded the pid of the child and the time of its
    start, logged one line and added to the master the thread that waits for
    the child.  In the child (where [fork] returned 0) it never returns:
    every path ends in [exit], in the fault of a NULL [global_data], or in
    the scheduler. *)
Theorem start_bfd_child_returns_in_parent (b : build_config) (w : world)
    (p : proc) :
  if fork_result w <? 0
  then start_bfd_child b w p
       = Returns (-1)
           (set_log (log p ++ ["BFD child process: fork error(%m)"]) p)
  else if negb (fork_result w =? 0)
  then match master p with
       | Some _ =>
           start_bfd_child b w p
           = Returns 0
               (set_child_threads
                  (child_threads p
                   ++ [{| child_func := BFD_RESPAWN_THREAD;
                          child_pid := fork_result w |}])
                  (set_log (log p ++ ["Starting BFD child process, pid=%d"])
                     (set_bfd_start_time (time_now w)
                        (set_bfd_child (fork_result w) p))))
       | None => never_returns (start_bfd_child b w) p
       end
  else never_returns (start_bfd_child b w) p.
Proof.
  unfold start_bfd_child, log_message, thread_add_child.
  destruct (fork_result w <? 0); [repeat run_step; reflexivity|].
  destruct (negb (fork_result w =? 0)).
  { destruct (master p) eqn:Hm.
    - repeat run_step. rewrite Hm. repeat run_step. reflexivity.
    - intros a p'. repeat run_step. rewrite Hm. discriminate. }
  intros a p' Hret.
  apply bind_returns in Hret as (? & p1 & _ & Hret).
  apply bind_returns in Hret as (? & p2 & _ & Hret).
  apply bind_returns in Hret as (? & p3 & _ & Hret).
  apply bind_returns in Hret as (? & p4 & _ & Hret).
  discriminate Hret.
Qed.

Lemma close_std_fd_closes (p : proc) :
  close_std_fd p
  = Returns tt (set_fds (delete 2%nat (delete 1%nat (delete 0%nat (fds p)))) p).
Proof.
  unfold close_std_fd.
  change (close 0) with (close (Z.of_nat 0)).
  change (close 1) with (close (Z.of_nat 1)).
  change (close 2) with (close (Z.of_nat 2)).
  rewrite run_bind. destruct (close_nat_run 0 p) as (r0 & ->).
  rewrite run_bind.
  match goal with |- context [close (Z.of_nat 1) ?x] =>
    destruct (close_nat_run 1 x) as (r1 & ->) end.
  rewrite run_bind.
  match goal with |- context [close (Z.of_nat 2) ?x] =>
    destruct (close_nat_run 2 x) as (r2 & ->) end.
  reflexivity.
Qed.

(** The line of [log_stopping]: it starts with the word Stopped, which is
    all of it unless [LOG_DETAIL_BIT] is set. *)
Lemma log_stopping_line (w : world) :
  exists line,
    (forall x, log_stopping w x = Returns tt (set_log (log x ++ [line]) x))
    /\ (if log_detail w
        then exists rest, line = "Stopped - used " +:+ rest
        else line = "Stopped").
Proof.
  unfold log_stopping, log_message.
  destruct (log_detail w); [|eexists; split; [reflexivity|reflexivity]].
  cbv zeta. destruct (_ || _); eexists; (split; [reflexivity|]);
    eexists; reflexivity.
Qed.

(** X17.  [stop_bfd] does nothing while the configuration is only tested.
    Otherwise it never returns: the process exits with exactly the status
    given, after the configuration and the master have been released, the
    line of [log_stopping] has been logged (the word Stopped, followed by
    the processor times used when [LOG_DETAIL_BIT] is set) and the standard
    descriptors 0, 1 and 2 have been closed; nothing that was in the log is
    lost. *)
Theorem stop_bfd_exit_or_test (w : world) (status : Z) (p : proc) :
  if config_test w then stop_bfd w status p = Returns tt p
  else exists p' line,
      stop_bfd w status p = Exits status p'
      /\ bfd_data p' = None /\ global_data p' = None /\ master p' = None
      /\ (forall x, log_stopping w x
                    = Returns tt (set_log (log x ++ [line]) x))
      /\ (if log_detail w
          then exists rest, line = "Stopped - used " +:+ rest
          else line = "Stopped")
      /\ log p `prefix_of` log p' /\ line ∈ log p'
      /\ forall fd, (fd < 3)%nat -> fds p' !! fd = None.
Proof.
  unfold stop_bfd. destruct (config_test w); [reflexivity|].
  destruct (log_stopping_line w) as (line & Hline & Htext).
  repeat run_step. rewrite Hline.
  repeat run_step. external_if_step.
  repeat run_step. rewrite close_std_fd_closes.
  eexists _, line. split; [reflexivity|]. proc_simpl.
  do 3 (split; [reflexivity|]). split; [exact Hline|]. split; [exact Htext|].
  split; [|split].
  - rewrite <- !app_assoc. apply prefix_app_r. reflexivity.
  - rewrite !elem_of_app. left. left. right. apply list_elem_of_here.
  - intros fd Hfd.
    destruct fd as [|[|[|fd]]]; [| | |lia].
    + rewrite lookup_delete_ne, lookup_delete_ne by lia.
      apply lookup_delete_eq.
    + rewrite lookup_delete_ne by lia. apply lookup_delete_eq.
    + apply lookup_delete_eq.
Qed.

(** X18.  [bfd_validate_config], run at startup with [CONFIG_TEST_BIT]
    set, always returns to its caller: neither a failed allocation nor a
    configuration in error makes it leave the process.  It queues no
    dispatcher and leaves the master, the signal handlers, the threads
    waiting for a child and [global_data] as they were; [bfd_data] holds
    the configuration read, or NULL when the allocation failed.  The
    descriptors are those the parser has left, and the log has got the
    lines of the parser, followed, when a process name is configured and
    [prctl] refuses it, by the line of [set_process_name] that says so;
    when [prctl] accepts it, the process has that name. *)
Theorem bfd_validate_config_returns (w : world) (p : proc) (g : data_t) :
  config_test w = true ->
  reload p = false ->
  global_data p = Some g ->
  let named :=
    alloc_bfd_data_ok w && bool_decide (is_Some (bfd_process_name g)) in
  let refused :=
    negb (prctl_set_name w (default "keepalived" (bfd_process_name g)) =? 0) in
  exists p',
    bfd_validate_config w p = Returns tt p'
    /\ bfd_data p' = (if alloc_bfd_data_ok w then Some (conf_bfd w) else None)
    /\ master p' = master p /\ signals p' = signals p
    /\ child_threads p' = child_threads p
    /\ global_data p' = global_data p
    /\ fds p' = run_fd_ops (nofile p)
                  (if alloc_bfd_data_ok w then helper_fds w INIT_DATA else [])
                  (fds p)
    /\ log p'
       = log p ++ (if alloc_bfd_data_ok w then helper_log w INIT_DATA else [])
         ++ (if named && refused then ["Failed to set process name '%s'"]
             else [])
    /\ comm p' = (if named && negb refused then bfd_process_name g
                  else comm p).
Proof.
  intros Hct Hrl Hg named refused. subst named refused.
  unfold bfd_validate_config, start_bfd.
  repeat run_step. rewrite Hrl. repeat run_step.
  destruct (alloc_bfd_data_ok w); cbn [negb andb].
  - unfold init_data, deref_global_data. repeat run_step.
    rewrite Hrl. repeat run_step. rewrite Hg. repeat run_step.
    rewrite Hct. unfold process_name_changed.
    destruct (bfd_process_name g) as [name|] eqn:Hname.
    + rewrite bool_decide_eq_true_2 by eauto.
      unfold set_process_name, log_message. cbv zeta.
      cbn [from_option andb]. unfold id.
      destruct (negb (prctl_set_name w name =? 0)); repeat run_step;
        cbn [negb]; (eexists; split; [reflexivity|]); proc_simpl;
        rewrite ?Hg, <- ?app_assoc, ?app_nil_r; repeat split; auto.
    + rewrite bool_decide_eq_false_2 by (intros [? ?]; discriminate).
      repeat run_step. cbn [andb].
      eexists. split; [reflexivity|]. proc_simpl.
      rewrite ?Hg, ?app_nil_r. repeat split; auto.
  - unfold stop_bfd. rewrite Hct. repeat run_step.
    eexists. split; [reflexivity|]. proc_simpl.
    rewrite ?app_nil_r. repeat split; auto.
Qed.

Lemma bfd_validate_config_returns_witness :
  exists p',
    bfd_validate_config config_test_world named_parent = Returns tt p'
    /\ bfd_data p' = Some (conf_bfd config_test_world)
    /\ master p' = master named_parent
    /\ signals p' = signals named_parent
    /\ child_threads p' = child_threads named_parent
    /\ global_data p' = global_data named_parent
    /\ fds p' = run_fd_ops (nofile named_parent)
                  (helper_fds config_test_world INIT_DATA) (fds named_parent)
    /\ log p'
       = log named_parent ++ helper_log config_test_world INIT_DATA
         ++ ["Failed to set process name '%s'"]
    /\ comm p' = comm named_parent.
Proof.
  apply (bfd_validate_config_returns config_test_world named_parent
           named_global); reflexivity.
Defined.

Lemma dup2_run (o n : nat) (e : fd_entry) (p : proc) :
  fds p !! o = Some e -> (n < nofile p)%nat ->
  dup2 (Z.of_nat o) (Z.of_nat n) p
  = Returns (Z.of_nat n)
      (if decide (o = n) then p
       else set_fds (<[n := {| fd_file := fd_file e;
                               fd_nonblock := fd_nonblock e;
                               fd_cloexec := false |}]> (fds p)) p).
Proof.
  intros Ho Hn. unfold dup2. rewrite decide_True by lia.
  rewrite Nat2Z.id, Ho. rewrite decide_True by lia.
  destruct (decide (o = n)) as [->|Hne].
  - rewrite decide_True by reflexivity. reflexivity.
  - rewrite decide_False by lia. rewrite Nat2Z.id. reflexivity.
Qed.

Lemma dup2_dev_null (o n : nat) (p : proc) :
  fds p !! o = Some dev_null -> (n < nofile p)%nat ->
  dup2 (Z.of_nat o) (Z.of_nat n) p
  = Returns (Z.of_nat n) (set_fds (<[n := dev_null]> (fds p)) p).
Proof.
  intros Ho Hn. rewrite (dup2_run o n dev_null p Ho Hn).
  destruct (decide (o = n)) as [->|Hne]; [|reflexivity].
  rewrite insert_id by exact Ho. rewrite set_fds_id. reflexivity.
Qed.

(** X19.  [set_std_fd], when it is forced or [DONT_FORK_BIT] is set and
    /dev/null can be opened, leaves descriptors 0, 1 and 2 referring to
    /dev/null and every other descriptor as it was: the descriptor opened
    for /dev/null is closed again unless it is itself one of the three
    (as it is when one of them was closed before the call).  In every
    other case nothing is changed.  Only the descriptor table is touched. *)
Theorem set_std_fd_redirects (force dont_fork openable : bool) (p : proc) :
  (3 <= nofile p)%nat ->
  exists p',
    set_std_fd force dont_fork openable p = Returns tt p'
    /\ p' = set_fds (fds p') p
    /\ if (force || dont_fork) && openable
          && bool_decide (lowest_free (fds p) < nofile p)%nat
       then (forall fd, (fd < 3)%nat -> fds p' !! fd = Some dev_null)
            /\ (forall fd, (3 <= fd)%nat -> fds p' !! fd = fds p !! fd)
       else p' = p.
Proof.
  intros Hnofile. unfold set_std_fd.
  destruct (force || dont_fork); cbn [andb];
    [|exists p; rewrite set_fds_id; auto].
  rewrite run_bind. unfold open.
  destruct openable; cbn [andb];
    [|exists p; rewrite set_fds_id; auto].
  set (n := lowest_free (fds p)).
  pose proof (lowest_free_None (fds p)) as Hfree. fold n in Hfree.
  destruct (bool_decide (n < nofile p)%nat) eqn:Hlim;
    [|exists p; rewrite set_fds_id; auto].
  apply bool_decide_eq_true in Hlim.
  fold dev_null.
  replace (negb (Z.of_nat n =? -1)) with true
    by (symmetry; apply negb_true_iff, Z.eqb_neq; lia).
  unfold STDIN_FILENO, STDOUT_FILENO, STDERR_FILENO.
  change 0 with (Z.of_nat 0). change 1 with (Z.of_nat 1).
  change 2 with (Z.of_nat 2).
  set (t0 := <[n := dev_null]> (fds p)).
  assert (H0 : t0 !! n = Some dev_null) by apply lookup_insert_eq.
  rewrite run_bind, (dup2_dev_null n 0) by (proc_simpl; first [exact H0|lia]).
  proc_simpl. set (t1 := <[0%nat := dev_null]> t0).
  assert (H1 : t1 !! n = Some dev_null).
  { subst t1. destruct (decide (n = 0%nat)) as [->|];
      [apply lookup_insert_eq|by rewrite lookup_insert_ne]. }
  rewrite run_bind, (dup2_dev_null n 1) by (proc_simpl; first [exact H1|lia]).
  proc_simpl. set (t2 := <[1%nat := dev_null]> t1).
  assert (H2 : t2 !! n = Some dev_null).
  { subst t2. destruct (decide (n = 1%nat)) as [->|];
      [apply lookup_insert_eq|by rewrite lookup_insert_ne]. }
  rewrite run_bind, (dup2_dev_null n 2) by (proc_simpl; first [exact H2|lia]).
  proc_simpl. set (t3 := <[2%nat := dev_null]> t2).
  assert (Hstd : forall fd, (fd < 3)%nat -> t3 !! fd = Some dev_null).
  { intros fd Hfd. subst t3 t2 t1.
    destruct fd as [|[|[|fd]]]; [| | |lia].
    - rewrite lookup_insert_ne, lookup_insert_ne by lia.
      apply lookup_insert_eq.
    - rewrite lookup_insert_ne by lia. apply lookup_insert_eq.
    - apply lookup_insert_eq. }
  assert (Hrest : forall fd, (3 <= fd)%nat -> fd <> n
                             -> t3 !! fd = fds p !! fd).
  { intros fd Hfd Hne. subst t3 t2 t1 t0.
    rewrite !lookup_insert_ne by lia. reflexivity. }
  destruct (Z.gtb_spec (Z.of_nat n) (Z.of_nat 2)) as [Hgt|Hle].
  - rewrite run_bind, !set_fds_set_fds.
    destruct (close_nat_run n (set_fds t3 p)) as (r & ->).
    cbn [run_fd_ops foldl run_fd_op].
    proc_simpl. unfold mret, M_ret, ret. rewrite set_fds_set_fds.
    eexists. split; [reflexivity|]. proc_simpl.
    split; [reflexivity|]. split.
    + intros fd Hfd. rewrite lookup_delete_ne by lia. by apply Hstd.
    + intros fd Hfd. destruct (decide (fd = n)) as [->|Hne].
      * rewrite lookup_delete_eq. by rewrite Hfree.
      * rewrite lookup_delete_ne by lia. by apply Hrest.
  - unfold mret, M_ret, ret. rewrite !set_fds_set_fds.
    eexists. split; [reflexivity|]. proc_simpl.
    split; [reflexivity|]. split; [exact Hstd|].
    intros fd Hfd. apply Hrest; lia.
Qed.

Lemma set_std_fd_redirects_witness :
  exists p',
    set_std_fd true false true
      (set_fds (delete 1%nat (fds Scenario.parent)) Scenario.parent)
    = Returns tt p'
    /\ p' = set_fds (fds p')
              (set_fds (delete 1%nat (fds Scenario.parent)) Scenario.parent)
    /\ if (true || false) && true
          && bool_decide
               (lowest_free
                  (fds (set_fds (delete 1%nat (fds Scenario.parent))
                          Scenario.parent))
                < nofile (set_fds (delete 1%nat (fds Scenario.parent))
                            Scenario.parent))%nat
       then (forall fd, (fd < 3)%nat -> fds p' !! fd = Some dev_null)
            /\ (forall fd, (3 <= fd)%nat ->
                           fds p' !! fd
                           = fds (set_fds (delete 1%nat (fds Scenario.parent))
                                    Scenario.parent) !! fd)
       else p' = set_fds (delete 1%nat (fds Scenario.parent)) Scenario.parent.
Proof.
  apply (set_std_fd_redirects true false true
           (set_fds (delete 1%nat (fds Scenario.parent)) Scenario.parent)).
  simpl. lia.
Defined.

Lemma open_pipe_outcome (arr : pipe_var) (p : proc) :
  open_pipe arr p = Returns (-1) p
  \/ exists p', open_pipe arr p = Returns 0 p'
                /\ pipe_added arr p p' /\ nonblocking_pipe arr p'
                /\ log p' = log p.
Proof.
  destruct (open_pipe_cases arr p) as [Hfail|(p' & Hok & Hpipe2)];
    [by left|right].
  exists p'. split; [exact Hok|].
  destruct (pipe2_success arr p p' Hpipe2) as (Hadd & _ & _ & Hnb).
  split; [exact Hadd|]. split; [exact Hnb|].
  destruct (pipe2_cases arr p) as [Hf|(rfd & wfd & Heq & _)];
    rewrite Hpipe2 in *; [discriminate|].
  injection Heq as ->. by destruct arr.
Qed.

Lemma nonblocking_pipe_set_log (arr : pipe_var) (l : list string) (p : proc) :
  nonblocking_pipe arr p -> nonblocking_pipe arr (set_log l p).
Proof.
  intros (rfd & wfd & er & ew & id & Harr & Hrest).
  exists rfd, wfd, er, ew, id. split; [by destruct arr|exact Hrest].
Qed.

(** X20.  [open_bfd_pipes] always returns.  It returns true only when
    every event pipe compiled in has been created, each with both ends
    non-blocking and close-on-exec, and then nothing has been logged.  It
    returns false after logging which pipe could not be created; a VRRP
    pipe created before the checker pipe failed is not closed again: it
    stays open in the process. *)
Theorem open_bfd_pipes_result (b : build_config) (p : proc) :
  exists ok p',
    open_bfd_pipes b p = Returns ok p'
    /\ if ok
       then log p' = log p
            /\ forall v, pipe_enabled b v = true -> nonblocking_pipe v p'
       else (WITH_VRRP b = true
             /\ p' = set_log
                       (log p ++ ["Unable to create BFD vrrp event pipe: %m"])
                       p)
            \/ (WITH_LVS b = true
                /\ log p'
                   = log p ++ ["Unable to create BFD checker event pipe: %m"]
                /\ (WITH_VRRP b = true
                    -> nonblocking_pipe BFD_VRRP_EVENT_PIPE p')).
Proof.
  unfold open_bfd_pipes, log_message.
  assert (Hvc : BFD_VRRP_EVENT_PIPE <> BFD_CHECKER_EVENT_PIPE) by discriminate.
  destruct (WITH_VRRP b) eqn:Ev.
  - repeat rewrite run_bind.
    destruct (open_pipe_outcome BFD_VRRP_EVENT_PIPE p)
      as [->|(p1 & -> & Hadd1 & Hn1 & Hl1)].
    { repeat run_step. exists false. eexists. split; [reflexivity|].
      left. split; reflexivity. }
    repeat run_step. cbn [negb Z.eqb].
    destruct (WITH_LVS b) eqn:Ec.
    + repeat rewrite run_bind.
      destruct (open_pipe_outcome BFD_CHECKER_EVENT_PIPE p1)
        as [->|(p2 & -> & Hadd2 & Hn2 & Hl2)].
      { repeat run_step. exists false. eexists. split; [reflexivity|].
        right. split; [reflexivity|]. proc_simpl. rewrite Hl1.
        split; [reflexivity|]. intros _.
        by apply nonblocking_pipe_set_log. }
      repeat run_step. cbn [negb Z.eqb].
      exists true. eexists. split; [reflexivity|].
      split; [congruence|]. intros [|] _.
      * apply (nonblocking_pipe_kept _ _ _ _ Hvc Hadd2 Hn1).
      * exact Hn2.
    + repeat run_step. cbn [negb].
      exists true. eexists. split; [reflexivity|].
      split; [exact Hl1|]. intros [|] Hen; [exact Hn1|].
      cbn in Hen. congruence.
  - repeat run_step. cbn [negb].
    destruct (WITH_LVS b) eqn:Ec.
    + repeat rewrite run_bind.
      destruct (open_pipe_outcome BFD_CHECKER_EVENT_PIPE p)
        as [->|(p2 & -> & Hadd2 & Hn2 & Hl2)].
      { repeat run_step. exists false. eexists. split; [reflexivity|].
        right. split; [reflexivity|]. proc_simpl.
        split; [reflexivity|]. discriminate. }
      repeat run_step. cbn [negb Z.eqb].
      exists true. eexists. split; [reflexivity|].
      split; [exact Hl2|]. intros [|] Hen; [|exact Hn2].
      cbn in Hen. congruence.
    + repeat run_step. cbn [negb].
      exists true. eexists. split; [reflexivity|].
      split; [reflexivity|]. intros [|] Hen; cbn in Hen; congruence.
Qed.

Lemma fd_closes_helpers (w : world) (hs : list helper) (fd : nat) :
  fd ∈ fd_closes (hs ≫= helper_fds w) -> fd ∈ helpers_close w hs.
Proof.
  rewrite elem_of_fd_closes. intros Hin.
  apply list_elem_of_bind in Hin as (h & Hfd & Hh).
  now apply (elem_of_helpers_close w hs h).
Qed.

(** Helpers that close no descriptor of a pipe leave the descriptors of
    the pipes as they are. *)
Lemma pipe_fds_run_fd_ops (w : world) (hs : list helper) (p : proc) :
  keeps_pipes (helpers_close w hs) p ->
  pipe_fds (run_fd_ops (nofile p) (hs ≫= helper_fds w) (fds p))
  = pipe_fds (fds p).
Proof.
  intros Hkeep. apply map_eq. intros fd. apply option_eq. intros e.
  rewrite !pipe_fds_lookup. split; intros [Hfd Hpipe]; (split; [|exact Hpipe]).
  - exact (run_fd_ops_pipe _ _ _ _ _ Hfd Hpipe).
  - apply run_fd_ops_kept; [exact Hfd|]. intros Hclosed.
    apply fd_closes_helpers in Hclosed. exact (Hkeep fd e Hclosed Hfd Hpipe).
Qed.

(** X21.  A reload that is not stopped by the configuration check keeps
    the event pipes, provided none of the helpers it calls closes a
    descriptor of a pipe: when [reload_bfd_thread] returns, the descriptors
    of the process that refer to pipes and the two pipe arrays are what
    they were before, so the parent keeps receiving the events of the
    child; the reload flag is cleared again and the data saved for the
    reload are released. *)
Theorem reload_bfd_thread_keeps_pipes (w : world) (p : proc)
    (q : list thread_t) :
  config_test w = false ->
  alloc_bfd_data_ok w = true ->
  master p = Some q ->
  reload_check_config (init_global_data w (conf_global w) (global_data p))
  && negb (is_config_ok (conf_status w)) = false ->
  keeps_pipes (helpers_close w reload_helpers) p ->
  exists p',
    reload_bfd_thread w p = Returns tt p'
    /\ pipe_fds (fds p') = pipe_fds (fds p)
    /\ bfd_vrrp_event_pipe p' = bfd_vrrp_event_pipe p
    /\ bfd_checker_event_pipe p' = bfd_checker_event_pipe p
    /\ reload p' = false
    /\ old_bfd_data p' = None /\ old_global_data p' = None.
Proof.
  intros Hct Halloc Hq Hchk Hkeep.
  pose proof (reload_bfd_thread_run w p q Hct Halloc Hq) as Hrun.
  cbv zeta in Hrun. rewrite Hchk in Hrun.
  destruct Hrun as (p' & Hp' & _ & _ & Hob & Hog & Hrl & _ & Hfds & _ & Hv & Hc).
  exists p'. split; [exact Hp'|]. split.
  - rewrite Hfds. now apply pipe_fds_run_fd_ops.
  - auto.
Qed.

Lemma reload_bfd_thread_keeps_pipes_witness :
  exists p',
    reload_bfd_thread (Scenario.world_with false true) Scenario.child
    = Returns tt p'
    /\ pipe_fds (fds p') = pipe_fds (fds Scenario.child)
    /\ bfd_vrrp_event_pipe p' = bfd_vrrp_event_pipe Scenario.child
    /\ bfd_checker_event_pipe p' = bfd_checker_event_pipe Scenario.child
    /\ reload p' = false
    /\ old_bfd_data p' = None /\ old_global_data p' = None.
Proof.
  apply (reload_bfd_thread_keeps_pipes (Scenario.world_with false true)
           Scenario.child []); try (vm_compute; reflexivity).
  intros fd e Hfd He.
  change (fd ∈ [11]%nat) in Hfd. apply list_elem_of_singleton in Hfd as ->.
  vm_compute in He. discriminate He.
Defined.

End BfdExtFacts.
